(** * use-api-client: the request lifecycle controller of [src/hook.tsx]

    A shallow embedding of the hook returned by [useApiClientFactory]:
    the twelve [useState] cells, the closures a render creates over them,
    the host's timer table and the transport's in-flight requests, followed
    by the properties of the controller proved (or refuted) on it.

    A render binds every state cell to a [const]; the functions the render
    creates ([request], [cancel], [startPolling], [stopPolling],
    [triggerProgressChange]) read those constants and write through the
    setters.  The embedding keeps the two apart: a function takes the
    closure environment [env] of the render that created it and updates the
    live [store].

    Numbers are exact: counts, delays and the clock are integers, the retry
    limit and the progress cells are rationals.  The source computes on
    binary64 numbers; the one place where that can matter, the percentage
    of [updateProgress], is discussed at [Math_round]. *)

From Stdlib Require Import ZArith QArith Qround Lqa Lia String List Bool.
From stdpp Require Import base option list gmap strings.

Local Open Scope string_scope.
Local Open Scope Z_scope.

(** ** JavaScript values *)

Module JS.

(** The values of type [any] the hook stores: payloads, errors.  [VCancel]
    is an axios cancellation object (the ones [axios.isCancel] accepts). *)
Inductive value : Type :=
  | VNull
  | VUndefined
  | VBool (b : bool)
  | VNum (z : Z)
  | VStr (s : string)
  | VObj (tag : string)
  | VCancel (message : string).

(** Truthiness, as [if (v)] and [v && ...] test it. *)
Definition truthy (v : value) : bool :=
  match v with
  | VNull | VUndefined => false
  | VBool b => b
  | VNum z => negb (z =? 0)
  | VStr s => negb (String.eqb s "")
  | VObj _ | VCancel _ => true
  end.

(** [axios.isCancel]. *)
Definition isCancel (v : value) : bool :=
  match v with VCancel _ => true | _ => false end.

(** An optional number in a condition: [undefined] and [0] are falsy. *)
Definition truthyNum (o : option Z) : bool :=
  match o with Some z => negb (z =? 0) | None => false end.

(** [o || d] on an optional number. *)
Definition orNum (o : option Z) (d : Z) : Z :=
  match o with Some z => if z =? 0 then d else z | None => d end.

(** An optional boolean in a condition. *)
Definition truthyBool (o : option bool) : bool :=
  match o with Some b => b | None => false end.

(** An optional string inside a template literal. *)
Definition show (o : option string) : string :=
  match o with Some s => s | None => "undefined" end.

(** [o || d] on an optional number that need not be whole: [undefined]
    and [0] (and [NaN], which is not told apart from [undefined] here) give
    [d]. *)
Definition orQ (o : option Q) (d : Q) : Q :=
  match o with Some q => if Qeq_bool q 0 then d else q | None => d end.

(** [z < q] for a whole number [z] and a number [q]. *)
Definition ltNum (z : Z) (q : Q) : bool := negb (Qle_bool q (inject_Z z)).

(** [Math.round]: the nearest integer, halves rounded up.

    [updateProgress] applies it to [(loaded * 100) / total], computed on
    binary64 numbers: the product is exact below 2^53, the quotient is
    rounded to the nearest binary64 number.  That rounding is monotone and
    fixes every [k + 1/2], so the rounded quotient falls on the other side
    of a rounding boundary only when it is replaced by a [k + 1/2] just
    above it, which needs [(2k + 1) * total >= 2^53].  With
    [0 <= loaded], [0 < total] and [200 * loaded + 2 * total < 2^53] the
    source's value is the exact one; beyond that it can be one more
    (short of an overflow of the product it stays the rounding of a number
    within a relative 2^-52 of the exact quotient, so it is still whole
    and, for [loaded <= total], within 0 and 100). *)
Definition Math_round (x : Q) : Z := Qfloor (x + (1 # 2)).

End JS.
Export JS.

(** ** Configuration *)

(** A setting of the transport's request options ([AxiosRequestConfig]):
    the ones the hook computes, and whatever else the caller passes on. *)
Inductive Setting : Type :=
  | Text (s : string)
  | Method (m : option string)
  | Data (v : value)
  | Fields (m : gmap string value)
  | CancelTokenOf (src : nat)
  | UploadHandler
  | DownloadHandler
  | Custom (tag : string).

(** [IClientConfig.logging]. [logFunction] records whether a sink is given;
    its calls appear in the trace. *)
Record Logging : Type := {
  enableLogging : option bool;
  logLevel : option string;
  logFunction : bool
}.

(** [IClientConfig.retry]. *)
Record Retry : Type := {
  enableRetry : option bool;
  maxRetryCount : option Q;
  retryInterval : option Z;
  retryCondition : option (value -> bool)
}.

(** [IClientConfig.progress]. *)
Record Progress : Type := {
  progressMode : option string;
  progressInterval : option Z;
  onUploadProgress : bool;
  onDownloadProgress : bool
}.

(** [IClientConfig], the factory's [preferences].  The interceptors are
    installed on the transport and are left out.  The field [progress] is
    [progressPrefs] here, the name [progress] being the state cell's. *)
Record IClientConfig : Type := {
  baseUrl : string;
  defaultHeaders : option (gmap string value);
  defaultQueryParams : option (gmap string value);
  onException : bool;
  logging : option Logging;
  retry : option Retry;
  progressPrefs : option Progress
}.

(** [IApiCall], the hook's [config], supplied anew at every render.  The
    field [config], the raw transport options, is [rawConfig] here, the
    name [config] being the closure's. *)
Record IApiCall : Type := {
  path : option string;
  method : option string;
  body : value;
  headers : option (gmap string value);
  queryParams : option (gmap string value);
  rawConfig : option (gmap string Setting);
  refresh : option Z;
  ttl : option Z
}.

(** A transport progress event. [total] is absent for transfers of unknown
    length. *)
Record ProgressEvent : Type := {
  loaded : Z;
  total : option Z
}.

(** ** State *)

(** The [useState] cells of one hook instance. *)
Record CallState : Type := {
  response : value;
  loading : bool;
  error : value;
  source : option nat;
  cache : value;
  cacheTime : Z;
  intervalId : option positive;
  uploadProgress : Q;
  downloadProgress : Q;
  progress : Q;
  progressUpdateInterval : option positive;
  retryCount : Z
}.

Definition initialState : CallState := {|
  response := VNull;
  loading := false;
  error := VNull;
  source := None;
  cache := VNull;
  cacheTime := 0;
  intervalId := None;
  uploadProgress := 0%Q;
  downloadProgress := 0%Q;
  progress := 0%Q;
  progressUpdateInterval := None;
  retryCount := 0
|}.

(** What the closures of one render see: the state cells as they were when
    the hook body ran, and the [config] it was called with. *)
Record Env : Type := {
  seen : CallState;
  config : IApiCall
}.

(** The callbacks the hook hands to [setInterval] and [setTimeout]; each is
    a closure of the render that armed it. *)
Inductive Callback : Type :=
  | CbRequest (env : Env)
  | CbTick (env : Env).

(** An armed timer of the host.  Handles are positive numbers, so a handle
    is never falsy. *)
Record Timer : Type := {
  callback : Callback;
  delay : Z;
  recurring : bool;
  due : Z
}.

(** A transport call awaiting its result: the closure that awaits it and
    whether its cancel token has been cancelled. *)
Record Pending : Type := {
  awaiting : Env;
  cancelled : bool
}.

(** Calls that leave the hook. *)
Inductive Event : Type :=
  | EvLogFunction (level message : string)
  | EvConsoleLog (line : string)
  | EvTransport (src : nat) (options : gmap string Setting)
  | EvOnException (e : value)
  | EvOnUploadProgress (ev : ProgressEvent)
  | EvOnDownloadProgress (ev : ProgressEvent).

(** The hook instance together with its host: the live cells, the renders
    so far (oldest first), the clock, the timer table, the in-flight
    transport calls and the trace of outgoing calls (latest first). *)
Record World : Type := {
  store : CallState;
  renders : list Env;
  now : Z;
  timers : gmap positive Timer;
  nextTimer : positive;
  pending : gmap nat Pending;
  nextSource : nat;
  trace : list Event
}.

Definition initialWorld : World := {|
  store := initialState;
  renders := [];
  now := 0;
  timers := ∅;
  nextTimer := 1%positive;
  pending := ∅;
  nextSource := 1;
  trace := []
|}.

Definition withStore (f : CallState -> CallState) (w : World) : World :=
  {| store := f (store w); renders := renders w; now := now w;
     timers := timers w; nextTimer := nextTimer w; pending := pending w;
     nextSource := nextSource w; trace := trace w |}.

Definition withRenders (f : list Env -> list Env) (w : World) : World :=
  {| store := store w; renders := f (renders w); now := now w;
     timers := timers w; nextTimer := nextTimer w; pending := pending w;
     nextSource := nextSource w; trace := trace w |}.

Definition withNow (f : Z -> Z) (w : World) : World :=
  {| store := store w; renders := renders w; now := f (now w);
     timers := timers w; nextTimer := nextTimer w; pending := pending w;
     nextSource := nextSource w; trace := trace w |}.

Definition withTimers (f : gmap positive Timer -> gmap positive Timer)
    (w : World) : World :=
  {| store := store w; renders := renders w; now := now w;
     timers := f (timers w); nextTimer := nextTimer w; pending := pending w;
     nextSource := nextSource w; trace := trace w |}.

Definition withPending (f : gmap nat Pending -> gmap nat Pending) (w : World) : World :=
  {| store := store w; renders := renders w; now := now w;
     timers := timers w; nextTimer := nextTimer w; pending := f (pending w);
     nextSource := nextSource w; trace := trace w |}.

Definition withTrace (f : list Event -> list Event) (w : World) : World :=
  {| store := store w; renders := renders w; now := now w;
     timers := timers w; nextTimer := nextTimer w; pending := pending w;
     nextSource := nextSource w; trace := f (trace w) |}.

(** ** The monad of the hook's code: state and exceptions *)

Inductive Result (A : Type) : Type :=
  | Ok (a : A)
  | Thrown (e : value).
Arguments Ok {A} a.
Arguments Thrown {A} e.

Definition Hook (A : Type) : Type := World -> Result A * World.

Definition ret {A} (a : A) : Hook A := fun w => (Ok a, w).

Definition bind {A B} (m : Hook A) (k : A -> Hook B) : Hook B :=
  fun w => match m w with
           | (Ok a, w') => k a w'
           | (Thrown e, w') => (Thrown e, w')
           end.

#[global] Instance Hook_ret : MRet Hook := @ret.
#[global] Instance Hook_bind : MBind Hook := fun A B k m => bind m k.

Definition throw {A} (e : value) : Hook A := fun w => (Thrown e, w).

(** [try { m } catch (error) { h error }] *)
Definition tryCatch {A} (m : Hook A) (h : value -> Hook A) : Hook A :=
  fun w => match m w with
           | (Ok a, w') => (Ok a, w')
           | (Thrown e, w') => h e w'
           end.

(** [try { m } finally { f }] *)
Definition tryFinally {A} (m : Hook A) (f : Hook unit) : Hook A :=
  fun w => match m w with
           | (r, w') => match f w' with
                        | (Ok _, w'') => (r, w'')
                        | (Thrown e, w'') => (Thrown e, w'')
                        end
           end.

Definition modify (f : World -> World) : Hook unit := fun w => (Ok tt, f w).
Definition when (b : bool) (m : Hook unit) : Hook unit := if b then m else ret tt.

Definition emit (e : Event) : Hook unit := modify (withTrace (cons e)).

(** The world a piece of hook code leaves behind. *)
Definition after {A} (m : Hook A) (w : World) : World := snd (m w).

(** ** The setters returned by [useState] *)

Definition set_response (v : value) (s : CallState) : CallState :=
  {| response := v; loading := loading s; error := error s; source := source s;
     cache := cache s; cacheTime := cacheTime s; intervalId := intervalId s;
     uploadProgress := uploadProgress s; downloadProgress := downloadProgress s;
     progress := progress s; progressUpdateInterval := progressUpdateInterval s;
     retryCount := retryCount s |}.

Definition set_loading (b : bool) (s : CallState) : CallState :=
  {| response := response s; loading := b; error := error s; source := source s;
     cache := cache s; cacheTime := cacheTime s; intervalId := intervalId s;
     uploadProgress := uploadProgress s; downloadProgress := downloadProgress s;
     progress := progress s; progressUpdateInterval := progressUpdateInterval s;
     retryCount := retryCount s |}.

Definition set_error (v : value) (s : CallState) : CallState :=
  {| response := response s; loading := loading s; error := v; source := source s;
     cache := cache s; cacheTime := cacheTime s; intervalId := intervalId s;
     uploadProgress := uploadProgress s; downloadProgress := downloadProgress s;
     progress := progress s; progressUpdateInterval := progressUpdateInterval s;
     retryCount := retryCount s |}.

Definition set_source (o : option nat) (s : CallState) : CallState :=
  {| response := response s; loading := loading s; error := error s; source := o;
     cache := cache s; cacheTime := cacheTime s; intervalId := intervalId s;
     uploadProgress := uploadProgress s; downloadProgress := downloadProgress s;
     progress := progress s; progressUpdateInterval := progressUpdateInterval s;
     retryCount := retryCount s |}.

Definition set_cache (v : value) (s : CallState) : CallState :=
  {| response := response s; loading := loading s; error := error s; source := source s;
     cache := v; cacheTime := cacheTime s; intervalId := intervalId s;
     uploadProgress := uploadProgress s; downloadProgress := downloadProgress s;
     progress := progress s; progressUpdateInterval := progressUpdateInterval s;
     retryCount := retryCount s |}.

Definition set_cacheTime (t : Z) (s : CallState) : CallState :=
  {| response := response s; loading := loading s; error := error s; source := source s;
     cache := cache s; cacheTime := t; intervalId := intervalId s;
     uploadProgress := uploadProgress s; downloadProgress := downloadProgress s;
     progress := progress s; progressUpdateInterval := progressUpdateInterval s;
     retryCount := retryCount s |}.

Definition set_intervalId (o : option positive) (s : CallState) : CallState :=
  {| response := response s; loading := loading s; error := error s; source := source s;
     cache := cache s; cacheTime := cacheTime s; intervalId := o;
     uploadProgress := uploadProgress s; downloadProgress := downloadProgress s;
     progress := progress s; progressUpdateInterval := progressUpdateInterval s;
     retryCount := retryCount s |}.

Definition set_uploadProgress (q : Q) (s : CallState) : CallState :=
  {| response := response s; loading := loading s; error := error s; source := source s;
     cache := cache s; cacheTime := cacheTime s; intervalId := intervalId s;
     uploadProgress := q; downloadProgress := downloadProgress s;
     progress := progress s; progressUpdateInterval := progressUpdateInterval s;
     retryCount := retryCount s |}.

Definition set_downloadProgress (q : Q) (s : CallState) : CallState :=
  {| response := response s; loading := loading s; error := error s; source := source s;
     cache := cache s; cacheTime := cacheTime s; intervalId := intervalId s;
     uploadProgress := uploadProgress s; downloadProgress := q;
     progress := progress s; progressUpdateInterval := progressUpdateInterval s;
     retryCount := retryCount s |}.

Definition set_progress (q : Q) (s : CallState) : CallState :=
  {| response := response s; loading := loading s; error := error s; source := source s;
     cache := cache s; cacheTime := cacheTime s; intervalId := intervalId s;
     uploadProgress := uploadProgress s; downloadProgress := downloadProgress s;
     progress := q; progressUpdateInterval := progressUpdateInterval s;
     retryCount := retryCount s |}.

Definition set_progressUpdateInterval (o : option positive) (s : CallState) : CallState :=
  {| response := response s; loading := loading s; error := error s; source := source s;
     cache := cache s; cacheTime := cacheTime s; intervalId := intervalId s;
     uploadProgress := uploadProgress s; downloadProgress := downloadProgress s;
     progress := progress s; progressUpdateInterval := o;
     retryCount := retryCount s |}.

Definition set_retryCount (n : Z) (s : CallState) : CallState :=
  {| response := response s; loading := loading s; error := error s; source := source s;
     cache := cache s; cacheTime := cacheTime s; intervalId := intervalId s;
     uploadProgress := uploadProgress s; downloadProgress := downloadProgress s;
     progress := progress s; progressUpdateInterval := progressUpdateInterval s;
     retryCount := n |}.

Definition setResponse (v : value) : Hook unit := modify (withStore (set_response v)).
Definition setLoading (b : bool) : Hook unit := modify (withStore (set_loading b)).
Definition setError (v : value) : Hook unit := modify (withStore (set_error v)).
Definition setSource (o : option nat) : Hook unit := modify (withStore (set_source o)).
Definition setCache (v : value) : Hook unit := modify (withStore (set_cache v)).
Definition setCacheTime (t : Z) : Hook unit := modify (withStore (set_cacheTime t)).
Definition setIntervalId (o : option positive) : Hook unit := modify (withStore (set_intervalId o)).
Definition setUploadProgress (q : Q) : Hook unit := modify (withStore (set_uploadProgress q)).
Definition setDownloadProgress (q : Q) : Hook unit := modify (withStore (set_downloadProgress q)).
Definition setProgress (q : Q) : Hook unit := modify (withStore (set_progress q)).
Definition setProgressUpdateInterval (o : option positive) : Hook unit :=
  modify (withStore (set_progressUpdateInterval o)).
Definition setRetryCount (n : Z) : Hook unit := modify (withStore (set_retryCount n)).

(** ** The host: timers, clock, cancel tokens, transport *)

Definition armTimer (cb : Callback) (d : Z) (rec : bool) : Hook positive :=
  fun w =>
    let h := nextTimer w in
    (Ok h,
     {| store := store w; renders := renders w; now := now w;
        timers := <[h := {| callback := cb; delay := d; recurring := rec;
                            due := now w + d |}]> (timers w);
        nextTimer := Pos.succ h; pending := pending w;
        nextSource := nextSource w; trace := trace w |}).

Definition setInterval (cb : Callback) (d : Z) : Hook positive := armTimer cb d true.
Definition setTimeout (cb : Callback) (d : Z) : Hook positive := armTimer cb d false.

(** [clearInterval] of a handle that is not armed does nothing. *)
Definition clearInterval (h : positive) : Hook unit := modify (withTimers (delete h)).

Definition Date_now : Hook Z := fun w => (Ok (now w), w).

(** [axios.CancelToken.source()]: a fresh cancel source. *)
Definition CancelToken_source : Hook nat :=
  fun w =>
    (Ok (nextSource w),
     {| store := store w; renders := renders w; now := now w;
        timers := timers w; nextTimer := nextTimer w; pending := pending w;
        nextSource := S (nextSource w); trace := trace w |}).

(** The result the transport hands back at the [await]. *)
Inductive Outcome : Type :=
  | Resolved (data : value)
  | Rejected (reason : value).

(** [axiosInstance.request(...)] up to the [await]: the call is handed to
    the transport and the closure [env] is suspended on it. *)
Definition axios_request (src : nat) (options : gmap string Setting)
    (env : Env) : Hook unit :=
  emit (EvTransport src options);;
  modify (withPending (insert src {| awaiting := env; cancelled := false |})).

(** [source.cancel()]: a request still in flight will settle as a
    cancellation; a settled one is not affected. *)
Definition source_cancel (src : nat) : Hook unit :=
  modify (withPending (fun p =>
    match p !! src with
    | Some r => <[src := {| awaiting := awaiting r; cancelled := true |}]> p
    | None => p
    end)).

(** ** The hook *)

Section hook.

(** The configuration [useApiClientFactory] closes over. *)
Variable preferences : IClientConfig.

(** [o === s] for an optional string [o]. *)
Definition equals (o : option string) (s : string) : bool :=
  match o with Some x => String.eqb x s | None => false end.

(** [logger], lines 69-102. *)
Definition logger (level message : string) : Hook unit :=
  match logging preferences with
  | None => ret tt
  | Some lg =>
      if negb (truthyBool (enableLogging lg)) then ret tt
      else
        let shouldLog :=
          if equals (logLevel lg) "debug" then true
          else if equals (logLevel lg) "info" then
            String.eqb level "info" || String.eqb level "warn"
            || String.eqb level "error"
          else if equals (logLevel lg) "warn" then
            String.eqb level "warn" || String.eqb level "error"
          else if equals (logLevel lg) "error" then String.eqb level "error"
          else false in
        if negb shouldLog then ret tt
        else if logFunction lg then emit (EvLogFunction level message)
        else
          let logMessage := "[" +:+ level +:+ "] " +:+ message in
          emit (EvConsoleLog logMessage)
  end.

(** [updateProgress], lines 105-122. *)
Definition updateProgress (progressEvent : ProgressEvent)
    (setProgress : Q -> Hook unit)
    (callback : option (ProgressEvent -> Hook unit)) : Hook unit :=
  match total progressEvent with
  | Some t =>
      if t =? 0 then ret tt
      else
        let percentCompleted :=
          Math_round (inject_Z (loaded progressEvent * 100) / inject_Z t) in
        setProgress (inject_Z percentCompleted);;
        match callback with
        | Some f => f progressEvent
        | None => ret tt
        end
  | None => ret tt
  end.

(** [triggerProgressChange], lines 125-144.  [uploadProgress] and
    [downloadProgress] are the constants of the render that created the
    closure. *)
Definition triggerProgressChange (env : Env) : Hook unit :=
  match progressPrefs preferences with
  | Some p =>
      if equals (progressMode p) "upload" then
        setProgress (uploadProgress (seen env))
      else if equals (progressMode p) "download" then
        setProgress (downloadProgress (seen env))
      else
        setProgress ((uploadProgress (seen env) + downloadProgress (seen env)) / 2)%Q
  | None => ret tt
  end.

Definition url (env : Env) : string :=
  baseUrl preferences +:+ show (path (config env)).

(** [...o] inside an object literal: nothing when [o] is absent. *)
Definition spread {V} (o : option (gmap string V)) : gmap string V :=
  default ∅ o.

(** [{...a, ...b}]: the properties of [b] win. *)
Definition spreadBoth {V} (a b : option (gmap string V)) : gmap string V :=
  spread b ∪ spread a.

(** The argument of [axiosInstance.request], lines 204-233: the five
    settings the hook computes, then the raw options spread over them, then
    the cancel token and the two progress handlers. *)
Definition requestOptions (env : Env) (src : nat) : gmap string Setting :=
  let computed : gmap string Setting :=
    <["params" := Fields (spreadBoth (defaultQueryParams preferences)
                            (queryParams (config env)))]>
      (<["headers" := Fields (spreadBoth (defaultHeaders preferences)
                                (headers (config env)))]>
         (<["data" := Data (body (config env))]>
            (<["method" := Method (method (config env))]>
               (<["url" := Text (url env)]> ∅)))) in
  <["onDownloadProgress" := DownloadHandler]>
    (<["onUploadProgress" := UploadHandler]>
       (<["cancelToken" := CancelTokenOf src]>
          (spread (rawConfig (config env)) ∪ computed))).

(** The handlers the transport call is given, lines 218-232. *)
Definition onUpload (progressEvent : ProgressEvent) : Hook unit :=
  updateProgress progressEvent setUploadProgress
    (match progressPrefs preferences with
     | Some p => if onUploadProgress p
                 then Some (fun ev => emit (EvOnUploadProgress ev)) else None
     | None => None
     end).

Definition onDownload (progressEvent : ProgressEvent) : Hook unit :=
  updateProgress progressEvent setDownloadProgress
    (match progressPrefs preferences with
     | Some p => if onDownloadProgress p
                 then Some (fun ev => emit (EvOnDownloadProgress ev)) else None
     | None => None
     end).

(** [request] is an [async] function with one [await].  It is given in two
    parts: [request] runs up to the [await] (or to the end, when the cache
    answers), [resume] runs from the transport's result to the end.  The
    outer [try]/[catch]/[finally] of lines 162-292 encloses both; the part
    before the [await] throws nothing, so [settle] wraps only what
    follows it. *)

(** Lines 278-284. *)
Definition outerCatch (error : value) : Hook unit :=
  setError error;;
  when (onException preferences) (emit (EvOnException error)).

(** Lines 285-292. [progressUpdateInterval] is the render's constant. *)
Definition outerFinally (env : Env) : Hook unit :=
  setLoading false;;
  match progressUpdateInterval (seen env) with
  | Some h => clearInterval h
  | None => ret tt
  end.

Definition settle (env : Env) (body : Hook unit) : Hook unit :=
  tryFinally (tryCatch body outerCatch) (outerFinally env).

(** Lines 163-194. *)
Definition prologue (env : Env) : Hook nat :=
  logger "info" ("Making request to " +:+ url env);;
  setLoading true;;
  setError VNull;;
  setProgress 0%Q;;
  setUploadProgress 0%Q;;
  setDownloadProgress 0%Q;;
  match progressPrefs preferences with
  | Some p =>
      if truthyNum (progressInterval p) then
        match progressUpdateInterval (seen env) with
        | Some h => clearInterval h
        | None => ret tt
        end;;
        h ← setInterval (CbTick env) (orNum (progressInterval p) 100);
        setProgressUpdateInterval (Some h)
      else ret tt
  | None => ret tt
  end;;
  source ← CancelToken_source;
  setSource (Some source);;
  ret source.

(** The test of line 199. *)
Definition cacheValid (env : Env) (t : Z) : bool :=
  match ttl (config env) with
  | Some d =>
      negb (d =? 0) && truthy (cache (seen env))
      && (t <? cacheTime (seen env) + d)
  | None => false
  end.

(** Lines 234-245. *)
Definition onFulfilled (env : Env) (data : value) : Hook unit :=
  logger "info" ("Request to " +:+ url env +:+ " completed");;
  (if truthyNum (ttl (config env)) then
     setCache data;;
     t ← Date_now;
     setCacheTime t
   else ret tt);;
  setResponse data.

(** Lines 246-272, the inner [catch].  [retry preferences ≫= f] is the
    optional chaining [preferences.retry?.f]. *)
Definition onRejected (env : Env) (error : value) : Hook unit :=
  if negb (isCancel error) then
    logger "error" ("Request to " +:+ url env +:+ " failed");;
    if truthyBool (retry preferences ≫= enableRetry)
       && ltNum (retryCount (seen env))
            (orQ (retry preferences ≫= maxRetryCount) 3)
    then
      match retry preferences ≫= retryCondition with
      | Some cond =>
          if negb (cond error) then throw error
          else
            setRetryCount (retryCount (seen env) + 1);;
            _ ← setTimeout (CbRequest env)
                  (orNum (retry preferences ≫= retryInterval) 1000);
            ret tt
      | None => ret tt
      end
    else
      setRetryCount 0;;
      throw error
  else ret tt.

(** From the [await] of line 204 to the end. *)
Definition resume (env : Env) (outcome : Outcome) : Hook unit :=
  settle env
    (tryFinally
       (tryCatch
          (match outcome with
           | Resolved data => onFulfilled env data
           | Rejected reason => throw reason
           end)
          (onRejected env))
       (setSource None)).

(** [request], lines 161-293, up to its first suspension. *)
Definition request (env : Env) : Hook unit :=
  source ← prologue env;
  t ← Date_now;
  if cacheValid env t then
    settle env (let response := cache (seen env) in ret tt)
  else
    axios_request source (requestOptions env source) env.

(** Lines 296-298. *)
Definition fetch (env : Env) : Hook unit := request env.

(** Lines 301-305. *)
Definition cancel (env : Env) : Hook unit :=
  match source (seen env) with
  | Some s => source_cancel s
  | None => ret tt
  end.

(** Lines 320-327. *)
Definition stopPolling (env : Env) : Hook unit :=
  match intervalId (seen env) with
  | Some h =>
      clearInterval h;;
      setIntervalId None
  | None => ret tt
  end.

(** Lines 308-317. *)
Definition startPolling (env : Env) : Hook unit :=
  match refresh (config env) with
  | Some period =>
      if period =? 0 then ret tt
      else
        stopPolling env;;
        h ← setInterval (CbRequest env) period;
        setIntervalId (Some h)
  | None => ret tt
  end.

(** The effect of lines 330-337.  [fetch] is a new function at every
    render, so the effect is run again after each of them: first the
    cleanup the previous render returned, then the body. *)
Definition effectCleanup (previous : option Env) : Hook unit :=
  match previous with
  | Some env => stopPolling env
  | None => ret tt
  end.

Definition effect (env : Env) : Hook unit :=
  when (truthyNum (refresh (config env))) (startPolling env).

(** ** The event loop

    Everything that can happen to a mounted hook, one task at a time: the
    component renders, the consumer calls one of the functions a render
    returned, the transport reports progress or settles a call, a timer
    fires, time passes. *)

Inductive Action : Type :=
  | Render (cfg : IApiCall)
  | CallFetch (r : nat)
  | CallCancel (r : nat)
  | CallResume (r : nat)
  | CallPause (r : nat)
  | Settle (src : nat) (outcome : Outcome)
  | UploadProgress (src : nat) (ev : ProgressEvent)
  | DownloadProgress (src : nat) (ev : ProgressEvent)
  | Fire (h : positive)
  | Advance (dt : Z).

(** A timer that fires: an interval is armed again, a timeout is gone. *)
Definition rearm (h : positive) (t : Timer) (w : World) : World :=
  if recurring t then
    withTimers (insert h {| callback := callback t; delay := delay t;
                            recurring := true; due := now w + delay t |}) w
  else withTimers (delete h) w.

Definition runCallback (cb : Callback) : Hook unit :=
  match cb with
  | CbRequest env => request env
  | CbTick env => triggerProgressChange env
  end.

(** The result a suspended call is resumed with: a cancelled token makes
    the transport reject with a cancellation. *)
Definition delivered (p : Pending) (outcome : Outcome) : Outcome :=
  if cancelled p then Rejected (VCancel "canceled") else outcome.

Definition exec (a : Action) (w : World) : World :=
  match a with
  | Render cfg =>
      let env := {| seen := store w; config := cfg |} in
      after (effectCleanup (last (renders w));; effect env)
            (withRenders (fun l => (l ++ [env])%list) w)
  | CallFetch r =>
      match renders w !! r with
      | Some env => after (fetch env) w
      | None => w
      end
  | CallCancel r =>
      match renders w !! r with
      | Some env => after (cancel env) w
      | None => w
      end
  | CallResume r =>
      match renders w !! r with
      | Some env => after (startPolling env) w
      | None => w
      end
  | CallPause r =>
      match renders w !! r with
      | Some env => after (stopPolling env) w
      | None => w
      end
  | Settle src outcome =>
      match pending w !! src with
      | Some p =>
          after (resume (awaiting p) (delivered p outcome))
                (withPending (delete src) w)
      | None => w
      end
  | UploadProgress src ev =>
      match pending w !! src with
      | Some _ => after (onUpload ev) w
      | None => w
      end
  | DownloadProgress src ev =>
      match pending w !! src with
      | Some _ => after (onDownload ev) w
      | None => w
      end
  | Fire h =>
      match timers w !! h with
      | Some t =>
          if due t <=? now w then after (runCallback (callback t)) (rearm h t w)
          else w
      | None => w
      end
  | Advance dt => if 0 <=? dt then withNow (Z.add dt) w else w
  end.

Definition run (acts : list Action) (w : World) : World :=
  fold_left (fun w a => exec a w) acts w.

End hook.

(** ** Observations *)

Definition isTransport (e : Event) : bool :=
  match e with EvTransport _ _ => true | _ => false end.

Definition isOnException (e : Event) : bool :=
  match e with EvOnException _ => true | _ => false end.

(** How many times the transport has been invoked. *)
Definition transportCalls (w : World) : nat :=
  length (List.filter isTransport (trace w)).

(** The timer [h] is armed and will call [request]: a poll timer or a
    scheduled retry. *)
Definition callsRequest (w : World) (h : positive) : Prop :=
  exists t env, timers w !! h = Some t /\ callback t = CbRequest env.

(** A recurring timer that calls [request]: a poll timer. *)
Definition isPoll (t : Timer) : bool :=
  match callback t with
  | CbRequest _ => recurring t
  | CbTick _ => false
  end.

(** The handles of the poll timers that are armed. *)
Definition pollHandles (w : World) : list positive :=
  (List.filter (fun ht => isPoll (snd ht)) (map_to_list (timers w))).*1.

(** A number that is an integer. *)
Definition integral (q : Q) : Prop := exists z : Z, (q == inject_Z z)%Q.

(** A percentage: between 0 and 100. *)
Definition percentage (q : Q) : Prop := (0 <= q <= 100)%Q.

(** ** Vocabulary of the properties *)

(** What one [logger] call hands to the sink. *)
Definition logged (preferences : IClientConfig) (level message : string)
  : list Event :=
  trace (after (logger preferences level message) initialWorld).

(** The call that reaches the sink the configuration names: [logFunction]
    when given, [console.log] with the bracketed level otherwise. *)
Definition sinkCall (lg : Logging) (level message : string) : Event :=
  if logFunction lg then EvLogFunction level message
  else EvConsoleLog ("[" +:+ level +:+ "] " +:+ message).

(** The hierarchy of levels, in the words of the specification: [debug]
    logs everything, [info] logs info, warn and error, [warn] logs warn and
    error, [error] logs error only, any other value logs nothing. *)
Definition admits (configured : option string) (level : string) : Prop :=
  configured = Some "debug"
  \/ (configured = Some "info"
      /\ (level = "info" \/ level = "warn" \/ level = "error"))
  \/ (configured = Some "warn" /\ (level = "warn" \/ level = "error"))
  \/ (configured = Some "error" /\ level = "error").

(** A [logger] call reaches the sink in the world [w]: the trace gains the
    sink call, and nothing else. *)
Definition reachesSink (preferences : IClientConfig) (level message : string)
    (w : World) : Prop :=
  exists lg, logging preferences = Some lg
    /\ trace (after (logger preferences level message) w)
       = sinkCall lg level message :: trace w.


(** The limit line 256 compares [retryCount] with:
    [preferences.retry?.maxRetryCount || 3]. *)
Definition maxRetries (preferences : IClientConfig) : Q :=
  orQ (retry preferences ≫= maxRetryCount) 3.

(** The test of lines 255-256, on the [retryCount] the closure sees. *)
Definition retryAllowed (preferences : IClientConfig) (env : Env) : bool :=
  truthyBool (retry preferences ≫= enableRetry)
  && ltNum (retryCount (seen env)) (maxRetries preferences).

(** The message of the failure log of lines 249-252. *)
Definition failureLog (preferences : IClientConfig) (env : Env) : list Event :=
  logged preferences "error" ("Request to " +:+ url preferences env +:+ " failed").

(** The message of the completion log of lines 234-237. *)
Definition completionLog (preferences : IClientConfig) (env : Env) : list Event :=
  logged preferences "info" ("Request to " +:+ url preferences env +:+ " completed").

(** The progress value by mode, in the words of the specification: mode
    upload yields the upload counter, mode download the download counter,
    any other mode the arithmetic mean of the two. *)
Definition byMode (mode : option string) (up down : Q) : Q :=
  if decide (mode = Some "upload") then up
  else if decide (mode = Some "download") then down
  else ((up + down) / 2)%Q.

(** ** Sample configurations *)

Definition plainCall : IApiCall :=
  {| path := Some "/data"; method := Some "GET"; body := VUndefined;
     headers := None; queryParams := None; rawConfig := None;
     refresh := None; ttl := None |}.

Definition cachedCall : IApiCall :=
  {| path := Some "/data"; method := Some "GET"; body := VUndefined;
     headers := None; queryParams := None; rawConfig := None;
     refresh := None; ttl := Some 60000 |}.

Definition polledCall : IApiCall :=
  {| path := Some "/data"; method := Some "GET"; body := VUndefined;
     headers := None; queryParams := None; rawConfig := None;
     refresh := Some 1000; ttl := None |}.

Definition retryPrefs (limit : option Z) (cond : option (value -> bool))
  : IClientConfig :=
  {| baseUrl := "https://api.example.com"; defaultHeaders := None;
     defaultQueryParams := None; onException := true;
     logging := None;
     retry := Some {| enableRetry := Some true;
                      maxRetryCount := inject_Z <$> limit;
                      retryInterval := None; retryCondition := cond |};
     progressPrefs := None |}.

Definition plainPrefs : IClientConfig :=
  {| baseUrl := "https://api.example.com"; defaultHeaders := None;
     defaultQueryParams := None; onException := true;
     logging := None; retry := None; progressPrefs := None |}.

Definition progressBothPrefs : IClientConfig :=
  {| baseUrl := "https://api.example.com"; defaultHeaders := None;
     defaultQueryParams := None; onException := false;
     logging := None; retry := None;
     progressPrefs := Some {| progressMode := Some "both";
                              progressInterval := Some 100;
                              onUploadProgress := false;
                              onDownloadProgress := false |} |}.

Definition networkError : value := VObj "Network Error".

Definition always (b : bool) : value -> bool := fun _ => b.

(** Retry with the limit 0.5 and a condition that accepts every error. *)
Definition halfLimitPrefs : IClientConfig :=
  {| baseUrl := "https://api.example.com"; defaultHeaders := None;
     defaultQueryParams := None; onException := true;
     logging := None;
     retry := Some {| enableRetry := Some true; maxRetryCount := Some (1 # 2)%Q;
                      retryInterval := None;
                      retryCondition := Some (always true) |};
     progressPrefs := None |}.

(** ** Invariants of the event loop *)

(** The closure a timer runs. *)
Definition closureOf (cb : Callback) : Env :=
  match cb with CbRequest env | CbTick env => env end.

(** [P] holds of the live cells and of the cells every closure that can
    still run has seen: the renders, the armed timers, the suspended
    calls. *)
Definition everywhere (P : CallState -> Prop) (w : World) : Prop :=
  P (store w)
  /\ Forall (fun env => P (seen env)) (renders w)
  /\ map_Forall (fun _ t => P (seen (closureOf (callback t)))) (timers w)
  /\ map_Forall (fun _ p => P (seen (awaiting p))) (pending w).

(** A piece of hook code keeps [I]. *)
Definition preserves {A} (I : World -> Prop) (m : Hook A) : Prop :=
  forall w, I w -> I (after m w).

(** A progress event that reports no more bytes than the total. *)
Definition boundedEvent (ev : ProgressEvent) : Prop :=
  match total ev with
  | Some t => 0 <= loaded ev <= t
  | None => True
  end.

Definition actionEvents (okEvent : ProgressEvent -> Prop) (a : Action) : Prop :=
  match a with
  | UploadProgress _ ev | DownloadProgress _ ev => okEvent ev
  | _ => True
  end.

(** The retry counter is within its limit: never negative and, once
    positive, less than one above the limit in force. *)
Definition retryCountInRange (preferences : IClientConfig) (s : CallState) : Prop :=
  0 <= retryCount s
  /\ (0 < retryCount s ->
      (inject_Z (retryCount s) < maxRetries preferences + 1)%Q).

(** The configuration never makes [triggerProgressChange] take a mean:
    [progressMode] is upload or download, or no progress is configured. *)
Definition wholeMode (preferences : IClientConfig) : Prop :=
  match progressPrefs preferences with
  | Some p => progressMode p = Some "upload" \/ progressMode p = Some "download"
  | None => True
  end.

(** The progress cells are whole: the two counters always, [progress] up
    to a half, and altogether when no mean is taken. *)
Definition progressWhole (preferences : IClientConfig) (s : CallState) : Prop :=
  integral (uploadProgress s)
  /\ integral (downloadProgress s)
  /\ integral (2 * progress s)%Q
  /\ (wholeMode preferences -> integral (progress s)).

(** The progress cells: the two counters are whole percentages, [progress]
    is a percentage whose double is whole. *)
Definition progressCells (s : CallState) : Prop :=
  integral (uploadProgress s) /\ percentage (uploadProgress s)
  /\ integral (downloadProgress s) /\ percentage (downloadProgress s)
  /\ integral (2 * progress s)%Q /\ percentage (progress s).

(** A call that uploads all of its body and is answered, a render, and a
    second call whose progress timer ticks once. *)
Definition twoCallsWithProgress : list Action :=
  [Render plainCall; CallFetch 0%nat; Advance 20;
   UploadProgress 1%nat {| loaded := 100; total := Some 100 |};
   DownloadProgress 1%nat {| loaded := 1; total := Some 4 |};
   Advance 20; Settle 1%nat (Resolved (VStr "ok"));
   Render plainCall; CallFetch 1%nat; Advance 100; Fire 2%positive].

(** A download that reports more bytes than its announced total. *)
Definition overlongDownload : list Action :=
  [Render plainCall; CallFetch 0%nat; Advance 20;
   DownloadProgress 1%nat {| loaded := 300; total := Some 100 |}].

(** A call in flight, seen by the render that followed it. *)
Definition callInFlight : list Action :=
  [Render plainCall; CallFetch 0%nat; Advance 20; Render plainCall].

(** A call whose transfer reaches 40% of the upload and 60% of the
    download, each state change followed by a render, up to the moment the
    call's progress timer is due. *)
Definition callAt40And60 : list Action :=
  [Render plainCall; CallFetch 0%nat; Render plainCall; Advance 20;
   UploadProgress 1%nat {| loaded := 40; total := Some 100 |};
   Render plainCall;
   DownloadProgress 1%nat {| loaded := 60; total := Some 100 |};
   Render plainCall; Advance 80].

(** ** Further vocabulary *)

(** The period of the progress-sampling timer a request arms (lines
    177-187), when sampling is configured. *)
Definition sampling (preferences : IClientConfig) : option Z :=
  match progressPrefs preferences with
  | Some p =>
      if truthyNum (progressInterval p)
      then Some (orNum (progressInterval p) 100) else None
  | None => None
  end.

(** The cells a request resets before anything else (lines 168-174). *)
Definition resetForRequest (s : CallState) : CallState :=
  set_downloadProgress 0%Q
    (set_uploadProgress 0%Q
       (set_progress 0%Q (set_error VNull (set_loading true s)))).

(** [clearInterval] of an optional handle. *)
Definition cleared (o : option positive) (m : gmap positive Timer)
  : gmap positive Timer :=
  match o with Some h => delete h m | None => m end.

(** The nearest whole percentage of [l] bytes out of [t], halves upwards,
    in integer arithmetic. *)
Definition nearestPercent (l t : Z) : Z := (200 * l + t) / (2 * t).

(** The user callbacks of the progress configuration, as [request] passes
    them on. *)
Definition uploadCallback (preferences : IClientConfig) (ev : ProgressEvent)
  : list Event :=
  match progressPrefs preferences with
  | Some p => if onUploadProgress p then [EvOnUploadProgress ev] else []
  | None => []
  end.

Definition downloadCallback (preferences : IClientConfig) (ev : ProgressEvent)
  : list Event :=
  match progressPrefs preferences with
  | Some p => if onDownloadProgress p then [EvOnDownloadProgress ev] else []
  | None => []
  end.

(** The results of the calls made so far: the payload, the cache, the retry
    counter and the [onException] calls. *)
Definition sameResults (w0 w : World) : Prop :=
  response (store w) = response (store w0)
  /\ cache (store w) = cache (store w0)
  /\ cacheTime (store w) = cacheTime (store w0)
  /\ retryCount (store w) = retryCount (store w0)
  /\ List.filter isOnException (trace w) = List.filter isOnException (trace w0).

(** The state of the call in progress: [loading], [error], [source], the
    calls in flight and the transport invocations. *)
Definition sameCallState (w0 w : World) : Prop :=
  loading (store w) = loading (store w0)
  /\ error (store w) = error (store w0)
  /\ source (store w) = source (store w0)
  /\ dom (pending w) = dom (pending w0)
  /\ transportCalls w = transportCalls w0.

(** The actions that run [request] or resume it. *)
Definition runsRequest (a : Action) : bool :=
  match a with
  | CallFetch _ | Fire _ | Settle _ _ => true
  | _ => false
  end.

Definition isSettle (a : Action) : bool :=
  match a with Settle _ _ => true | _ => false end.

(** The handle [h] names an armed poll timer. *)
Definition pollAt (w : World) (h : positive) : Prop :=
  exists t, timers w !! h = Some t /\ isPoll t = true.

(** Every poll timer of [w] was one of [w0] already. *)
Definition noNewPolls (w0 w : World) : Prop :=
  forall h, pollAt w h -> pollAt w0 h.

(** Polling is as it was: no new poll timer, the same [intervalId], the same
    renders. *)
Definition pollingUntouched (w0 w : World) : Prop :=
  noNewPolls w0 w
  /\ intervalId (store w) = intervalId (store w0)
  /\ renders w = renders w0.

(** The consumer's own calls of [polling.resume()] and [polling.pause()]. *)
Definition consumerPolls (a : Action) : bool :=
  match a with CallResume _ | CallPause _ => true | _ => false end.

(** The actions that can arm or clear a poll timer. *)
Definition touchesPolling (a : Action) : bool :=
  match a with Render _ | CallResume _ | CallPause _ => true | _ => false end.

(** Every poll timer is the one [intervalId] names, live or as the latest
    render saw it, and there is at most one. *)
Definition onePoll (w : World) : Prop :=
  (forall h, pollAt w h ->
     intervalId (store w) = Some h
     \/ exists env, last (renders w) = Some env
                    /\ intervalId (seen env) = Some h)
  /\ (forall h h', pollAt w h -> pollAt w h' -> h = h').

(** The renders so far were all made without [refresh]. *)
Definition neverPolled (w : World) : Prop :=
  (forall h, ~ pollAt w h)
  /\ Forall (fun env => truthyNum (refresh (config env)) = false) (renders w).

Definition rendersWithoutRefresh (a : Action) : Prop :=
  match a with
  | Render cfg => truthyNum (refresh cfg) = false
  | _ => True
  end.

(** The poll timer handle the previous render saw, which the effect's
    cleanup clears. *)
Definition previousId (w : World) : option positive :=
  match last (renders w) with
  | Some env => intervalId (seen env)
  | None => None
  end.

(** The period a render with configuration [cfg] polls with, if it polls. *)
Definition polls (cfg : IApiCall) : option Z :=
  match refresh cfg with
  | Some period => if period =? 0 then None else Some period
  | None => None
  end.

(** No poll timer is armed, none was ever stored, and no render so far
    asked for polling. *)
Definition pollingOff (w : World) : Prop :=
  neverPolled w
  /\ intervalId (store w) = None
  /\ Forall (fun env => intervalId (seen env) = None) (renders w).

(** ** The options handed to the transport (lines 204-233) *)

(** The settings only the hook decides. *)
Definition reserved (k : string) : bool :=
  String.eqb k "cancelToken" || String.eqb k "onUploadProgress"
  || String.eqb k "onDownloadProgress".

(** ** The calls the hook makes to the outside *)

(** Every closure that can still run, the callback of an armed timer or
    the continuation of a call in flight, is the closure of a render made
    so far. *)
Definition closuresRendered (w : World) : Prop :=
  map_Forall (fun _ t => closureOf (callback t) ∈ renders w) (timers w)
  /\ map_Forall (fun _ p => awaiting p ∈ renders w) (pending w).

(** The three lines [request] logs (lines 163-166, 234-237, 249-252), with
    their levels, for the URL of one of the renders [rs]. *)
Definition hookMessage (preferences : IClientConfig) (rs : list Env)
    (level message : string) : Prop :=
  exists env, env ∈ rs
    /\ ((level = "info"
         /\ message = "Making request to " +:+ url preferences env)
        \/ (level = "info"
            /\ message = "Request to " +:+ url preferences env +:+ " completed")
        \/ (level = "error"
            /\ message = "Request to " +:+ url preferences env +:+ " failed")).

(** An outgoing call is one the configuration asks for: a log line goes to
    the configured sink, with logging enabled and at a level the configured
    level admits; [onException] and the progress callbacks are called only
    when given; the transport is called with the options lines 204-233
    build for one of the renders [rs] and the cancel source of the call. *)
Definition asConfigured (preferences : IClientConfig) (rs : list Env)
    (ev : Event) : Prop :=
  match ev with
  | EvLogFunction level message =>
      exists lg, logging preferences = Some lg
        /\ enableLogging lg = Some true
        /\ logFunction lg = true
        /\ admits (logLevel lg) level
        /\ hookMessage preferences rs level message
  | EvConsoleLog line =>
      exists lg level message, logging preferences = Some lg
        /\ enableLogging lg = Some true
        /\ logFunction lg = false
        /\ admits (logLevel lg) level
        /\ hookMessage preferences rs level message
        /\ line = "[" +:+ level +:+ "] " +:+ message
  | EvTransport src options =>
      exists env, env ∈ rs /\ options = requestOptions preferences env src
  | EvOnException _ => onException preferences = true
  | EvOnUploadProgress _ =>
      exists p, progressPrefs preferences = Some p /\ onUploadProgress p = true
  | EvOnDownloadProgress _ =>
      exists p, progressPrefs preferences = Some p /\ onDownloadProgress p = true
  end.

Definition outgoingAsConfigured (preferences : IClientConfig) (w : World)
  : Prop :=
  closuresRendered w
  /\ Forall (asConfigured preferences (renders w)) (trace w).

(** The same, seen from the closure [env] of one of the renders. *)
Definition outgoingFor (preferences : IClientConfig) (env : Env) (w : World)
  : Prop :=
  env ∈ renders w /\ outgoingAsConfigured preferences w.

(** ** Timer handles *)

(** A timer that samples the progress. *)
Definition isTick (t : Timer) : bool :=
  match callback t with CbTick _ => true | CbRequest _ => false end.

(** The handle [h] names an armed progress-sampling timer of the closure
    [env], with period [d]. *)
Definition tickAt (w : World) (h : positive) (env : Env) (d : Z) : Prop :=
  exists t, timers w !! h = Some t
    /\ callback t = CbTick env /\ delay t = d /\ recurring t = true.

(** A handle kept in [intervalId] has been handed out already and names no
    progress-sampling timer. *)
Definition handleOk (w : World) (o : option positive) : Prop :=
  forall h, o = Some h ->
    (h < nextTimer w)%positive
    /\ forall t, timers w !! h = Some t -> isTick t = false.

(** The armed handles have been handed out already, and so have the
    handles in [intervalId], live or as a render saw it, none of which
    names a progress-sampling timer. *)
Definition handlesOk (w : World) : Prop :=
  map_Forall (fun h _ => (h < nextTimer w)%positive) (timers w)
  /\ handleOk w (intervalId (store w))
  /\ Forall (fun env => handleOk w (intervalId (seen env))) (renders w).

(** The action [a] starts, or resumes, [request] of the closure [env]:
    [fetch()] through its render, a poll or retry timer of it that fires,
    the completion of a call it made. *)
Definition requestThrough (w : World) (a : Action) (env : Env) : Prop :=
  match a with
  | CallFetch r => renders w !! r = Some env
  | Fire h =>
      exists t, timers w !! h = Some t
        /\ callback t = CbRequest env /\ due t <= now w
  | Settle src _ =>
      exists p, pending w !! src = Some p /\ awaiting p = env
  | _ => False
  end.

(** ** Sample runs *)

(** The first render of a call, before anything was fetched. *)
Definition firstRender (preferences : IClientConfig) (cfg : IApiCall) : World :=
  run preferences [Render cfg] initialWorld.

(** The closure of a first render. *)
Definition firstEnv (cfg : IApiCall) : Env :=
  {| seen := initialState; config := cfg |}.

(** A first call in flight, [dt] after it was made. *)
Definition firstCall (preferences : IClientConfig) (cfg : IApiCall) (dt : Z)
  : World :=
  run preferences [Render cfg; CallFetch 0%nat; Advance dt] initialWorld.

(** A cached call that was answered, and the render that followed. *)
Definition answeredCall : list Action :=
  [Render cachedCall; CallFetch 0%nat; Advance 20;
   Settle 1%nat (Resolved (VStr "ok")); Render cachedCall].

(** A polling component that fetches and is rendered again. *)
Definition polledTwice : list Action :=
  [Render polledCall; CallFetch 0%nat; Render polledCall].

(** A component without [refresh] whose consumer resumes polling. *)
Definition resumedWithoutRefresh : list Action :=
  [Render plainCall; CallResume 0%nat; CallFetch 0%nat].

(** A call whose raw transport options carry a url of their own. *)
Definition rawUrlCall : IApiCall :=
  {| path := Some "/data"; method := Some "GET"; body := VUndefined;
     headers := None; queryParams := None;
     rawConfig := Some {[ "url" := Text "/other" ]};
     refresh := None; ttl := None |}.

(** A call with progress sampling that was answered. *)
Definition sampledCall : list Action :=
  [Render plainCall; CallFetch 0%nat; Settle 1%nat (Resolved (VStr "ok"))].
(** * Properties *)

(** Unfolding the monad and the setters down to world transformers. *)
Ltac unfold_monad :=
  unfold after, tryFinally, tryCatch, when, emit, mbind, Hook_bind, bind,
    mret, Hook_ret, ret, throw, modify in *.

Ltac unfold_setters :=
  unfold setResponse, setLoading, setError, setSource, setCache, setCacheTime,
    setIntervalId, setUploadProgress, setDownloadProgress, setProgress,
    setProgressUpdateInterval, setRetryCount, clearInterval, setInterval,
    setTimeout, armTimer, Date_now, CancelToken_source in *.

Ltac hook_cbn := unfold_setters; unfold_monad; cbn.

(** A freshly mounted hook: no response, not loading, no error, progress 0
    (the repository's own test checks the first three). *)
Lemma initial_cells :
  response initialState = VNull
  /\ loading initialState = false
  /\ error initialState = VNull
  /\ progress initialState = 0%Q.
Proof. by repeat split. Qed.

(** ** The logger *)

Lemma withTrace_nil (w : World) : withTrace (app []) w = w.
Proof. by destruct w. Qed.

Lemma logger_run (preferences : IClientConfig) (level message : string) (w : World) :
  logger preferences level message w
  = (Ok tt, withTrace (app (logged preferences level message)) w).
Proof.
  unfold logged, logger.
  destruct (logging preferences) as [lg|]; cbn; [|by rewrite withTrace_nil].
  destruct (negb (truthyBool (enableLogging lg))); cbn; [by rewrite withTrace_nil|].
  match goal with |- context [negb ?b] => destruct b end; cbn;
    [|by rewrite withTrace_nil].
  by destruct (logFunction lg).
Qed.

Lemma logged_cases (preferences : IClientConfig) (level message : string) :
  logged preferences level message = []
  \/ exists lg, logging preferences = Some lg
       /\ logged preferences level message = [sinkCall lg level message].
Proof.
  unfold logged, logger, sinkCall.
  destruct (logging preferences) as [lg|]; cbn; [|by left].
  destruct (negb (truthyBool (enableLogging lg))); cbn; [by left|].
  match goal with |- context [negb ?b] => destruct b end; cbn; [|by left].
  right. exists lg. split; [done|]. by destruct (logFunction lg).
Qed.

Lemma equals_Some (o : option string) (s : string) :
  equals o s = true <-> o = Some s.
Proof.
  destruct o as [x|]; cbn; [|split; congruence].
  rewrite String.eqb_eq. split; congruence.
Qed.

Lemma equals_None (o : option string) (s : string) :
  equals o s = false <-> o <> Some s.
Proof.
  rewrite <- equals_Some. destruct (equals o s); split; congruence.
Qed.

(** The filter of [logger] decides exactly [admits]. *)
Lemma logged_admits (preferences : IClientConfig) (lg : Logging)
    (level message : string) :
  logging preferences = Some lg ->
  (logged preferences level message = [sinkCall lg level message]
   <-> enableLogging lg = Some true /\ admits (logLevel lg) level)
  /\ (logged preferences level message = []
      \/ logged preferences level message = [sinkCall lg level message]).
Proof.
  intros Hlg. unfold logged, logger, sinkCall, admits. rewrite Hlg.
  destruct (enableLogging lg) as [[|]|]; cbn;
    try (split; [split; [discriminate|intros [? _]; discriminate]|by left]).
  destruct (equals (logLevel lg) "debug") eqn:Hd.
  { cbn. apply equals_Some in Hd.
    split; [|right; by destruct (logFunction lg)].
    split; [auto|]. intros _. by destruct (logFunction lg). }
  apply equals_None in Hd.
  destruct (equals (logLevel lg) "info") eqn:Hi.
  { apply equals_Some in Hi.
    destruct (String.eqb level "info" || String.eqb level "warn"
              || String.eqb level "error") eqn:Hl; cbn.
    - split; [|right; by destruct (logFunction lg)].
      split; [|intros _; by destruct (logFunction lg)].
      intros _. split; [done|]. right; left. split; [done|].
      rewrite !orb_true_iff, !String.eqb_eq in Hl. tauto.
    - split; [|by left]. split; [discriminate|].
      intros [_ [H|[[_ H]|[[H _]|[H _]]]]]; try congruence.
      rewrite !orb_false_iff, !String.eqb_neq in Hl. tauto. }
  apply equals_None in Hi.
  destruct (equals (logLevel lg) "warn") eqn:Hw.
  { apply equals_Some in Hw.
    destruct (String.eqb level "warn" || String.eqb level "error") eqn:Hl; cbn.
    - split; [|right; by destruct (logFunction lg)].
      split; [|intros _; by destruct (logFunction lg)].
      intros _. split; [done|]. right; right; left. split; [done|].
      rewrite !orb_true_iff, !String.eqb_eq in Hl. tauto.
    - split; [|by left]. split; [discriminate|].
      intros [_ [H|[[H _]|[[_ H]|[H _]]]]]; try congruence.
      rewrite !orb_false_iff, !String.eqb_neq in Hl. tauto. }
  apply equals_None in Hw.
  destruct (equals (logLevel lg) "error") eqn:He.
  { apply equals_Some in He.
    destruct (String.eqb level "error") eqn:Hl; cbn.
    - split; [|right; by destruct (logFunction lg)].
      split; [|intros _; by destruct (logFunction lg)].
      intros _. split; [done|]. right; right; right. split; [done|].
      by apply String.eqb_eq.
    - split; [|by left]. split; [discriminate|].
      intros [_ [H|[[H _]|[[H _]|[_ H]]]]]; try congruence.
      by apply String.eqb_neq in Hl. }
  apply equals_None in He. cbn.
  split; [|by left]. split; [discriminate|].
  intros [_ [H|[[H _]|[[H _]|[H _]]]]]; congruence.
Qed.

Lemma logger_after (preferences : IClientConfig) (level message : string)
    (w : World) :
  after (logger preferences level message) w
  = withTrace (app (logged preferences level message)) w.
Proof. unfold after. by rewrite logger_run. Qed.

Lemma cons_neq_self {A} (x : A) (l : list A) : l <> x :: l.
Proof. intros H. apply (f_equal length) in H. cbn in H. lia. Qed.

Lemma reachesSink_logged (preferences : IClientConfig) (level message : string)
    (w : World) (lg : Logging) :
  logging preferences = Some lg ->
  reachesSink preferences level message w
  <-> logged preferences level message = [sinkCall lg level message].
Proof.
  intros Hlg. unfold reachesSink. rewrite logger_after. cbn. split.
  - intros (lg' & Hlg' & Ht). assert (lg' = lg) as -> by congruence.
    destruct (logged_admits preferences lg level message Hlg) as [_ [E|E]];
      rewrite E in *; [|done].
    cbn in Ht. by apply cons_neq_self in Ht.
  - intros E. exists lg. by rewrite E.
Qed.

(** C9. [logger level message] reaches the sink if and only if logging is
    enabled and the configured level admits [level] under the hierarchy
    debug > info > warn > error (any other configured level admits
    nothing); a call that does not reach the sink changes nothing; and a
    logger configured at level warn drops info messages and passes warn and
    error messages. *)
Theorem logger_reaches_sink_iff_admitted (preferences : IClientConfig)
    (level message : string) (w : World) :
  (reachesSink preferences level message w
   <-> exists lg, logging preferences = Some lg
         /\ enableLogging lg = Some true /\ admits (logLevel lg) level)
  /\ (~ reachesSink preferences level message w
      -> after (logger preferences level message) w = w)
  /\ (forall lg, logging preferences = Some lg ->
        enableLogging lg = Some true -> logLevel lg = Some "warn" ->
        ~ reachesSink preferences "info" message w
        /\ reachesSink preferences "warn" message w
        /\ reachesSink preferences "error" message w).
Proof.
  split; [|split].
  - split.
    + intros H. pose proof H as (lg & Hlg & _). exists lg. split; [done|].
      apply (reachesSink_logged _ _ _ _ _ Hlg) in H.
      by apply (logged_admits preferences lg level message Hlg).
    + intros (lg & Hlg & Hen & Had).
      apply (reachesSink_logged _ _ _ _ _ Hlg).
      by apply (logged_admits preferences lg level message Hlg).
  - intros Hn. rewrite logger_after.
    destruct (logged_cases preferences level message) as [E|(lg & Hlg & E)].
    + rewrite E. apply withTrace_nil.
    + exfalso. apply Hn. by apply (reachesSink_logged _ _ _ _ _ Hlg).
  - intros lg Hlg Hen Hw.
    rewrite !(reachesSink_logged _ _ _ _ _ Hlg).
    pose proof (logged_admits preferences lg "info" message Hlg) as [Hi _].
    pose proof (logged_admits preferences lg "warn" message Hlg) as [Hwn _].
    pose proof (logged_admits preferences lg "error" message Hlg) as [He _].
    unfold admits in *. rewrite Hw in *. split; [|split].
    + rewrite Hi. intros [_ [H|[[H _]|[[_ [H|H]]|[H _]]]]]; discriminate.
    + apply Hwn. split; [done|]. right; right; left. auto.
    + apply He. split; [done|]. right; right; left. auto.
Qed.

(** ** Cancelling with nothing in flight *)

(** C10. When the render's [source] is null, [cancel()] leaves the whole
    world as it was: no state cell, no timer, no pending call and no
    outgoing call changes, and nothing is thrown. *)
Theorem cancel_without_source_is_noop (preferences : IClientConfig)
    (w : World) (r : nat) (env : Env) :
  renders w !! r = Some env ->
  source (seen env) = None ->
  cancel env w = (Ok tt, w)
  /\ exec preferences (CallCancel r) w = w.
Proof.
  intros Hr Hs. unfold exec, cancel, after. rewrite Hr, Hs. by cbn.
Qed.

(** ** Cancelling a request in flight *)

(** What the consumer's [cancel()] does when the render's [source] is the
    token of a call in flight: the token is cancelled, nothing else. *)
Lemma cancel_marks (w : World) (env : Env) (src : nat) (p : Pending) :
  source (seen env) = Some src ->
  pending w !! src = Some p ->
  after (cancel env) w
  = withPending (insert src {| awaiting := awaiting p; cancelled := true |}) w.
Proof.
  intros Hs Hp. unfold cancel, source_cancel, withPending. hook_cbn.
  rewrite Hs. cbn. by rewrite Hp.
Qed.

(** A suspended call resumed with a cancellation: [loading] is cleared,
    [source] is reset, the render's progress timer is cleared, and that is
    all. *)
Lemma resume_cancellation (preferences : IClientConfig) (env : Env)
    (message : string) (w : World) :
  after (resume preferences env (Rejected (VCancel message))) w
  = after (outerFinally env) (withStore (set_source None) w).
Proof.
  unfold resume, settle, outerFinally, onRejected. hook_cbn.
  by destruct (progressUpdateInterval (seen env)).
Qed.

Lemma outerFinally_store (env : Env) (w : World) :
  store (after (outerFinally env) w) = set_loading false (store w).
Proof.
  unfold outerFinally. hook_cbn.
  by destruct (progressUpdateInterval (seen env)).
Qed.

Lemma outerFinally_trace (env : Env) (w : World) :
  trace (after (outerFinally env) w) = trace w.
Proof.
  unfold outerFinally. hook_cbn.
  by destruct (progressUpdateInterval (seen env)).
Qed.

Lemma outerFinally_pending (env : Env) (w : World) :
  pending (after (outerFinally env) w) = pending w.
Proof.
  unfold outerFinally. hook_cbn.
  by destruct (progressUpdateInterval (seen env)).
Qed.

Lemma outerFinally_timers (env : Env) (w : World) (h : positive) (t : Timer) :
  timers (after (outerFinally env) w) !! h = Some t ->
  timers w !! h = Some t.
Proof.
  unfold outerFinally. hook_cbn.
  destruct (progressUpdateInterval (seen env)) as [h'|]; cbn; [|done].
  rewrite lookup_delete. by case_decide.
Qed.

(** When [cancel()] does reach the call: called through a render whose
    [source] is the token of the pending call, it only cancels that token;
    however the transport then answers, the call settles as a
    cancellation, after which [loading] is false, [error] is what it was
    (null if it was null), no timer has been armed (so no retry is
    scheduled) and nothing has been sent out, in particular no
    [onException] call. *)
Lemma cancel_in_flight (preferences : IClientConfig) (w : World) (r : nat)
    (env : Env) (src : nat) (p : Pending) (outcome : Outcome) :
  renders w !! r = Some env ->
  source (seen env) = Some src ->
  pending w !! src = Some p ->
  let w1 := exec preferences (CallCancel r) w in
  let w2 := exec preferences (Settle src outcome) w1 in
  store w1 = store w
  /\ loading (store w2) = false
  /\ error (store w2) = error (store w)
  /\ (error (store w) = VNull -> error (store w2) = VNull)
  /\ (forall h t, timers w2 !! h = Some t -> timers w !! h = Some t)
  /\ trace w2 = trace w
  /\ List.filter isOnException (trace w2) = List.filter isOnException (trace w)
  /\ retryCount (store w2) = retryCount (store w)
  /\ pending w2 !! src = None.
Proof.
  intros Hr Hs Hp w1 w2.
  assert (Hw1 : w1 = withPending
            (insert src {| awaiting := awaiting p; cancelled := true |}) w).
  { subst w1. unfold exec. rewrite Hr. by apply cancel_marks. }
  assert (Hw2 : w2 = after (outerFinally (awaiting p))
            (withStore (set_source None) (withPending (delete src) w1))).
  { subst w2. unfold exec. rewrite Hw1 at 1. cbn [pending withPending].
    rewrite lookup_insert_eq. unfold delivered. cbn [cancelled awaiting].
    apply resume_cancellation. }
  assert (He : error (store w2) = error (store w)).
  { rewrite Hw2, outerFinally_store, Hw1. done. }
  repeat split.
  - by rewrite Hw1.
  - by rewrite Hw2, outerFinally_store.
  - done.
  - intros H0. by rewrite He.
  - intros h t. rewrite Hw2. intros H. apply outerFinally_timers in H.
    by rewrite Hw1 in H.
  - rewrite Hw2, outerFinally_trace, Hw1. done.
  - rewrite Hw2, outerFinally_trace, Hw1. done.
  - rewrite Hw2, outerFinally_store, Hw1. done.
  - rewrite Hw2, outerFinally_pending, Hw1. cbn. apply lookup_delete_eq.
Qed.

(** [source] is a constant of the render: the [cancel] a render returns
    cancels the source that render saw, not the one a [fetch()] has stored
    since.  A call made through a render is out of the reach of that
    render's own [cancel]. *)
Lemma cancel_reaches_only_seen_source (w : World) (env : Env) (src : nat) :
  source (seen env) <> Some src ->
  pending (after (cancel env) w) !! src = pending w !! src.
Proof.
  intros Hs. unfold cancel, source_cancel. hook_cbn.
  destruct (source (seen env)) as [s|]; [|done]. cbn.
  destruct (pending w !! s); [|done].
  apply lookup_insert_ne. congruence.
Qed.

(** ** Running [request] *)

#[local] Arguments logger : simpl never.

(** The part of [request] before the cache test: a fresh source, a world
    that differs from the old one in the cells the prologue resets, in the
    log and in the render's progress timer. *)
Lemma prologue_run (preferences : IClientConfig) (env : Env) (w : World) :
  exists w',
    prologue preferences env w = (Ok (nextSource w), w')
    /\ now w' = now w
    /\ pending w' = pending w
    /\ renders w' = renders w
    /\ nextSource w' = S (nextSource w)
    /\ trace w'
       = (logged preferences "info" ("Making request to " +:+ url preferences env)
          ++ trace w)%list
    /\ (forall h t, timers w' !! h = Some t ->
          timers w !! h = Some t \/ callback t = CbTick env)
    /\ loading (store w') = true
    /\ error (store w') = VNull
    /\ source (store w') = Some (nextSource w)
    /\ response (store w') = response (store w)
    /\ cache (store w') = cache (store w)
    /\ cacheTime (store w') = cacheTime (store w)
    /\ intervalId (store w') = intervalId (store w)
    /\ retryCount (store w') = retryCount (store w).
Proof.
  unfold prologue. hook_cbn. rewrite logger_run. cbn.
  destruct (progressPrefs preferences) as [p|]; cbn.
  - destruct (truthyNum (progressInterval p)); cbn.
    + destruct (progressUpdateInterval (seen env)) as [h0|]; cbn;
        (eexists; split; [reflexivity|]); cbn; repeat split; try done;
        intros h t; rewrite lookup_insert; case_decide;
        try rewrite lookup_delete; try case_decide;
        intros; simplify_eq; auto.
    + eexists; split; [reflexivity|]; cbn; repeat split; auto.
  - eexists; split; [reflexivity|]; cbn; repeat split; auto.
Qed.

(** [request] on a cache miss hands the call to the transport and suspends. *)
Lemma request_miss (preferences : IClientConfig) (env : Env) (w : World) :
  cacheValid env (now w) = false ->
  exists w',
    prologue preferences env w = (Ok (nextSource w), w')
    /\ after (request preferences env) w
       = withPending (insert (nextSource w)
                        {| awaiting := env; cancelled := false |})
           (withTrace (cons (EvTransport (nextSource w)
                                 (requestOptions preferences env (nextSource w)))) w').
Proof.
  intros Hmiss.
  destruct (prologue_run preferences env w) as (w' & Hp & Hnow & _).
  exists w'. split; [done|].
  unfold request, axios_request. hook_cbn. rewrite Hp. cbn.
  by rewrite Hnow, Hmiss.
Qed.

(** [request] on a cache hit never reaches the transport, and the only
    cells it writes are the ones the prologue and the final block write:
    [response] is not among them. *)
Lemma request_hit (preferences : IClientConfig) (env : Env) (w : World) :
  cacheValid env (now w) = true ->
  exists w',
    prologue preferences env w = (Ok (nextSource w), w')
    /\ after (request preferences env) w = after (outerFinally env) w'.
Proof.
  intros Hhit.
  destruct (prologue_run preferences env w) as (w' & Hp & Hnow & _).
  exists w'. split; [done|].
  unfold request, settle, outerFinally. hook_cbn. rewrite Hp. cbn.
  rewrite Hnow, Hhit. cbn.
  by destruct (progressUpdateInterval (seen env)).
Qed.

Lemma logged_no_transport (preferences : IClientConfig) (level message : string) :
  List.filter isTransport (logged preferences level message) = [].
Proof.
  destruct (logged_cases preferences level message) as [->|(lg & _ & ->)];
    [done|].
  unfold sinkCall. by destruct (logFunction lg).
Qed.

Lemma logged_no_onException (preferences : IClientConfig) (level message : string) :
  List.filter isOnException (logged preferences level message) = [].
Proof.
  destruct (logged_cases preferences level message) as [->|(lg & _ & ->)];
    [done|].
  unfold sinkCall. by destruct (logFunction lg).
Qed.

(** ** Resuming a suspended [request]

    One equation for each way the code after the [await] can go. *)

Lemma resume_resolved (preferences : IClientConfig) (env : Env) (data : value)
    (w : World) :
  after (resume preferences env (Resolved data)) w
  = after (outerFinally env)
      (withStore (set_source None)
         (withStore (set_response data)
            ((if truthyNum (ttl (config env))
              then fun w0 => withStore (set_cacheTime (now w0))
                               (withStore (set_cache data) w0)
              else fun w0 => w0)
               (withTrace (app (completionLog preferences env)) w)))).
Proof.
  unfold resume, settle, outerFinally, onFulfilled, completionLog. hook_cbn.
  rewrite logger_run. cbn.
  destruct (truthyNum (ttl (config env))); cbn;
    by destruct (progressUpdateInterval (seen env)).
Qed.

(** Retry disabled or retries exhausted: [retryCount] is reset and the
    error goes to the outer [catch]. *)
Lemma resume_gives_up (preferences : IClientConfig) (env : Env) (e : value)
    (w : World) :
  isCancel e = false ->
  retryAllowed preferences env = false ->
  after (resume preferences env (Rejected e)) w
  = after (outerFinally env)
      (after (outerCatch preferences e)
         (withStore (set_source None)
            (withStore (set_retryCount 0)
               (withTrace (app (failureLog preferences env)) w)))).
Proof.
  unfold retryAllowed, maxRetries. intros Hc Hr.
  unfold resume, settle, outerFinally, outerCatch, onRejected, failureLog.
  hook_cbn. rewrite Hc. cbn. rewrite logger_run. cbn. rewrite Hr. cbn.
  destruct (onException preferences); cbn;
    by destruct (progressUpdateInterval (seen env)).
Qed.

(** [retryCondition] says no: the error goes to the outer [catch] at once. *)
Lemma resume_declined (preferences : IClientConfig) (env : Env) (e : value)
    (cond : value -> bool) (w : World) :
  isCancel e = false ->
  retryAllowed preferences env = true ->
  retry preferences ≫= retryCondition = Some cond ->
  cond e = false ->
  after (resume preferences env (Rejected e)) w
  = after (outerFinally env)
      (after (outerCatch preferences e)
         (withStore (set_source None)
            (withTrace (app (failureLog preferences env)) w))).
Proof.
  unfold retryAllowed, maxRetries. intros Hc Hr Hcond He.
  unfold resume, settle, outerFinally, outerCatch, onRejected, failureLog.
  hook_cbn. rewrite Hc. cbn. rewrite logger_run. cbn. rewrite Hr, Hcond. cbn.
  rewrite He. cbn.
  destruct (onException preferences); cbn;
    by destruct (progressUpdateInterval (seen env)).
Qed.

(** [retryCondition] says yes: [retryCount] becomes the closure's count
    plus one and the same closure is scheduled again. *)
Lemma resume_retries (preferences : IClientConfig) (env : Env) (e : value)
    (cond : value -> bool) (w : World) :
  isCancel e = false ->
  retryAllowed preferences env = true ->
  retry preferences ≫= retryCondition = Some cond ->
  cond e = true ->
  after (resume preferences env (Rejected e)) w
  = after (outerFinally env)
      (withStore (set_source None)
         (after (setTimeout (CbRequest env)
                   (orNum (retry preferences ≫= retryInterval) 1000))
            (withStore (set_retryCount (retryCount (seen env) + 1))
               (withTrace (app (failureLog preferences env)) w)))).
Proof.
  unfold retryAllowed, maxRetries. intros Hc Hr Hcond He.
  unfold resume, settle, outerFinally, outerCatch, onRejected, failureLog.
  hook_cbn. rewrite Hc. cbn. rewrite logger_run. cbn. rewrite Hr, Hcond. cbn.
  rewrite He. cbn.
  by destruct (progressUpdateInterval (seen env)).
Qed.

(** No [retryCondition] configured: the inner [catch] falls through; the
    error is neither rethrown nor retried. *)
Lemma resume_falls_through (preferences : IClientConfig) (env : Env) (e : value)
    (w : World) :
  isCancel e = false ->
  retryAllowed preferences env = true ->
  retry preferences ≫= retryCondition = None ->
  after (resume preferences env (Rejected e)) w
  = after (outerFinally env)
      (withStore (set_source None)
         (withTrace (app (failureLog preferences env)) w)).
Proof.
  unfold retryAllowed, maxRetries. intros Hc Hr Hcond.
  unfold resume, settle, outerFinally, outerCatch, onRejected, failureLog.
  hook_cbn. rewrite Hc. cbn. rewrite logger_run. cbn. rewrite Hr, Hcond. cbn.
  by destruct (progressUpdateInterval (seen env)).
Qed.

Lemma outerCatch_run (preferences : IClientConfig) (e : value) (w : World) :
  after (outerCatch preferences e) w
  = withTrace (app (if onException preferences then [EvOnException e] else []))
      (withStore (set_error e) w).
Proof.
  unfold outerCatch. hook_cbn. destruct (onException preferences); cbn; [done|].
  by destruct w.
Qed.

(** ** A retry condition that declines *)

(** C5. With retry enabled and a [retryCondition] that returns false for the
    error, a [fetch()] that reaches the transport and fails with that error
    invokes the transport exactly once, arms no timer that would call
    [request] again, stores the error in [error], clears [loading], and
    calls [onException] with the error exactly when one is configured. *)
Theorem declined_retry_surfaces_error (preferences : IClientConfig) (w : World)
    (r : nat) (env : Env) (cond : value -> bool) (e : value) :
  truthyBool (retry preferences ≫= enableRetry) = true ->
  retry preferences ≫= retryCondition = Some cond ->
  cond e = false ->
  isCancel e = false ->
  renders w !! r = Some env ->
  cacheValid env (now w) = false ->
  let src := nextSource w in
  let w1 := exec preferences (CallFetch r) w in
  let w2 := exec preferences (Settle src (Rejected e)) w1 in
  transportCalls w1 = S (transportCalls w)
  /\ pending w1 !! src = Some {| awaiting := env; cancelled := false |}
  /\ transportCalls w2 = S (transportCalls w)
  /\ (forall h, callsRequest w2 h -> callsRequest w h)
  /\ error (store w2) = e
  /\ loading (store w2) = false
  /\ List.filter isOnException (trace w2)
     = ((if onException preferences then [EvOnException e] else [])
        ++ List.filter isOnException (trace w))%list
  /\ pending w2 !! src = None.
Proof.
  intros Hen Hcond He Hc Hr Hmiss src w1 w2.
  destruct (request_miss preferences env w Hmiss) as (w' & Hp & Hreq).
  destruct (prologue_run preferences env w)
    as (w'' & Hp' & _ & Hpend & _ & _ & Htr & Htim & _).
  assert (w'' = w') as -> by congruence. clear Hp'.
  assert (Hw1 : w1 = withPending
            (insert src {| awaiting := env; cancelled := false |})
            (withTrace (cons (EvTransport src (requestOptions preferences env src))) w')).
  { subst w1. unfold exec, fetch. by rewrite Hr. }
  clearbody w1. subst w1.
  set (w1 := withPending _ _) in *.
  set (base := withPending (delete src) w1).
  assert (Hbase_tr : trace base
            = EvTransport src (requestOptions preferences env src) :: trace w') by done.
  assert (Hbase_tim : timers base = timers w') by done.
  assert (Hw2 : exists f : CallState -> CallState,
            (forall s, error (f s) = error s) /\
            w2 = after (outerFinally env)
                   (after (outerCatch preferences e)
                      (withStore (set_source None)
                         (withStore f
                            (withTrace (app (failureLog preferences env)) base))))).
  { subst w2. unfold exec. subst w1. cbn [pending withPending withTrace].
    rewrite lookup_insert_eq. unfold delivered. cbn [cancelled awaiting].
    fold base.
    destruct (retryAllowed preferences env) eqn:Hal.
    - exists (fun s => s). split; [done|].
      rewrite (resume_declined preferences env e cond base Hc Hal Hcond He).
      reflexivity.
    - exists (set_retryCount 0). split; [done|].
      by rewrite (resume_gives_up preferences env e base Hc Hal). }
  destruct Hw2 as (f & Hf & Hw2).
  assert (Htr2 : trace w2
            = ((if onException preferences then [EvOnException e] else [])
               ++ failureLog preferences env
               ++ EvTransport src (requestOptions preferences env src) :: trace w')%list).
  { rewrite Hw2, outerFinally_trace, outerCatch_run. done. }
  split; [|split; [|split; [|split; [|split; [|split; [|split]]]]]].
  - unfold transportCalls. cbn. rewrite Htr.
    by rewrite List.filter_app, logged_no_transport.
  - cbn. apply lookup_insert_eq.
  - unfold transportCalls. rewrite Htr2, Htr.
    unfold failureLog. destruct (onException preferences); cbn;
      by rewrite !List.filter_app, !logged_no_transport; cbn;
         rewrite !List.filter_app, !logged_no_transport.
  - intros h (t & env' & Ht & Hcb). rewrite Hw2 in Ht.
    apply outerFinally_timers in Ht. rewrite outerCatch_run in Ht.
    change (timers w' !! h = Some t) in Ht.
    destruct (Htim h t Ht) as [H|H]; [by exists t, env'|congruence].
  - rewrite Hw2, outerFinally_store, outerCatch_run. done.
  - by rewrite Hw2, outerFinally_store.
  - rewrite Htr2, Htr. unfold failureLog.
    destruct (onException preferences); cbn;
      by rewrite !List.filter_app, !logged_no_onException; cbn;
         rewrite !List.filter_app, !logged_no_onException.
  - rewrite Hw2, outerFinally_pending, outerCatch_run. cbn.
    subst base. cbn. apply lookup_delete_eq.
Qed.

(** ** The progress tick *)

Lemma triggerProgressChange_run (preferences : IClientConfig) (p : Progress)
    (env : Env) (w : World) :
  progressPrefs preferences = Some p ->
  after (triggerProgressChange preferences env) w
  = withStore (set_progress (byMode (progressMode p)
                               (uploadProgress (seen env))
                               (downloadProgress (seen env)))) w.
Proof.
  intros Hp. unfold triggerProgressChange, byMode. rewrite Hp. hook_cbn.
  destruct (equals (progressMode p) "upload") eqn:Hu.
  { apply equals_Some in Hu. by rewrite decide_True. }
  apply equals_None in Hu. rewrite (decide_False _ _ Hu).
  destruct (equals (progressMode p) "download") eqn:Hd.
  { apply equals_Some in Hd. by rewrite decide_True. }
  apply equals_None in Hd. by rewrite (decide_False _ _ Hd).
Qed.

(** A tick of the progress-sampling timer, with a progress configuration
    present, sets [progress] from the two counters of the closure the timer
    runs ([uploadProgress] and [downloadProgress] as
    [triggerProgressChange] reads them) according to the mode: upload
    yields [uploadProgress], download yields [downloadProgress], any other
    mode their arithmetic mean; no other cell changes; in mode both,
    counters 40 and 60 yield 50. *)
Lemma tick_sets_progress_by_mode (preferences : IClientConfig) (p : Progress)
    (w : World) (h : positive) (t : Timer) (env : Env) :
  progressPrefs preferences = Some p ->
  timers w !! h = Some t ->
  callback t = CbTick env ->
  due t <= now w ->
  let up := uploadProgress (seen env) in
  let down := downloadProgress (seen env) in
  let w' := exec preferences (Fire h) w in
  store w' = set_progress (byMode (progressMode p) up down) (store w)
  /\ (progressMode p = Some "upload" -> progress (store w') = up)
  /\ (progressMode p = Some "download" -> progress (store w') = down)
  /\ (progressMode p <> Some "upload" -> progressMode p <> Some "download" ->
      progress (store w') = ((up + down) / 2)%Q)
  /\ (progressMode p = Some "both" -> (up == 40)%Q -> (down == 60)%Q ->
      (progress (store w') == 50)%Q).
Proof.
  intros Hp Ht Hcb Hdue up down w'.
  assert (Hw' : store w' = set_progress (byMode (progressMode p) up down) (store w)).
  { subst w'. unfold exec. rewrite Ht.
    destruct (Z.leb_spec (due t) (now w)); [|lia].
    rewrite Hcb. cbn [runCallback].
    rewrite (triggerProgressChange_run preferences p env _ Hp).
    unfold rearm. by destruct (recurring t). }
  split; [done|]. rewrite Hw'. cbn [progress set_progress]. unfold byMode.
  split; [|split; [|split]].
  - intros ->. by rewrite decide_True.
  - intros ->. by rewrite decide_False, decide_True.
  - intros Hu Hd. by rewrite !decide_False.
  - intros -> Hu Hd. rewrite !decide_False by done. rewrite Hu, Hd. reflexivity.
Qed.

(** C8, at the failing input: mode both, a call in flight whose transfer
    has brought [uploadProgress] to 40 and [downloadProgress] to 60, the
    component re-rendered after each change, and the call's progress timer
    fires.  The claim expects [progress] to become 50.  The timer runs
    [triggerProgressChange] of the render that called [fetch()], where both
    counters are the constant 0: [progress] is set to 0, and stays there at
    every later tick. *)
Theorem tick_reads_counters_of_old_render :
  let w0 := run progressBothPrefs callAt40And60 initialWorld in
  let w := exec progressBothPrefs (Fire 1%positive) w0 in
  (exists t env,
      timers w0 !! 1%positive = Some t
      /\ callback t = CbTick env
      /\ recurring t = true
      /\ due t <= now w0
      /\ uploadProgress (seen env) = 0%Q
      /\ downloadProgress (seen env) = 0%Q)
  /\ uploadProgress (store w0) = 40%Q
  /\ downloadProgress (store w0) = 60%Q
  /\ uploadProgress (store w) = 40%Q
  /\ downloadProgress (store w) = 60%Q
  /\ (progress (store w) == 0)%Q
  /\ ~ (progress (store w) == 50)%Q
  /\ (progress (store (run progressBothPrefs
                         [Render plainCall; Advance 100; Fire 1%positive] w))
      == 0)%Q.
Proof.
  vm_compute. split.
  - do 2 eexists. repeat split; try reflexivity. discriminate.
  - repeat split; try reflexivity. discriminate.
Qed.

(** ** Retry without a retry condition *)

(** Whenever retry is allowed and no [retryCondition] is configured, a
    failure that is not a cancellation changes neither [retryCount] nor
    [error], arms no timer and calls nothing but the logger. *)
Lemma retry_without_condition_never_retries (preferences : IClientConfig)
    (env : Env) (e : value) (w : World) :
  isCancel e = false ->
  retryAllowed preferences env = true ->
  retry preferences ≫= retryCondition = None ->
  let w' := after (resume preferences env (Rejected e)) w in
  retryCount (store w') = retryCount (store w)
  /\ error (store w') = error (store w)
  /\ loading (store w') = false
  /\ (forall h t, timers w' !! h = Some t -> timers w !! h = Some t)
  /\ trace w' = (failureLog preferences env ++ trace w)%list.
Proof.
  intros Hc Hal Hno w'. subst w'.
  rewrite (resume_falls_through preferences env e w Hc Hal Hno).
  rewrite outerFinally_store, outerFinally_trace. repeat split.
  intros h t H. by apply outerFinally_timers in H.
Qed.

(** C1, at the failing input: retry enabled, [maxRetryCount] 3, no
    [retryCondition], a transport that fails with a network error.  The
    claim expects [retryCount] to become 1 and [fetch()] to be scheduled
    again; the code leaves [retryCount] at 0, arms no timer, invokes the
    transport once in all, and drops the error: [error] stays null and
    [onException] is not called. *)
Theorem retry_without_condition_drops_error :
  let preferences := retryPrefs (Some 3) None in
  let w0 := run preferences
              [Render plainCall; CallFetch 0%nat; Render plainCall; Advance 50]
              initialWorld in
  let w := exec preferences (Settle 1%nat (Rejected networkError)) w0 in
  pending w0 !! 1%nat
    = Some {| awaiting := {| seen := initialState; config := plainCall |};
              cancelled := false |}
  /\ retryAllowed preferences {| seen := initialState; config := plainCall |}
     = true
  /\ retryCount (store w) = 0
  /\ timers w = ∅
  /\ transportCalls w = 1%nat
  /\ error (store w) = VNull
  /\ loading (store w) = false
  /\ List.filter isOnException (trace w) = [].
Proof. vm_compute. repeat split; reflexivity. Qed.

(** With a [retryCondition] that accepts every error the retries never add
    up to the limit: the scheduled retry runs the closure that failed,
    whose [retryCount] is still the constant 0, so every failure stores 1
    and schedules the next retry.  After five failed invocations with
    [maxRetryCount] 3 a sixth is scheduled and [error] is still null. *)
Lemma scheduled_retry_keeps_its_count :
  let preferences := retryPrefs (Some 3) (Some (always true)) in
  let w := run preferences
             [Render plainCall; CallFetch 0%nat;
              Advance 50; Settle 1%nat (Rejected networkError);
              Render plainCall; Advance 1000; Fire 1%positive;
              Advance 50; Settle 2%nat (Rejected networkError);
              Render plainCall; Advance 1000; Fire 2%positive;
              Advance 50; Settle 3%nat (Rejected networkError);
              Render plainCall; Advance 1000; Fire 3%positive;
              Advance 50; Settle 4%nat (Rejected networkError);
              Render plainCall; Advance 1000; Fire 4%positive;
              Advance 50; Settle 5%nat (Rejected networkError)]
             initialWorld in
  transportCalls w = 5%nat
  /\ retryCount (store w) = 1
  /\ error (store w) = VNull
  /\ callsRequest w 5%positive.
Proof.
  vm_compute. repeat split; try reflexivity.
  do 2 eexists. split; reflexivity.
Qed.

(** ** The cache *)

(** A [fetch()] the cache answers does not reach the transport and does not
    write [response]. *)
Lemma cache_hit_keeps_response (preferences : IClientConfig) (env : Env)
    (w : World) :
  cacheValid env (now w) = true ->
  let w' := after (fetch preferences env) w in
  transportCalls w' = transportCalls w
  /\ pending w' = pending w
  /\ response (store w') = response (store w)
  /\ loading (store w') = false.
Proof.
  intros Hhit w'.
  destruct (request_hit preferences env w Hhit) as (w1 & Hp & Hreq).
  destruct (prologue_run preferences env w)
    as (w2 & Hp' & _ & Hpend & _ & _ & Htr & _ & _ & _ & _ & Hresp & _).
  assert (w2 = w1) as -> by congruence.
  subst w'. unfold fetch. rewrite Hreq.
  rewrite outerFinally_pending, outerFinally_store. unfold transportCalls.
  rewrite outerFinally_trace, Htr, List.filter_app, logged_no_transport.
  by cbn.
Qed.

(** C2, at the failing input: the hook is rendered with [ttl] 60000 and
    fetches ["first"], rendered without [ttl] and fetches ["second"],
    rendered with [ttl] 60000 again and fetches a third time, 100 ms after
    mounting.  The cache is unexpired and holds ["first"]; the third call
    does not invoke the transport, and [response] is still ["second"], not
    the cached payload: the cache branch never calls [setResponse]. *)
Theorem cache_hit_leaves_other_response :
  let w0 := run plainPrefs
              [Render cachedCall; CallFetch 0%nat; Advance 50;
               Settle 1%nat (Resolved (VStr "first"));
               Render plainCall; CallFetch 1%nat; Advance 50;
               Settle 2%nat (Resolved (VStr "second"));
               Render cachedCall] initialWorld in
  let w := exec plainPrefs (CallFetch 2%nat) w0 in
  (exists env, renders w0 !! 2%nat = Some env
     /\ seen env = store w0
     /\ ttl (config env) = Some 60000
     /\ cacheValid env (now w0) = true)
  /\ cache (store w0) = VStr "first"
  /\ cacheTime (store w0) + 60000 > now w0
  /\ transportCalls w = transportCalls w0
  /\ pending w = ∅
  /\ cache (store w) = VStr "first"
  /\ response (store w) = VStr "second"
  /\ response (store w) <> cache (store w).
Proof.
  vm_compute. split; [eexists; repeat split; reflexivity|].
  repeat split; try reflexivity. discriminate.
Qed.

(** The cache test reads the render's [cache]: a second [fetch()] through
    the render that made the first one still sees no cache and invokes the
    transport again, although the live cache is unexpired. *)
Lemma second_fetch_of_same_render_misses_cache :
  let w0 := run plainPrefs
              [Render cachedCall; CallFetch 0%nat; Advance 50;
               Settle 1%nat (Resolved (VStr "first")); Advance 50]
              initialWorld in
  let w := exec plainPrefs (CallFetch 0%nat) w0 in
  cache (store w0) = VStr "first"
  /\ cacheTime (store w0) + 60000 > now w0
  /\ transportCalls w0 = 1%nat
  /\ transportCalls w = 2%nat.
Proof. vm_compute. repeat split; reflexivity. Qed.

(** ** Polling *)

(** [stopPolling] through a render that saw no poll timer does nothing. *)
Lemma stopPolling_without_timer (env : Env) (w : World) :
  intervalId (seen env) = None ->
  stopPolling env w = (Ok tt, w).
Proof. intros H. unfold stopPolling. by rewrite H. Qed.

(** [startPolling] clears the handle its render saw, whatever timer is
    armed now, and arms a new recurring timer on the render's [request]. *)
Lemma startPolling_timers (env : Env) (period : Z) (w : World) :
  refresh (config env) = Some period ->
  period <> 0 ->
  let w' := after (startPolling env) w in
  timers w'
  = <[nextTimer w := {| callback := CbRequest env; delay := period;
                        recurring := true; due := now w + period |}]>
      (match intervalId (seen env) with
       | Some h => delete h (timers w)
       | None => timers w
       end)
  /\ intervalId (store w') = Some (nextTimer w).
Proof.
  intros Hr Hp w'. subst w'. unfold startPolling, stopPolling. rewrite Hr.
  destruct (Z.eqb_spec period 0); [done|]. hook_cbn.
  by destruct (intervalId (seen env)).
Qed.

(** C6, at the failing input: the hook is mounted with [refresh] 1000, so
    the effect arms the poll timer 1.  The render's [intervalId] is the
    constant null, whatever [setIntervalId] stored since.  Through that
    render, [polling.resume()] clears nothing and arms a second poll timer,
    a second [polling.resume()] a third; [polling.pause()] followed by
    [polling.resume()] also ends with two, and so does a
    [polling.resume()] through the next render, whose [intervalId] names the
    timer its own effect has already replaced. *)
Theorem resume_leaves_several_poll_timers :
  let mounted := run plainPrefs [Render polledCall] initialWorld in
  pollHandles mounted = [1%positive]
  /\ intervalId (store mounted) = Some 1%positive
  /\ (exists env, renders mounted !! 0%nat = Some env
        /\ intervalId (seen env) = None)
  /\ length (pollHandles (run plainPrefs [CallResume 0%nat] mounted)) = 2%nat
  /\ length (pollHandles
               (run plainPrefs [CallResume 0%nat; CallResume 0%nat] mounted))
     = 3%nat
  /\ length (pollHandles
               (run plainPrefs [CallPause 0%nat; CallResume 0%nat] mounted))
     = 2%nat
  /\ length (pollHandles
               (run plainPrefs [Render polledCall; CallResume 1%nat] mounted))
     = 2%nat.
Proof.
  vm_compute. repeat split; try reflexivity.
  eexists; split; reflexivity.
Qed.

(** ** A small program logic for invariants *)

Section rules.
Context {A B : Type} (I : World -> Prop).

Lemma preserves_ret (a : A) : preserves I (ret a).
Proof. by intros w. Qed.

Lemma preserves_throw (e : value) : preserves I (@throw A e).
Proof. by intros w. Qed.

Lemma preserves_modify (f : World -> World) :
  (forall w, I w -> I (f w)) -> preserves I (modify f).
Proof. intros H w. apply H. Qed.

Lemma preserves_bind (m : Hook A) (k : A -> Hook B) :
  preserves I m -> (forall a, preserves I (k a)) -> preserves I (m ≫= k).
Proof.
  intros Hm Hk w Hw. specialize (Hm w Hw). unfold_monad.
  destruct (m w) as [[a|e] w']; cbn in *; [by apply Hk|done].
Qed.

Lemma preserves_tryCatch (m : Hook A) (h : value -> Hook A) :
  preserves I m -> (forall e, preserves I (h e)) -> preserves I (tryCatch m h).
Proof.
  intros Hm Hh w Hw. specialize (Hm w Hw). unfold_monad.
  destruct (m w) as [[a|e] w']; cbn in *; [done|by apply Hh].
Qed.

Lemma preserves_tryFinally (m : Hook A) (f : Hook unit) :
  preserves I m -> preserves I f -> preserves I (tryFinally m f).
Proof.
  intros Hm Hf w Hw. specialize (Hm w Hw). unfold_monad.
  destruct (m w) as [r w']; cbn in *. specialize (Hf w' Hm).
  unfold after in Hf. by destruct (f w') as [[[]|e] w''].
Qed.
End rules.

Lemma preserves_when (I : World -> Prop) (b : bool) (m : Hook unit) :
  preserves I m -> preserves I (when b m).
Proof. intros H. destruct b; [done|apply preserves_ret]. Qed.

Create HintDb hook discriminated.
#[local] Hint Resolve preserves_ret preserves_throw preserves_when
  preserves_tryCatch preserves_tryFinally : hook.

(** Splits a goal [preserves I m] along the structure of [m]. *)
Ltac pres_step :=
  lazymatch goal with
  | |- preserves _ (_ ≫= _) => apply preserves_bind; [|intros ?]
  | |- preserves _ (tryCatch _ _) => apply preserves_tryCatch; [|intros ?]
  | |- preserves _ (tryFinally _ _) => apply preserves_tryFinally
  | |- preserves _ (when _ _) => apply preserves_when
  | |- preserves _ (ret _) => apply preserves_ret
  | |- preserves _ (throw _) => apply preserves_throw
  | |- preserves _ (if ?b then _ else _) => destruct b eqn:?
  | |- preserves _ (match ?o with Some _ => _ | None => _ end) =>
      destruct o eqn:?
  end.

Ltac pres := repeat pres_step; eauto with hook.

(** ** Invariants of the cells

    [P] is a property of the counters ([uploadProgress],
    [downloadProgress], [progress], [retryCount]) that every write the hook
    can make to them keeps.  Then [P] holds everywhere in every world the
    event loop reaches. *)

Lemma ltNum_lt (z : Z) (q : Q) : ltNum z q = true <-> (inject_Z z < q)%Q.
Proof.
  unfold ltNum. rewrite negb_true_iff. split.
  - intros H. apply Qnot_le_lt. intros Hle. apply Qle_bool_iff in Hle. congruence.
  - intros H. destruct (Qle_bool q (inject_Z z)) eqn:E; [|done].
    apply Qle_bool_iff in E. by apply Qlt_not_le in H.
Qed.

Section invariant.
Variable preferences : IClientConfig.
Variable P : CallState -> Prop.
Variable okEvent : ProgressEvent -> Prop.

Hypothesis P_cells : forall s s',
  uploadProgress s' = uploadProgress s ->
  downloadProgress s' = downloadProgress s ->
  progress s' = progress s ->
  retryCount s' = retryCount s ->
  P s -> P s'.
Hypothesis P_progress0 : forall s, P s -> P (set_progress 0%Q s).
Hypothesis P_upload0 : forall s, P s -> P (set_uploadProgress 0%Q s).
Hypothesis P_download0 : forall s, P s -> P (set_downloadProgress 0%Q s).
Hypothesis P_retry0 : forall s, P s -> P (set_retryCount 0 s).
Hypothesis P_retryNext : forall e s,
  P e -> (inject_Z (retryCount e) < maxRetries preferences)%Q -> P s ->
  P (set_retryCount (retryCount e + 1) s).
Hypothesis P_upload : forall ev t s,
  okEvent ev -> total ev = Some t -> t <> 0 -> P s ->
  P (set_uploadProgress
       (inject_Z (Math_round (inject_Z (loaded ev * 100) / inject_Z t))) s).
Hypothesis P_download : forall ev t s,
  okEvent ev -> total ev = Some t -> t <> 0 -> P s ->
  P (set_downloadProgress
       (inject_Z (Math_round (inject_Z (loaded ev * 100) / inject_Z t))) s).
Hypothesis P_tick : forall p e s,
  progressPrefs preferences = Some p ->
  P e -> P s ->
  P (set_progress
       (byMode (progressMode p) (uploadProgress e) (downloadProgress e)) s).

#[local] Abbreviation I := (everywhere P).

Lemma everywhere_withStore (f : CallState -> CallState) (w : World) :
  (P (store w) -> P (f (store w))) -> I w -> I (withStore f w).
Proof. intros Hf (Hs & Hr & Ht & Hp). split; [by apply Hf|done]. Qed.

Lemma keeps_store (f : CallState -> CallState) :
  (forall s, P s -> P (f s)) -> preserves I (modify (withStore f)).
Proof.
  intros Hf. apply preserves_modify. intros w.
  apply everywhere_withStore, Hf.
Qed.

Lemma keeps_setResponse v : preserves I (setResponse v).
Proof. apply keeps_store. intros s. by apply P_cells. Qed.
Lemma keeps_setLoading b : preserves I (setLoading b).
Proof. apply keeps_store. intros s. by apply P_cells. Qed.
Lemma keeps_setError v : preserves I (setError v).
Proof. apply keeps_store. intros s. by apply P_cells. Qed.
Lemma keeps_setSource o : preserves I (setSource o).
Proof. apply keeps_store. intros s. by apply P_cells. Qed.
Lemma keeps_setCache v : preserves I (setCache v).
Proof. apply keeps_store. intros s. by apply P_cells. Qed.
Lemma keeps_setCacheTime t : preserves I (setCacheTime t).
Proof. apply keeps_store. intros s. by apply P_cells. Qed.
Lemma keeps_setIntervalId o : preserves I (setIntervalId o).
Proof. apply keeps_store. intros s. by apply P_cells. Qed.
Lemma keeps_setProgressUpdateInterval o :
  preserves I (setProgressUpdateInterval o).
Proof. apply keeps_store. intros s. by apply P_cells. Qed.

Lemma keeps_emit e : preserves I (emit e).
Proof. apply preserves_modify. by intros w. Qed.

Lemma keeps_logger level message : preserves I (logger preferences level message).
Proof. intros w Hw. by rewrite logger_after. Qed.

Lemma keeps_Date_now : preserves I Date_now.
Proof. by intros w. Qed.

Lemma keeps_CancelToken_source : preserves I CancelToken_source.
Proof. by intros w. Qed.

Lemma keeps_clearInterval h : preserves I (clearInterval h).
Proof.
  apply preserves_modify. intros w (Hs & Hr & Ht & Hp).
  repeat split; try done. by apply map_Forall_delete.
Qed.

Lemma keeps_armTimer cb d rec :
  P (seen (closureOf cb)) -> preserves I (armTimer cb d rec).
Proof.
  intros Hcb w (Hs & Hr & Ht & Hp).
  repeat split; try done. cbn. by apply map_Forall_insert_2.
Qed.

Lemma keeps_axios_request src u env :
  P (seen env) -> preserves I (axios_request src u env).
Proof.
  intros He. unfold axios_request. apply preserves_bind; [apply keeps_emit|].
  intros _. apply preserves_modify. intros w (Hs & Hr & Ht & Hp).
  repeat split; try done. cbn. by apply map_Forall_insert_2.
Qed.

Lemma keeps_source_cancel src : preserves I (source_cancel src).
Proof.
  apply preserves_modify. intros w (Hs & Hr & Ht & Hp).
  repeat split; try done. cbn.
  destruct (pending w !! src) as [p|] eqn:E; [|done].
  apply map_Forall_insert_2; [|done]. apply (Hp src p E).
Qed.

#[local] Hint Resolve keeps_setResponse keeps_setLoading keeps_setError
  keeps_setSource keeps_setCache keeps_setCacheTime keeps_setIntervalId
  keeps_setProgressUpdateInterval keeps_emit keeps_logger keeps_Date_now
  keeps_CancelToken_source keeps_clearInterval keeps_source_cancel : hook.

Lemma keeps_updateProgress_upload ev cb :
  okEvent ev -> (forall e, preserves I (cb e)) ->
  preserves I (updateProgress ev setUploadProgress (Some cb)) /\
  preserves I (updateProgress ev setUploadProgress None).
Proof.
  intros Hev Hcb. unfold updateProgress.
  destruct (total ev) as [t|] eqn:Et; [|split; apply preserves_ret].
  destruct (Z.eqb_spec t 0); [split; apply preserves_ret|].
  split; (apply preserves_bind;
          [apply keeps_store; intros s; by apply P_upload|intros _; pres]).
Qed.

Lemma keeps_updateProgress_download ev cb :
  okEvent ev -> (forall e, preserves I (cb e)) ->
  preserves I (updateProgress ev setDownloadProgress (Some cb)) /\
  preserves I (updateProgress ev setDownloadProgress None).
Proof.
  intros Hev Hcb. unfold updateProgress.
  destruct (total ev) as [t|] eqn:Et; [|split; apply preserves_ret].
  destruct (Z.eqb_spec t 0); [split; apply preserves_ret|].
  split; (apply preserves_bind;
          [apply keeps_store; intros s; by apply P_download|intros _; pres]).
Qed.

Lemma keeps_onUpload ev : okEvent ev -> preserves I (onUpload preferences ev).
Proof.
  intros Hev. unfold onUpload.
  destruct (keeps_updateProgress_upload ev
              (fun ev => emit (EvOnUploadProgress ev)) Hev) as [H1 H2];
    [intros; apply keeps_emit|].
  destruct (progressPrefs preferences) as [p|]; [|done].
  by destruct (onUploadProgress p).
Qed.

Lemma keeps_onDownload ev : okEvent ev -> preserves I (onDownload preferences ev).
Proof.
  intros Hev. unfold onDownload.
  destruct (keeps_updateProgress_download ev
              (fun ev => emit (EvOnDownloadProgress ev)) Hev) as [H1 H2];
    [intros; apply keeps_emit|].
  destruct (progressPrefs preferences) as [p|]; [|done].
  by destruct (onDownloadProgress p).
Qed.

Lemma keeps_triggerProgressChange env :
  P (seen env) -> preserves I (triggerProgressChange preferences env).
Proof.
  intros He w Hw.
  destruct (progressPrefs preferences) as [p|] eqn:Ep.
  - rewrite (triggerProgressChange_run preferences p env w Ep).
    apply everywhere_withStore; [|done]. intros Hs. by apply P_tick.
  - unfold triggerProgressChange. by rewrite Ep.
Qed.

Lemma keeps_outerCatch e : preserves I (outerCatch preferences e).
Proof. unfold outerCatch. pres. Qed.

Lemma keeps_outerFinally env : preserves I (outerFinally env).
Proof. unfold outerFinally. pres. Qed.

#[local] Hint Resolve keeps_outerCatch keeps_outerFinally : hook.

Lemma keeps_settle env body :
  preserves I body -> preserves I (settle preferences env body).
Proof. intros H. unfold settle. pres. Qed.

Lemma keeps_prologue env :
  P (seen env) -> preserves I (prologue preferences env).
Proof.
  intros He. unfold prologue. pres;
    try (apply keeps_store; intros s; by auto).
  unfold setInterval. by apply keeps_armTimer.
Qed.

Lemma keeps_onFulfilled env data : preserves I (onFulfilled preferences env data).
Proof. unfold onFulfilled. pres. Qed.

Lemma keeps_onRejected env e :
  P (seen env) -> preserves I (onRejected preferences env e).
Proof.
  intros He. unfold onRejected. pres.
  - apply keeps_store. intros s Hs. apply P_retryNext; [done| |done].
    match goal with H : _ && _ = true |- _ => apply andb_true_iff in H as [_ H] end.
    by apply ltNum_lt.
  - unfold setTimeout. by apply keeps_armTimer.
  - apply keeps_store. intros s. by apply P_retry0.
Qed.

Lemma keeps_resume env outcome :
  P (seen env) -> preserves I (resume preferences env outcome).
Proof.
  intros He. unfold resume. apply keeps_settle. pres.
  - destruct outcome; [apply keeps_onFulfilled|apply preserves_throw].
  - by apply keeps_onRejected.
Qed.

Lemma keeps_request env :
  P (seen env) -> preserves I (request preferences env).
Proof.
  intros He. unfold request. pres;
    first [by apply keeps_prologue
          |by apply keeps_axios_request
          |apply keeps_settle, preserves_ret].
Qed.

Lemma keeps_cancel env : preserves I (cancel env).
Proof. unfold cancel. pres. Qed.

Lemma keeps_stopPolling env : preserves I (stopPolling env).
Proof. unfold stopPolling. pres. Qed.

Lemma keeps_startPolling env :
  P (seen env) -> preserves I (startPolling env).
Proof.
  intros He. unfold startPolling. pres.
  - apply keeps_stopPolling.
  - unfold setInterval. by apply keeps_armTimer.
Qed.

Lemma keeps_exec (a : Action) (w : World) :
  actionEvents okEvent a -> I w -> I (exec preferences a w).
Proof.
  intros Ha Hw. pose proof Hw as (Hs & Hr & Ht & Hp).
  destruct a as [cfg|r|r|r|r|src outcome|src ev|src ev|h|dt]; cbn [exec].
  - set (env := {| seen := store w; config := cfg |}).
    assert (Hw' : I (withRenders (fun l => (l ++ [env])%list) w)).
    { repeat split; try done. cbn. apply Forall_app. split; [done|].
      by apply Forall_singleton. }
    revert Hw'. generalize (withRenders (fun l => (l ++ [env])%list) w).
    apply preserves_bind.
    + unfold effectCleanup. destruct (last (renders w)); [|apply preserves_ret].
      apply keeps_stopPolling.
    + intros _. unfold effect. apply preserves_when. by apply keeps_startPolling.
  - destruct (renders w !! r) as [env|] eqn:E; [|done].
    apply keeps_request; [|done].
    by apply (proj1 (Forall_lookup _ _) Hr r env).
  - destruct (renders w !! r) as [env|] eqn:E; [|done].
    by apply keeps_cancel.
  - destruct (renders w !! r) as [env|] eqn:E; [|done].
    apply keeps_startPolling; [|done].
    by apply (proj1 (Forall_lookup _ _) Hr r env).
  - destruct (renders w !! r) as [env|] eqn:E; [|done].
    by apply keeps_stopPolling.
  - destruct (pending w !! src) as [p|] eqn:E; [|done].
    apply keeps_resume; [by apply (Hp src p)|].
    repeat split; try done. cbn. by apply map_Forall_delete.
  - destruct (pending w !! src); [|done]. by apply keeps_onUpload.
  - destruct (pending w !! src); [|done]. by apply keeps_onDownload.
  - destruct (timers w !! h) as [t|] eqn:E; [|done].
    destruct (due t <=? now w); [|done].
    assert (Hre : I (rearm h t w)).
    { unfold rearm. destruct (recurring t); repeat split; try done; cbn.
      - apply map_Forall_insert_2; [|done]. apply (Ht h t E).
      - by apply map_Forall_delete. }
    pose proof (Ht h t E) as Hcb. cbn in Hcb.
    destruct (callback t) as [env|env]; cbn in *.
    + by apply keeps_request.
    + by apply keeps_triggerProgressChange.
  - by destruct (0 <=? dt).
Qed.

Lemma keeps_run (acts : list Action) (w : World) :
  Forall (actionEvents okEvent) acts -> I w -> I (run preferences acts w).
Proof.
  revert w. induction acts as [|a acts IH]; intros w Hacts Hw; [done|].
  inversion Hacts; subst. cbn. apply IH; [done|]. by apply keeps_exec.
Qed.

Lemma everywhere_initial : P initialState -> I initialWorld.
Proof.
  intros H. repeat split; [done|constructor| |]; apply map_Forall_empty.
Qed.
End invariant.

Lemma any_action_events (acts : list Action) :
  Forall (actionEvents (fun _ => True)) acts.
Proof. apply Forall_forall. intros a _. by destruct a. Qed.

(** ** The retry counter *)

Lemma retryCount_invariant (preferences : IClientConfig) (acts : list Action) :
  everywhere (retryCountInRange preferences)
    (run preferences acts initialWorld).
Proof.
  apply (keeps_run preferences (retryCountInRange preferences) (fun _ => True));
    unfold retryCountInRange; cbn; try done.
  - intros s s' _ _ _ E. by rewrite E.
  - intros e s [He _] Hlt _. split; [lia|]. intros _.
    rewrite inject_Z_plus. change (inject_Z 1) with 1%Q. lra.
  - apply any_action_events.
Qed.

(** C3, refuted as stated.  First: with a [retryCondition] that accepts
    every error and [maxRetryCount] 3, a first failure sets [retryCount] to
    1 and schedules a retry; the retry succeeds, and [retryCount] is still
    1, not 0.  Second: with [maxRetryCount] configured as 0 the limit in
    force is 3, and one failure makes [retryCount] 1, above the configured
    0.  Third: with [maxRetryCount] configured as -1 the initial
    [retryCount] 0 is already above it.  Fourth: a limit need not be
    whole; with [maxRetryCount] 0.5 the first failure is retried (0 is
    below 0.5) and [retryCount] becomes 1, above the limit, though below
    the limit plus one. *)
Lemma retryCount_kept_on_success :
  (let preferences := retryPrefs (Some 3) (Some (always true)) in
   let w := run preferences
              [Render plainCall; CallFetch 0%nat; Render plainCall; Advance 50;
               Settle 1%nat (Rejected networkError); Render plainCall;
               Advance 1000; Fire 1%positive; Render plainCall; Advance 50]
              initialWorld in
   let w' := exec preferences (Settle 2%nat (Resolved (VStr "ok"))) w in
   is_Some (pending w !! 2%nat)
   /\ response (store w') = VStr "ok"
   /\ error (store w') = VNull
   /\ retryCount (store w') = 1
   /\ retryCount (store w') <> 0)
  /\ (let preferences := retryPrefs (Some 0) (Some (always true)) in
      let w := run preferences
                 [Render plainCall; CallFetch 0%nat; Advance 50;
                  Settle 1%nat (Rejected networkError)] initialWorld in
      retry preferences ≫= maxRetryCount = Some 0%Q
      /\ retryCount (store w) = 1
      /\ ~ retryCount (store w) <= 0)
  /\ (let preferences := retryPrefs (Some (-1)) None in
      retry preferences ≫= maxRetryCount = Some (-1)%Q
      /\ ~ retryCount (store (run preferences [] initialWorld)) <= -1)
  /\ (let w := run halfLimitPrefs
                 [Render plainCall; CallFetch 0%nat; Advance 50;
                  Settle 1%nat (Rejected networkError)] initialWorld in
      maxRetries halfLimitPrefs = (1 # 2)%Q
      /\ retryCount (store w) = 1
      /\ ~ (inject_Z (retryCount (store w)) <= maxRetries halfLimitPrefs)%Q).
Proof.
  vm_compute. repeat split; try reflexivity; try discriminate; try (by eexists).
  all: intros H; by apply H.
Qed.

(** C3, amended.  In every world the event loop reaches, [retryCount] is
    never negative and, once positive, below the limit in force plus one,
    the limit being [maxRetryCount || 3]; so it is between 0 and the limit
    whenever the limit is a whole number that is not negative.  When a call
    fails for good (not a cancellation) while retry is disabled or the
    closure's [retryCount] is not below the limit, [retryCount] is reset to
    0 and the error is stored.  A call that succeeds leaves [retryCount]
    as it is. *)
Theorem retryCount_bounded_reset_on_give_up (preferences : IClientConfig)
    (acts : list Action) :
  let w := run preferences acts initialWorld in
  let limit := maxRetries preferences in
  0 <= retryCount (store w)
  /\ (0 < retryCount (store w) ->
      (inject_Z (retryCount (store w)) < limit + 1)%Q)
  /\ (forall n : Z, (limit == inject_Z n)%Q -> 0 <= n ->
      retryCount (store w) <= n)
  /\ (forall src p e,
       pending w !! src = Some p ->
       cancelled p = false ->
       isCancel e = false ->
       retryAllowed preferences (awaiting p) = false ->
       let w' := exec preferences (Settle src (Rejected e)) w in
       retryCount (store w') = 0 /\ error (store w') = e)
  /\ (forall src p data,
       pending w !! src = Some p ->
       cancelled p = false ->
       let w' := exec preferences (Settle src (Resolved data)) w in
       retryCount (store w') = retryCount (store w)).
Proof.
  intros w limit.
  destruct (retryCount_invariant preferences acts) as [[H0 H1] _].
  fold w in H0, H1. fold limit in H1.
  split; [done|]. split; [done|]. split; [|split].
  - intros n Hn Hpos. destruct (Z_lt_le_dec 0 (retryCount (store w))) as [Hlt|Hle];
      [|lia].
    specialize (H1 Hlt). rewrite Hn in H1.
    change 1%Q with (inject_Z 1) in H1.
    rewrite <- inject_Z_plus, <- Zlt_Qlt in H1. lia.
  - intros src p e Hp Hnc He Hno w'. subst w'. unfold exec. rewrite Hp.
    unfold delivered. rewrite Hnc.
    rewrite (resume_gives_up preferences (awaiting p) e _ He Hno).
    by rewrite outerFinally_store, outerCatch_run.
  - intros src p data Hp Hnc w'. subst w'. unfold exec. rewrite Hp.
    unfold delivered. rewrite Hnc.
    rewrite resume_resolved, outerFinally_store.
    by destruct (truthyNum (ttl (config (awaiting p)))).
Qed.

Lemma retryCount_bounded_reset_on_give_up_witness :
  let preferences := retryPrefs (Some 3) (Some (always true)) in
  let w := run preferences
             [Render plainCall; CallFetch 0%nat; Advance 50;
              Settle 1%nat (Rejected networkError);
              Render plainCall; CallFetch 1%nat; Advance 50;
              Settle 2%nat (Rejected networkError);
              Render plainCall; CallFetch 2%nat; Advance 50;
              Settle 3%nat (Rejected networkError);
              Render plainCall; CallFetch 3%nat; Advance 50] initialWorld in
  maxRetries preferences = 3%Q
  /\ retryCount (store w) = 3
  /\ retryCount (store w) <= 3
  /\ (let w' := exec preferences (Settle 4%nat (Rejected networkError)) w in
      retryCount (store w') = 0 /\ error (store w') = networkError)
  /\ (let w' := exec preferences (Settle 4%nat (Resolved (VStr "ok"))) w in
      retryCount (store w') = 3).
Proof.
  intros preferences w.
  destruct (retryCount_bounded_reset_on_give_up preferences
              [Render plainCall; CallFetch 0%nat; Advance 50;
               Settle 1%nat (Rejected networkError);
               Render plainCall; CallFetch 1%nat; Advance 50;
               Settle 2%nat (Rejected networkError);
               Render plainCall; CallFetch 2%nat; Advance 50;
               Settle 3%nat (Rejected networkError);
               Render plainCall; CallFetch 3%nat; Advance 50])
    as (_ & _ & Hwhole & Hgive & Hkeep).
  split; [reflexivity|]. split; [vm_compute; reflexivity|].
  split; [apply Hwhole; [reflexivity|lia]|].
  split.
  - eapply (Hgive 4%nat); vm_compute; reflexivity.
  - cbv zeta. erewrite (Hkeep 4%nat); vm_compute; reflexivity.
Defined.

(** ** The progress cells *)

Lemma integral_inject_Z (z : Z) : integral (inject_Z z).
Proof. by exists z. Qed.

Lemma Math_round_percentage (l t : Z) :
  t <> 0 -> 0 <= l <= t ->
  0 <= Math_round (inject_Z (l * 100) / inject_Z t) <= 100.
Proof.
  intros Ht Hl. assert (0 < t) as Hpos by lia.
  assert (Hq : (0 < inject_Z t)%Q).
  { change 0%Q with (inject_Z 0). rewrite <- Zlt_Qlt. lia. }
  set (x := (inject_Z (l * 100) / inject_Z t)%Q).
  assert (Hx0 : (0 <= x)%Q).
  { apply Qle_shift_div_l; [done|]. rewrite Qmult_0_l.
    change 0%Q with (inject_Z 0). rewrite <- Zle_Qle. lia. }
  assert (Hx1 : (x <= 100)%Q).
  { apply Qle_shift_div_r; [done|].
    change 100%Q with (inject_Z 100). rewrite <- inject_Z_mult, <- Zle_Qle. lia. }
  unfold Math_round. split.
  - change 0 with (Qfloor 0). apply Qfloor_resp_le. lra.
  - change 100 with (Qfloor (100 + (1 # 2))). apply Qfloor_resp_le. lra.
Qed.

Lemma percentage_inject_Z (z : Z) : 0 <= z <= 100 -> percentage (inject_Z z).
Proof.
  intros [H0 H1]. unfold percentage. split.
  - change 0%Q with (inject_Z 0). by rewrite <- Zle_Qle.
  - change 100%Q with (inject_Z 100). by rewrite <- Zle_Qle.
Qed.

Lemma integral_double (q : Q) : integral q -> integral (2 * q)%Q.
Proof.
  intros [z Hz]. exists (2 * z). rewrite inject_Z_mult, Hz. reflexivity.
Qed.

Lemma byMode_cells (mode : option string) (up down : Q) :
  integral up -> percentage up -> integral down -> percentage down ->
  integral (2 * byMode mode up down)%Q /\ percentage (byMode mode up down).
Proof.
  intros Hiu Hpu Hid Hpd. unfold byMode.
  repeat case_decide; try (split; [by apply integral_double|done]).
  unfold percentage in *. split.
  - destruct Hiu as [a Ha], Hid as [b Hb]. exists (a + b).
    rewrite inject_Z_plus, <- Ha, <- Hb. field.
  - split.
    + apply Qle_shift_div_l; lra.
    + apply Qle_shift_div_r; lra.
Qed.

Lemma byMode_whole (mode : option string) (up down : Q) :
  integral up -> integral down ->
  integral (2 * byMode mode up down)%Q
  /\ (mode = Some "upload" \/ mode = Some "download" ->
      integral (byMode mode up down)).
Proof.
  intros Hiu Hid. unfold byMode.
  repeat case_decide; try (split; [by apply integral_double|done]).
  split.
  - destruct Hiu as [a Ha], Hid as [b Hb]. exists (a + b).
    rewrite inject_Z_plus, <- Ha, <- Hb. field.
  - intros [E|E]; congruence.
Qed.

Lemma progressWhole_invariant (preferences : IClientConfig) (acts : list Action) :
  everywhere (progressWhole preferences) (run preferences acts initialWorld).
Proof.
  assert (Hi0 : integral 0) by (by exists 0).
  assert (Hd0 : integral (2 * 0)%Q) by (by exists 0).
  apply (keeps_run preferences (progressWhole preferences) (fun _ => True));
    unfold progressWhole; cbn; try tauto.
  - intros s s' -> -> -> _. tauto.
  - intros ev t s _ _ _ (_ & H). split; [apply integral_inject_Z|done].
  - intros ev t s _ _ _ (Hiu & _ & H). split; [done|].
    split; [apply integral_inject_Z|done].
  - intros p e s Hp (Hiu & Hid & _) (Hiu' & Hid' & _).
    destruct (byMode_whole (progressMode p) _ _ Hiu Hid) as [H2 H1].
    split; [done|]. split; [done|]. split; [done|].
    unfold wholeMode. rewrite Hp. exact H1.
  - apply any_action_events.
  - apply everywhere_initial. unfold progressWhole. cbn. tauto.
Qed.

Lemma progressCells_invariant (preferences : IClientConfig) (acts : list Action) :
  Forall (actionEvents boundedEvent) acts ->
  everywhere progressCells (run preferences acts initialWorld).
Proof.
  intros Hacts.
  assert (Hzero : integral 0 /\ percentage 0 /\ integral (2 * 0)%Q).
  { split; [by exists 0|]. split; [by split|by exists 0]. }
  destruct Hzero as (Hi0 & Hp0 & Hd0).
  apply (keeps_run preferences progressCells boundedEvent);
    unfold progressCells; cbn; try tauto.
  - intros s s' -> -> -> _. tauto.
  - intros ev t s Hev Et Ht (_ & _ & H). unfold boundedEvent in Hev.
    rewrite Et in Hev.
    pose proof (Math_round_percentage (loaded ev) t Ht Hev).
    split; [apply integral_inject_Z|]. split; [by apply percentage_inject_Z|done].
  - intros ev t s Hev Et Ht (Hiu & Hpu & _ & _ & H). unfold boundedEvent in Hev.
    rewrite Et in Hev.
    pose proof (Math_round_percentage (loaded ev) t Ht Hev).
    split; [done|]. split; [done|].
    split; [apply integral_inject_Z|]. split; [by apply percentage_inject_Z|done].
  - intros p e s _ (Hiu & Hpu & Hid & Hpd & _) (Hiu' & Hpu' & Hid' & Hpd' & _).
    pose proof (byMode_cells (progressMode p) _ _ Hiu Hpu Hid Hpd). tauto.
  - apply everywhere_initial. unfold progressCells. cbn. tauto.
Qed.

(** C7, refuted as stated.  First: in mode both, a call ends with the
    counters at 100 and 25; the next render sees them, and the progress
    timer of the call it starts sets [progress] to their mean 62.5, which
    is not an integer.  Second: a download event reporting 300 bytes of a
    total of 100 sets [downloadProgress] to 300, outside 0..100. *)
Lemma progress_half_or_beyond_100 :
  (let s := store (run progressBothPrefs twoCallsWithProgress initialWorld) in
   progress s = (125 # 2)%Q /\ ~ integral (progress s))
  /\ (let s := store (run progressBothPrefs overlongDownload initialWorld) in
      downloadProgress s = 300%Q /\ ~ percentage (downloadProgress s)).
Proof.
  split.
  - assert (E : progress (store (run progressBothPrefs twoCallsWithProgress
                                   initialWorld)) = (125 # 2)%Q)
      by (vm_compute; reflexivity).
    cbn zeta. rewrite E. split; [done|].
    intros [z Hz]. unfold Qeq in Hz. cbn in Hz. lia.
  - assert (E : downloadProgress (store (run progressBothPrefs overlongDownload
                                           initialWorld)) = 300%Q)
      by (vm_compute; reflexivity).
    cbn zeta. rewrite E. split; [done|].
    intros [_ H]. unfold Qle in H. cbn in H. lia.
Qed.

(** C7, amended.  In every world the event loop reaches, [uploadProgress]
    and [downloadProgress] are integers, and [progress] is an integer or an
    integer and a half; it is an integer whenever [progressMode] is upload
    or download or no progress is configured.  While each progress event
    reports between 0 and its total bytes, the three of them are between 0
    and 100. *)
Theorem progress_cells_are_percentages (preferences : IClientConfig)
    (acts : list Action) :
  let s := store (run preferences acts initialWorld) in
  integral (uploadProgress s)
  /\ integral (downloadProgress s)
  /\ integral (2 * progress s)%Q
  /\ (wholeMode preferences -> integral (progress s))
  /\ (Forall (actionEvents boundedEvent) acts ->
      percentage (uploadProgress s)
      /\ percentage (downloadProgress s)
      /\ percentage (progress s)).
Proof.
  intros s.
  destruct (progressWhole_invariant preferences acts)
    as [(Hu & Hd & H2 & H1) _].
  split; [done|]. split; [done|]. split; [done|]. split; [done|].
  intros Hacts.
  destruct (progressCells_invariant preferences acts Hacts)
    as [(_ & Hpu & _ & Hpd & _ & Hpp) _].
  done.
Qed.

Lemma progress_cells_are_percentages_witness :
  Forall (actionEvents boundedEvent) twoCallsWithProgress
  /\ (let s := store (run progressBothPrefs twoCallsWithProgress initialWorld) in
      integral (uploadProgress s) /\ percentage (uploadProgress s)
      /\ integral (downloadProgress s) /\ percentage (downloadProgress s)
      /\ integral (2 * progress s)%Q /\ percentage (progress s))
  /\ (let s := store (run plainPrefs overlongDownload initialWorld) in
      wholeMode plainPrefs
      /\ integral (downloadProgress s) /\ integral (progress s)).
Proof.
  assert (H : Forall (actionEvents boundedEvent) twoCallsWithProgress).
  { unfold twoCallsWithProgress, boundedEvent.
    repeat constructor; cbn; lia. }
  split; [exact H|].
  destruct (progress_cells_are_percentages progressBothPrefs
              twoCallsWithProgress) as (Hu & Hd & H2 & _ & Hb).
  destruct (Hb H) as (Hpu & Hpd & Hpp).
  split; [by repeat split|].
  destruct (progress_cells_are_percentages plainPrefs overlongDownload)
    as (_ & Hd' & _ & H1 & _).
  assert (Hw : wholeMode plainPrefs) by exact I.
  split; [exact Hw|]. split; [exact Hd'|exact (H1 Hw)].
Defined.

(** ** Cancelling through the render that fetched *)

(** C4, at the failing input: a mounted hook whose consumer calls
    [fetch()] and keeps the [cancel] of the same render (as an effect does
    that fetches on mount and cancels in its cleanup); the state changes of
    [fetch()] make the component render again; while the call is in flight
    the kept [cancel()] is called.  The claim expects the call to end as a
    cancellation: [loading] false, [error] null, no retry, no
    [onException].  The [source] of that render is the constant null, so
    [cancel()] does nothing at all and the call stays in flight; when the
    transport then fails, [error] is set and [onException] is called, and
    with retry configured a retry is scheduled. *)
Theorem cancel_through_fetching_render_misses :
  (let w0 := run plainPrefs
               [Render plainCall; CallFetch 0%nat; Render plainCall; Advance 20]
               initialWorld in
   let w1 := exec plainPrefs (CallCancel 0%nat) w0 in
   let w2 := exec plainPrefs (Settle 1%nat (Rejected networkError)) w1 in
   renders w0 !! 0%nat = Some {| seen := initialState; config := plainCall |}
   /\ loading (store w0) = true
   /\ source (store w0) = Some 1%nat
   /\ pending w0 !! 1%nat
      = Some {| awaiting := {| seen := initialState; config := plainCall |};
                cancelled := false |}
   /\ w1 = w0
   /\ loading (store w2) = false
   /\ error (store w2) = networkError
   /\ error (store w2) <> VNull
   /\ List.filter isOnException (trace w2) = [EvOnException networkError])
  /\ (let preferences := retryPrefs (Some 3) (Some (always true)) in
      let w0 := run preferences
                  [Render plainCall; CallFetch 0%nat; Render plainCall;
                   Advance 20] initialWorld in
      let w1 := exec preferences (CallCancel 0%nat) w0 in
      let w2 := exec preferences (Settle 1%nat (Rejected networkError)) w1 in
      w1 = w0
      /\ timers w0 = ∅
      /\ retryCount (store w2) = 1
      /\ callsRequest w2 1%positive).
Proof.
  split.
  - vm_compute. repeat split; try reflexivity. discriminate.
  - cbv zeta. split; [vm_compute; reflexivity|].
    split; [vm_compute; reflexivity|]. split; [vm_compute; reflexivity|].
    unfold callsRequest. do 2 eexists. split; [vm_compute; reflexivity|].
    reflexivity.
Qed.

(** ** Instances *)

Lemma cancel_without_source_is_noop_witness :
  let w := run plainPrefs [Render plainCall] initialWorld in
  let env := {| seen := initialState; config := plainCall |} in
  renders w !! 0%nat = Some env
  /\ source (seen env) = None
  /\ exec plainPrefs (CallCancel 0%nat) w = w.
Proof.
  intros w env.
  assert (Hr : renders w !! 0%nat = Some env) by reflexivity.
  assert (Hs : source (seen env) = None) by reflexivity.
  split; [exact Hr|]. split; [exact Hs|].
  exact (proj2 (cancel_without_source_is_noop plainPrefs w 0%nat env Hr Hs)).
Defined.

Lemma cancel_in_flight_witness :
  let w := run plainPrefs callInFlight initialWorld in
  let env := {| seen := store w; config := plainCall |} in
  let p := {| awaiting := {| seen := initialState; config := plainCall |};
              cancelled := false |} in
  let w2 := exec plainPrefs (Settle 1%nat (Resolved (VStr "late")))
              (exec plainPrefs (CallCancel 1%nat) w) in
  renders w !! 1%nat = Some env
  /\ source (seen env) = Some 1%nat
  /\ pending w !! 1%nat = Some p
  /\ loading (store w) = true
  /\ loading (store w2) = false
  /\ error (store w2) = VNull
  /\ trace w2 = trace w
  /\ pending w2 !! 1%nat = None.
Proof.
  intros w env p w2.
  assert (Hr : renders w !! 1%nat = Some env) by (vm_compute; reflexivity).
  assert (Hs : source (seen env) = Some 1%nat) by (vm_compute; reflexivity).
  assert (Hp : pending w !! 1%nat = Some p) by (vm_compute; reflexivity).
  destruct (cancel_in_flight plainPrefs w 1%nat env 1%nat p
              (Resolved (VStr "late")) Hr Hs Hp)
    as (_ & Hl & _ & He & _ & Ht & _ & _ & Hn).
  split; [exact Hr|]. split; [exact Hs|]. split; [exact Hp|].
  split; [vm_compute; reflexivity|]. split; [exact Hl|].
  split; [apply He; vm_compute; reflexivity|]. split; [exact Ht|exact Hn].
Defined.

Lemma declined_retry_surfaces_error_witness :
  let preferences := retryPrefs (Some 3) (Some (always false)) in
  let w := run preferences [Render plainCall] initialWorld in
  let env := {| seen := initialState; config := plainCall |} in
  let w1 := exec preferences (CallFetch 0%nat) w in
  let w2 := exec preferences (Settle 1%nat (Rejected networkError)) w1 in
  truthyBool (retry preferences ≫= enableRetry) = true
  /\ retry preferences ≫= retryCondition = Some (always false)
  /\ always false networkError = false
  /\ isCancel networkError = false
  /\ renders w !! 0%nat = Some env
  /\ cacheValid env (now w) = false
  /\ transportCalls w2 = 1%nat
  /\ error (store w2) = networkError
  /\ loading (store w2) = false
  /\ List.filter isOnException (trace w2) = [EvOnException networkError].
Proof.
  intros preferences w env w1 w2.
  assert (H1 : truthyBool (retry preferences ≫= enableRetry) = true) by reflexivity.
  assert (H2 : retry preferences ≫= retryCondition = Some (always false))
    by reflexivity.
  assert (H3 : always false networkError = false) by reflexivity.
  assert (H4 : isCancel networkError = false) by reflexivity.
  assert (H5 : renders w !! 0%nat = Some env) by reflexivity.
  assert (H6 : cacheValid env (now w) = false) by reflexivity.
  destruct (declined_retry_surfaces_error preferences w 0%nat env (always false)
              networkError H1 H2 H3 H4 H5 H6)
    as (_ & _ & Hcalls & _ & Herr & Hload & Hexc & _).
  repeat (split; [assumption|]). exact Hexc.
Defined.

(** * Further properties of the hook *)

(** ** The options handed to the transport *)

Lemma reserved_cases (k : string) :
  reserved k = false ->
  k <> "cancelToken" /\ k <> "onUploadProgress" /\ k <> "onDownloadProgress".
Proof.
  unfold reserved. rewrite !orb_false_iff, !String.eqb_neq. tauto.
Qed.

Lemma requestOptions_lookup (preferences : IClientConfig) (env : Env)
    (src : nat) :
  let options := requestOptions preferences env src in
  let raw := spread (rawConfig (config env)) in
  options !! "cancelToken" = Some (CancelTokenOf src)
  /\ options !! "onUploadProgress" = Some UploadHandler
  /\ options !! "onDownloadProgress" = Some DownloadHandler
  /\ (forall k s, reserved k = false ->
        raw !! k = Some s -> options !! k = Some s)
  /\ (raw !! "url" = None ->
      options !! "url" = Some (Text (url preferences env))).
Proof.
  intros options raw. subst options raw. unfold requestOptions.
  split; [by rewrite !lookup_insert_ne, lookup_insert_eq by done|].
  split; [by rewrite lookup_insert_ne, lookup_insert_eq by done|].
  split; [by rewrite lookup_insert_eq|].
  split.
  - intros k s Hk Hs. apply reserved_cases in Hk as (H1 & H2 & H3).
    rewrite !lookup_insert_ne by done.
    apply lookup_union_Some_l, Hs.
  - intros Hno. rewrite !lookup_insert_ne by done.
    rewrite lookup_union_r by done.
    by rewrite !lookup_insert_ne, lookup_insert_eq by done.
Qed.

(** ** What [request] does before the transport is reached *)

Lemma prologue_components (preferences : IClientConfig) (env : Env) (w : World) :
  exists w',
    prologue preferences env w = (Ok (nextSource w), w')
    /\ store w'
       = set_source (Some (nextSource w))
           (match sampling preferences with
            | Some _ =>
                set_progressUpdateInterval (Some (nextTimer w))
                  (resetForRequest (store w))
            | None => resetForRequest (store w)
            end)
    /\ timers w'
       = match sampling preferences with
         | Some d =>
             <[nextTimer w := {| callback := CbTick env; delay := d;
                                 recurring := true; due := now w + d |}]>
               (cleared (progressUpdateInterval (seen env)) (timers w))
         | None => timers w
         end
    /\ nextTimer w'
       = match sampling preferences with
         | Some _ => Pos.succ (nextTimer w)
         | None => nextTimer w
         end.
Proof.
  unfold prologue, sampling, cleared, resetForRequest. hook_cbn.
  rewrite logger_run. cbn.
  destruct (progressPrefs preferences) as [p|]; cbn.
  - destruct (truthyNum (progressInterval p)); cbn.
    + destruct (progressUpdateInterval (seen env)) as [h0|]; cbn;
        (eexists; split; [reflexivity|]); cbn; by repeat split.
    + eexists; split; [reflexivity|]; cbn; by repeat split.
  - eexists; split; [reflexivity|]; cbn; by repeat split.
Qed.

Lemma outerFinally_run (env : Env) (w : World) :
  after (outerFinally env) w
  = withTimers (cleared (progressUpdateInterval (seen env)))
      (withStore (set_loading false) w).
Proof.
  unfold outerFinally, cleared. hook_cbn.
  destruct (progressUpdateInterval (seen env)); [done|]. by destruct w.
Qed.

(** X1. A [fetch()] the cache does not answer resets [error] to null and the
    three progress cells to 0, sets [loading], stores a fresh cancel source,
    logs, and hands exactly one call to the transport, with the options of
    lines 204-233: the cancel token of the fresh source and, as url,
    [baseUrl] followed by [path] (by the text "undefined" when [path] is
    absent) unless the raw options [config.config] carry a url of their
    own, which then replaces it; [response], the cache, [retryCount] and
    [intervalId] are not written. *)
Theorem fetch_miss_starts_call (preferences : IClientConfig) (w : World)
    (r : nat) (env : Env) :
  renders w !! r = Some env ->
  cacheValid env (now w) = false ->
  let src := nextSource w in
  let target := baseUrl preferences +:+ show (path (config env)) in
  let options := requestOptions preferences env src in
  let raw := spread (rawConfig (config env)) in
  let w' := exec preferences (CallFetch r) w in
  loading (store w') = true
  /\ error (store w') = VNull
  /\ uploadProgress (store w') = 0%Q
  /\ downloadProgress (store w') = 0%Q
  /\ progress (store w') = 0%Q
  /\ source (store w') = Some src
  /\ pending w' = <[src := {| awaiting := env; cancelled := false |}]> (pending w)
  /\ trace w'
     = EvTransport src options
         :: (logged preferences "info" ("Making request to " +:+ target)
             ++ trace w)%list
  /\ options !! "cancelToken" = Some (CancelTokenOf src)
  /\ (raw !! "url" = None -> options !! "url" = Some (Text target))
  /\ (forall s, raw !! "url" = Some s -> options !! "url" = Some s)
  /\ transportCalls w' = S (transportCalls w)
  /\ response (store w') = response (store w)
  /\ cache (store w') = cache (store w)
  /\ cacheTime (store w') = cacheTime (store w)
  /\ retryCount (store w') = retryCount (store w)
  /\ intervalId (store w') = intervalId (store w).
Proof.
  intros Hr Hmiss src target options raw w'.
  destruct (request_miss preferences env w Hmiss) as (w1 & Hp & Hreq).
  destruct (prologue_run preferences env w)
    as (w2 & Hp2 & _ & Hpend & _ & _ & Htr & _).
  destruct (prologue_components preferences env w) as (w3 & Hp3 & Hst & _).
  assert (w2 = w1) as -> by congruence. assert (w3 = w1) as -> by congruence.
  assert (Hw' : w' = withPending
            (insert src {| awaiting := env; cancelled := false |})
            (withTrace (cons (EvTransport src options)) w1)).
  { subst w'. unfold exec, fetch. by rewrite Hr. }
  destruct (requestOptions_lookup preferences env src)
    as (Hc & _ & _ & Hraw & Hurl).
  assert (Hown : forall s, raw !! "url" = Some s -> options !! "url" = Some s).
  { intros s. by apply Hraw. }
  clearbody w'. subst w'. cbn [store pending trace withPending withTrace].
  unfold transportCalls. cbn [trace withPending withTrace].
  rewrite Hst, Hpend, Htr. unfold resetForRequest.
  destruct (sampling preferences); cbn; repeat split; try done;
    by rewrite List.filter_app, logged_no_transport.
Qed.

(** X2. A [fetch()] the cache answers never reaches the transport and
    suspends nothing; it still resets [error] and the progress cells,
    ends with [loading] false, and leaves in [source] a fresh cancel source
    that no call is attached to (only the transport path resets [source]):
    a [cancel()] through a render that sees it changes nothing. *)
Theorem fetch_hit_leaves_idle_source (preferences : IClientConfig) (w : World)
    (r : nat) (env : Env) :
  renders w !! r = Some env ->
  cacheValid env (now w) = true ->
  let w' := exec preferences (CallFetch r) w in
  loading (store w') = false
  /\ error (store w') = VNull
  /\ uploadProgress (store w') = 0%Q
  /\ downloadProgress (store w') = 0%Q
  /\ progress (store w') = 0%Q
  /\ source (store w') = Some (nextSource w)
  /\ pending w' = pending w
  /\ transportCalls w' = transportCalls w
  /\ response (store w') = response (store w)
  /\ cache (store w') = cache (store w)
  /\ (pending w !! nextSource w = None ->
      forall later, source (seen later) = Some (nextSource w) ->
        after (cancel later) w' = w').
Proof.
  intros Hr Hhit w'.
  destruct (request_hit preferences env w Hhit) as (w1 & Hp & Hreq).
  destruct (prologue_run preferences env w)
    as (w2 & Hp2 & _ & Hpend & _ & _ & Htr & _).
  destruct (prologue_components preferences env w) as (w3 & Hp3 & Hst & _).
  assert (w2 = w1) as -> by congruence. assert (w3 = w1) as -> by congruence.
  assert (Hw' : w' = after (outerFinally env) w1).
  { subst w'. unfold exec, fetch. by rewrite Hr. }
  clearbody w'. subst w'. rewrite outerFinally_run.
  cbn [store pending trace withTimers withStore].
  unfold transportCalls. cbn [trace withTimers withStore].
  rewrite Hst, Hpend, Htr, List.filter_app, logged_no_transport.
  unfold resetForRequest.
  assert (Hcancel : pending w !! nextSource w = None ->
            forall later, source (seen later) = Some (nextSource w) ->
            after (cancel later)
              (withTimers (cleared (progressUpdateInterval (seen env)))
                 (withStore (set_loading false) w1))
            = withTimers (cleared (progressUpdateInterval (seen env)))
                (withStore (set_loading false) w1)).
  { intros Hnone later Hl. unfold cancel, source_cancel. rewrite Hl. hook_cbn.
    unfold withPending. cbn. rewrite Hpend, Hnone. by rewrite <- Hpend. }
  destruct (sampling preferences); cbn; by repeat split.
Qed.

Lemma request_miss_calls_transport (preferences : IClientConfig) (env : Env)
    (w : World) :
  cacheValid env (now w) = false ->
  let w' := after (request preferences env) w in
  transportCalls w' = S (transportCalls w)
  /\ pending w' !! nextSource w = Some {| awaiting := env; cancelled := false |}
  /\ hd_error (trace w') = Some (EvTransport (nextSource w)
                                 (requestOptions preferences env (nextSource w))).
Proof.
  intros Hmiss w'.
  destruct (request_miss preferences env w Hmiss) as (w1 & Hp & Hreq).
  destruct (prologue_run preferences env w)
    as (w2 & Hp2 & _ & Hpend & _ & _ & Htr & _).
  assert (w2 = w1) as -> by congruence.
  subst w'. rewrite Hreq. unfold transportCalls. cbn. rewrite Htr.
  rewrite List.filter_app, logged_no_transport. split; [done|].
  split; [apply lookup_insert_eq|done].
Qed.

Lemma request_hit_calls_nothing (preferences : IClientConfig) (env : Env)
    (w : World) :
  cacheValid env (now w) = true ->
  transportCalls (after (request preferences env) w) = transportCalls w.
Proof.
  intros Hhit.
  destruct (request_hit preferences env w Hhit) as (w1 & Hp & ->).
  destruct (prologue_run preferences env w)
    as (w2 & Hp2 & _ & _ & _ & _ & Htr & _).
  assert (w2 = w1) as -> by congruence.
  unfold transportCalls. rewrite outerFinally_trace, Htr.
  by rewrite List.filter_app, logged_no_transport.
Qed.

Lemma exec_fetch (preferences : IClientConfig) (w : World) (r : nat) (env : Env) :
  renders w !! r = Some env ->
  exec preferences (CallFetch r) w = after (request preferences env) w.
Proof. intros Hr. unfold exec, fetch. by rewrite Hr. Qed.

(** X3. Whether [fetch()] reaches the transport is decided by the render's
    cache alone: it is answered from the cache exactly when [ttl] is set
    and not 0, the cached payload is truthy and the clock is before
    [cacheTime + ttl]; otherwise the transport is invoked once.  So an
    expired cache, an absent or zero [ttl], and a cached payload that is
    falsy (null, 0, the empty string, false) all go to the transport. *)
Theorem fetch_reaches_transport_unless_cached (preferences : IClientConfig)
    (w : World) (r : nat) (env : Env) :
  renders w !! r = Some env ->
  let w' := exec preferences (CallFetch r) w in
  let cached :=
    exists d, ttl (config env) = Some d /\ d <> 0
      /\ truthy (cache (seen env)) = true
      /\ now w < cacheTime (seen env) + d in
  (cached -> transportCalls w' = transportCalls w)
  /\ (~ cached -> transportCalls w' = S (transportCalls w))
  /\ (truthy (cache (seen env)) = false ->
      transportCalls w' = S (transportCalls w))
  /\ (forall d, ttl (config env) = Some d ->
      cacheTime (seen env) + d <= now w ->
      transportCalls w' = S (transportCalls w)).
Proof.
  intros Hr w' cached.
  assert (Hiff : cacheValid env (now w) = true <-> cached).
  { unfold cacheValid, cached. destruct (ttl (config env)) as [d|].
    - rewrite !andb_true_iff, negb_true_iff, Z.eqb_neq, Z.ltb_lt. split.
      + intros [[H1 H2] H3]. by exists d.
      + intros (d' & [= <-] & H1 & H2 & H3). done.
    - split; [discriminate|]. by intros (d & H & _). }
  assert (Hhit : cacheValid env (now w) = true ->
                 transportCalls w' = transportCalls w).
  { intros H. subst w'. rewrite (exec_fetch _ _ _ _ Hr).
    by apply request_hit_calls_nothing. }
  assert (Hmiss : cacheValid env (now w) = false ->
                  transportCalls w' = S (transportCalls w)).
  { intros H. subst w'. rewrite (exec_fetch _ _ _ _ Hr).
    by apply request_miss_calls_transport. }
  split; [|split; [|split]].
  - intros Hc. by apply Hhit, Hiff.
  - intros Hn. apply Hmiss. destruct (cacheValid env (now w)); [|done].
    exfalso. by apply Hn, Hiff.
  - intros Hf. apply Hmiss. destruct (cacheValid env (now w)); [|done].
    destruct (proj1 Hiff eq_refl) as (d & _ & _ & Ht & _). congruence.
  - intros d Hd Hexp. apply Hmiss.
    destruct (cacheValid env (now w)); [|done].
    destruct (proj1 Hiff eq_refl) as (d' & Hd' & _ & _ & Hlt). simplify_eq. lia.
Qed.

(** ** How a call ends *)

(** Splits on the way [resume] goes and rewrites with the matching
    equation. *)
Ltac resume_cases preferences env outcome w :=
  let data := fresh "data" in
  let e := fresh "e" in
  let cond := fresh "cond" in
  let Hcancel := fresh "Hcancel" in
  let Hallowed := fresh "Hallowed" in
  let Hcond := fresh "Hcond" in
  let Haccept := fresh "Haccept" in
  destruct outcome as [data|e];
  [ rewrite (resume_resolved preferences env data w)
  | destruct (isCancel e) eqn:Hcancel;
    [ destruct e; try discriminate Hcancel;
      rewrite (resume_cancellation preferences env _ w)
    | destruct (retryAllowed preferences env) eqn:Hallowed;
      [ destruct (retry preferences ≫= retryCondition) as [cond|] eqn:Hcond;
        [ destruct (cond e) eqn:Haccept;
          [ rewrite (resume_retries preferences env e cond w
                       Hcancel Hallowed Hcond Haccept)
          | rewrite (resume_declined preferences env e cond w
                       Hcancel Hallowed Hcond Haccept) ]
        | rewrite (resume_falls_through preferences env e w
                     Hcancel Hallowed Hcond) ]
      | rewrite (resume_gives_up preferences env e w Hcancel Hallowed) ] ] ];
  rewrite outerFinally_run, ?outerCatch_run.

(** X4. When a call completes successfully, the payload becomes [response];
    it is written to the cache, with the time of completion as
    [cacheTime], exactly when the [ttl] of the render that made the call is
    set and not 0; [loading] is cleared and [source] reset; [error],
    [retryCount], the progress cells and [intervalId] keep their values; the
    only timer touched is the progress timer that render saw, which is
    cleared. *)
Theorem settle_resolved_stores_payload (preferences : IClientConfig)
    (w : World) (src : nat) (p : Pending) (data : value) :
  pending w !! src = Some p ->
  cancelled p = false ->
  let env := awaiting p in
  let w' := exec preferences (Settle src (Resolved data)) w in
  response (store w') = data
  /\ cache (store w')
     = (if truthyNum (ttl (config env)) then data else cache (store w))
  /\ cacheTime (store w')
     = (if truthyNum (ttl (config env)) then now w else cacheTime (store w))
  /\ loading (store w') = false
  /\ source (store w') = None
  /\ error (store w') = error (store w)
  /\ retryCount (store w') = retryCount (store w)
  /\ uploadProgress (store w') = uploadProgress (store w)
  /\ downloadProgress (store w') = downloadProgress (store w)
  /\ progress (store w') = progress (store w)
  /\ intervalId (store w') = intervalId (store w)
  /\ timers w' = cleared (progressUpdateInterval (seen env)) (timers w)
  /\ trace w' = (completionLog preferences env ++ trace w)%list
  /\ pending w' = delete src (pending w).
Proof.
  intros Hp Hnc env w'. subst w'. unfold exec. rewrite Hp.
  unfold delivered. rewrite Hnc. fold env.
  rewrite resume_resolved, outerFinally_run.
  destruct (truthyNum (ttl (config env))); cbn; by repeat split.
Qed.

(** X5. However a call ends (payload, failure, cancellation; retried,
    surfaced or dropped), its completion clears [loading], resets [source]
    to null, removes the call from the calls in flight, invokes the
    transport no further, arms at most one timer, and writes neither the
    progress cells nor [intervalId]; [response], the cache and [cacheTime]
    are written only if the call was not cancelled and the transport
    delivered a payload. *)
Theorem settle_always_clears_loading (preferences : IClientConfig)
    (w : World) (src : nat) (p : Pending) (outcome : Outcome) :
  pending w !! src = Some p ->
  let w' := exec preferences (Settle src outcome) w in
  loading (store w') = false
  /\ source (store w') = None
  /\ pending w' = delete src (pending w)
  /\ transportCalls w' = transportCalls w
  /\ (nextTimer w' = nextTimer w \/ nextTimer w' = Pos.succ (nextTimer w))
  /\ uploadProgress (store w') = uploadProgress (store w)
  /\ downloadProgress (store w') = downloadProgress (store w)
  /\ progress (store w') = progress (store w)
  /\ intervalId (store w') = intervalId (store w)
  /\ ((forall data, delivered p outcome <> Resolved data) ->
      response (store w') = response (store w)
      /\ cache (store w') = cache (store w)
      /\ cacheTime (store w') = cacheTime (store w)).
Proof.
  intros Hp w'. subst w'. unfold exec. rewrite Hp.
  set (env := awaiting p). set (w0 := withPending (delete src) w).
  assert (Hlog : forall l m,
            length (List.filter isTransport (logged preferences l m ++ trace w))
            = length (List.filter isTransport (trace w))).
  { intros l m. by rewrite List.filter_app, logged_no_transport. }
  unfold transportCalls.
  generalize (delivered p outcome). intros o.
  resume_cases preferences env o w0; cbn;
    unfold failureLog, completionLog; rewrite ?Hlog;
    try (destruct (truthyNum (ttl (config env))); cbn);
    try (destruct (onException preferences); cbn; rewrite ?Hlog);
    repeat split; auto;
    try (exfalso;
         match goal with
         | H : forall d, Resolved _ <> Resolved d |- _ => by eapply H
         end).
Qed.

(** X6. When a call fails (not by cancellation) below the retry limit and
    [retryCondition] accepts the error, its completion arms one one-shot
    timer, due after [retryInterval] (1000 when absent or 0), that runs
    [request] of the render that made the call; [retryCount] becomes the
    count that render saw plus one, whatever the live count was; [error]
    is not written and [onException] is not called.  When the timer
    fires, it is gone and the transport is invoked once more, unless that
    render's cache answers. *)
Theorem settle_schedules_retry (preferences : IClientConfig) (w : World)
    (src : nat) (p : Pending) (e : value) (cond : value -> bool) :
  pending w !! src = Some p ->
  cancelled p = false ->
  isCancel e = false ->
  retryAllowed preferences (awaiting p) = true ->
  retry preferences ≫= retryCondition = Some cond ->
  cond e = true ->
  progressUpdateInterval (seen (awaiting p)) <> Some (nextTimer w) ->
  let env := awaiting p in
  let wait := orNum (retry preferences ≫= retryInterval) 1000 in
  let w' := exec preferences (Settle src (Rejected e)) w in
  timers w'
  = <[nextTimer w := {| callback := CbRequest env; delay := wait;
                        recurring := false; due := now w + wait |}]>
      (cleared (progressUpdateInterval (seen env)) (timers w))
  /\ retryCount (store w') = retryCount (seen env) + 1
  /\ error (store w') = error (store w)
  /\ List.filter isOnException (trace w') = List.filter isOnException (trace w)
  /\ loading (store w') = false
  /\ (0 <= wait ->
      let w'' := run preferences [Advance wait; Fire (nextTimer w)] w' in
      timers w'' !! nextTimer w = None
      /\ (cacheValid env (now w + wait) = false ->
          transportCalls w'' = S (transportCalls w'))).
Proof.
  intros Hp Hnc Hc Hal Hcond Hacc Hfresh env wait w'.
  assert (Hw' : w' = after (outerFinally env)
            (withStore (set_source None)
               (after (setTimeout (CbRequest env) wait)
                  (withStore (set_retryCount (retryCount (seen env) + 1))
                     (withTrace (app (failureLog preferences env))
                        (withPending (delete src) w)))))).
  { subst w'. unfold exec. rewrite Hp. unfold delivered. rewrite Hnc.
    by rewrite (resume_retries preferences env e cond _ Hc Hal Hcond Hacc). }
  clearbody w'. subst w'. rewrite outerFinally_run.
  set (tm := {| callback := CbRequest env; delay := wait;
                recurring := false; due := now w + wait |}).
  set (w' := withTimers _ _).
  assert (Htimers : timers w'
            = <[nextTimer w := tm]>
                (cleared (progressUpdateInterval (seen env)) (timers w))).
  { subst w'. hook_cbn. unfold cleared. subst env.
    destruct (progressUpdateInterval (seen (awaiting p))) as [h|]; [|done].
    apply delete_insert_ne. congruence. }
  assert (Hnow : now w' = now w) by done.
  assert (Hnext : nextTimer w' = Pos.succ (nextTimer w)) by done.
  split; [done|]. split; [done|]. split; [done|].
  split.
  { subst w'. hook_cbn. unfold failureLog.
    by rewrite List.filter_app, logged_no_onException. }
  split; [done|]. intros Hwait. cbn [run fold_left].
  assert (Hadv : exec preferences (Advance wait) w' = withNow (Z.add wait) w').
  { unfold exec. by destruct (Z.leb_spec 0 wait); [|lia]. }
  rewrite Hadv. clearbody w'. unfold exec. cbn [timers withNow].
  rewrite Htimers, lookup_insert_eq. cbn [due tm now withNow].
  destruct (Z.leb_spec (now w + wait) (wait + now w')); [|lia].
  unfold rearm. cbn [recurring runCallback callback tm].
  set (w1 := withTimers (delete (nextTimer w)) (withNow (Z.add wait) w')).
  assert (Hnone : timers w1 !! nextTimer w = None).
  { subst w1. cbn. apply lookup_delete_eq. }
  assert (Hn1 : nextTimer w1 = Pos.succ (nextTimer w)) by done.
  split.
  - destruct (prologue_components preferences env w1) as (w2 & Hpr & _ & Ht2 & _).
    assert (H2 : timers w2 !! nextTimer w = None).
    { rewrite Ht2. destruct (sampling preferences); [|done].
      rewrite lookup_insert_ne by lia.
      unfold cleared. destruct (progressUpdateInterval (seen env)); [|done].
      rewrite lookup_delete. by case_decide. }
    destruct (cacheValid env (now w1)) eqn:Ecache.
    + destruct (request_hit preferences env w1 Ecache) as (w4 & Hpr4 & ->).
      assert (w4 = w2) as -> by congruence.
      destruct (timers (after (outerFinally env) w2) !! nextTimer w)
        as [t|] eqn:E; [|done].
      apply outerFinally_timers in E. congruence.
    + destruct (request_miss preferences env w1 Ecache) as (w4 & Hpr4 & ->).
      assert (w4 = w2) as -> by congruence. done.
  - intros Hmiss.
    assert (Hmiss1 : cacheValid env (now w1) = false).
    { subst w1. cbn. by rewrite Hnow, Z.add_comm. }
    by destruct (request_miss_calls_transport preferences env w1 Hmiss1) as [-> _].
Qed.

Lemma filter_onException_log (preferences : IClientConfig) (l m : string)
    (evs : list Event) :
  List.filter isOnException (logged preferences l m ++ evs)
  = List.filter isOnException evs.
Proof. by rewrite List.filter_app, logged_no_onException. Qed.

(** X7. The completion of a call arms a timer exactly when the call failed
    with an error that is not a cancellation, retry is enabled, the count
    the call's render saw is below the limit, a [retryCondition] is
    configured and it accepts the error.  So nothing is retried after a
    cancellation, without a [retry] configuration, or without a
    [retryCondition]. *)
Theorem settle_arms_timer_iff_accepted (preferences : IClientConfig)
    (w : World) (src : nat) (p : Pending) (outcome : Outcome) :
  pending w !! src = Some p ->
  let env := awaiting p in
  let w' := exec preferences (Settle src outcome) w in
  let accepted :=
    exists e cond,
      delivered p outcome = Rejected e
      /\ isCancel e = false
      /\ retryAllowed preferences env = true
      /\ retry preferences ≫= retryCondition = Some cond
      /\ cond e = true in
  (accepted -> nextTimer w' = Pos.succ (nextTimer w))
  /\ (~ accepted -> nextTimer w' = nextTimer w /\ forall h t,
        timers w' !! h = Some t -> timers w !! h = Some t)
  /\ (cancelled p = true -> ~ accepted)
  /\ (retry preferences = None -> ~ accepted)
  /\ (retry preferences ≫= retryCondition = None -> ~ accepted).
Proof.
  intros Hp env w' accepted.
  assert (Hcleared : forall (m : gmap positive Timer) h t,
            cleared (progressUpdateInterval (seen env)) m !! h = Some t ->
            m !! h = Some t).
  { intros m h t. unfold cleared.
    destruct (progressUpdateInterval (seen env)); [|done].
    rewrite lookup_delete. by case_decide. }
  assert (Hmain : (accepted -> nextTimer w' = Pos.succ (nextTimer w))
            /\ (~ accepted -> nextTimer w' = nextTimer w /\ forall h t,
                  timers w' !! h = Some t -> timers w !! h = Some t)).
  { subst w' accepted. unfold exec. rewrite Hp. fold env.
    set (w0 := withPending (delete src) w).
    generalize (delivered p outcome). intros o.
    resume_cases preferences env o w0; hook_cbn;
      try (destruct (truthyNum (ttl (config env))); cbn);
      (split;
       [ intros (e' & c' & He & Hc' & Ha & Hco & Hacc); simplify_eq;
         try congruence; done
       | intros Hn; try (split; [done|by apply Hcleared]) ]).
    all: exfalso; apply Hn; do 2 eexists; repeat split; eassumption. }
  destruct Hmain as [H1 H2]. split; [done|]. split; [done|].
  subst accepted. unfold delivered. split; [|split].
  - intros Hc (e & c & He & Hnc & _). rewrite Hc in He. by simplify_eq.
  - intros Hr (e & c & _ & _ & Ha & _). unfold retryAllowed in Ha.
    rewrite Hr in Ha. done.
  - intros Hr (e & c & _ & _ & _ & Hc & _). congruence.
Qed.

(** X8. The completion of a call writes [error] and calls [onException]
    only when the call failed with an error that is not a cancellation and
    either retry is not allowed (disabled, or the count the render saw has
    reached the limit) or the [retryCondition] declines the error; then
    [error] is that error and [onException], if configured, is called once
    with it.  In every other case (payload, cancellation, accepted retry,
    no [retryCondition]) [error] keeps its value and [onException] is not
    called.  A decline by [retryCondition] leaves [retryCount] as it was;
    only running out of retries resets it. *)
Theorem settle_surfaces_error_iff (preferences : IClientConfig)
    (w : World) (src : nat) (p : Pending) (outcome : Outcome) :
  pending w !! src = Some p ->
  let env := awaiting p in
  let w' := exec preferences (Settle src outcome) w in
  let declined e :=
    exists cond, retryAllowed preferences env = true
      /\ retry preferences ≫= retryCondition = Some cond /\ cond e = false in
  let surfaced e :=
    delivered p outcome = Rejected e /\ isCancel e = false
    /\ (retryAllowed preferences env = false \/ declined e) in
  (forall e, surfaced e ->
     error (store w') = e
     /\ List.filter isOnException (trace w')
        = ((if onException preferences then [EvOnException e] else [])
           ++ List.filter isOnException (trace w))%list)
  /\ ((forall e, ~ surfaced e) ->
      error (store w') = error (store w)
      /\ List.filter isOnException (trace w')
         = List.filter isOnException (trace w))
  /\ (forall e, delivered p outcome = Rejected e -> isCancel e = false ->
      declined e -> retryCount (store w') = retryCount (store w))
  /\ (forall e, delivered p outcome = Rejected e -> isCancel e = false ->
      retryAllowed preferences env = false -> retryCount (store w') = 0).
Proof.
  intros Hp env w' declined surfaced.
  subst w' surfaced declined. unfold exec. rewrite Hp. fold env.
  set (w0 := withPending (delete src) w).
  generalize (delivered p outcome). intros o.
  resume_cases preferences env o w0; hook_cbn;
    unfold failureLog, completionLog;
    try (destruct (truthyNum (ttl (config env))); cbn);
    try (destruct (onException preferences); cbn);
    rewrite ?filter_onException_log;
    (split; [|split; [|split]]).
  all: try (intros e' (He & Hc' & Hs); simplify_eq; try congruence;
            try (destruct Hs as [Hs|(c' & Ha & Hco & Hd)]; congruence); done).
  all: try (intros e' He Hc' Ha; simplify_eq; try congruence;
            try (destruct Ha as (c' & Ha & Hco & Hd); congruence); done).
  all: intros Hn; first [by split | exfalso].
  all: eapply Hn; repeat split; try eassumption; try reflexivity.
  all: first [by left | right; eexists; repeat split; eassumption].
Qed.

(** ** Progress events *)

Lemma Math_round_nearestPercent (l t : Z) :
  t <> 0 ->
  Math_round (inject_Z (l * 100) / inject_Z t) = nearestPercent l t.
Proof.
  intros Ht. unfold Math_round, nearestPercent.
  rewrite (Zdiv_Qdiv (200 * l + t) (2 * t)).
  apply Qfloor_comp.
  rewrite !inject_Z_plus, !inject_Z_mult.
  assert (Hq : ~ (inject_Z t == 0)%Q).
  { change 0%Q with (inject_Z 0). rewrite inject_Z_injective. done. }
  change (inject_Z 100) with 100%Q. change (inject_Z 200) with 200%Q.
  change (inject_Z 2) with 2%Q. field. done.
Qed.

(** X9. A progress event without a usable total (absent, or 0) is ignored
    altogether: neither progress cell changes and the user's progress
    callback is not called. *)
Theorem progress_event_without_total_is_ignored (preferences : IClientConfig)
    (ev : ProgressEvent) (w : World) :
  total ev = None \/ total ev = Some 0 ->
  onUpload preferences ev w = (Ok tt, w)
  /\ onDownload preferences ev w = (Ok tt, w).
Proof.
  intros [H|H]; unfold onUpload, onDownload, updateProgress; by rewrite H.
Qed.

(** X10. A progress event with a total writes the nearest whole percentage
    of [loaded] out of [total] (halves upwards) to its own cell only,
    [uploadProgress] for an upload event and [downloadProgress] for a
    download event, and then calls the matching user callback if one is
    configured; [progress] itself is not recomputed.  The percentage is
    within half a point of the exact ratio, and a transfer that has loaded
    its total reports 100.  This is for the events on which the source's
    binary64 arithmetic rounds as the exact one does (see [Math_round]):
    nothing loaded below 0, a positive total, and
    [200 * loaded + 2 * total] below 2^53. *)
Theorem progress_event_sets_nearest_percentage (preferences : IClientConfig)
    (ev : ProgressEvent) (t : Z) (w : World) :
  total ev = Some t ->
  0 <= loaded ev ->
  0 < t ->
  200 * loaded ev + 2 * t < 2 ^ 53 ->
  let pc := nearestPercent (loaded ev) t in
  after (onUpload preferences ev) w
  = withTrace (app (uploadCallback preferences ev))
      (withStore (set_uploadProgress (inject_Z pc)) w)
  /\ after (onDownload preferences ev) w
     = withTrace (app (downloadCallback preferences ev))
         (withStore (set_downloadProgress (inject_Z pc)) w)
  /\ 200 * loaded ev - t < 2 * t * pc <= 200 * loaded ev + t
  /\ 0 <= pc
  /\ (loaded ev = t -> pc = 100).
Proof.
  intros Ht Hl Hpos Hrange pc. assert (Hne : t <> 0) by lia.
  assert (Hup : after (onUpload preferences ev) w
            = withTrace (app (uploadCallback preferences ev))
                (withStore (set_uploadProgress (inject_Z pc)) w)).
  { unfold onUpload, updateProgress, uploadCallback. rewrite Ht.
    destruct (Z.eqb_spec t 0); [done|].
    rewrite (Math_round_nearestPercent _ _ Hne). fold pc. hook_cbn.
    destruct (progressPrefs preferences) as [p|]; cbn;
      [destruct (onUploadProgress p); cbn|]; by destruct w. }
  assert (Hdown : after (onDownload preferences ev) w
            = withTrace (app (downloadCallback preferences ev))
                (withStore (set_downloadProgress (inject_Z pc)) w)).
  { unfold onDownload, updateProgress, downloadCallback. rewrite Ht.
    destruct (Z.eqb_spec t 0); [done|].
    rewrite (Math_round_nearestPercent _ _ Hne). fold pc. hook_cbn.
    destruct (progressPrefs preferences) as [p|]; cbn;
      [destruct (onDownloadProgress p); cbn|]; by destruct w. }
  split; [done|]. split; [done|]. subst pc. unfold nearestPercent.
  split; [|split].
  - pose proof (Z.mul_div_le (200 * loaded ev + t) (2 * t)).
    pose proof (Z.mul_succ_div_gt (200 * loaded ev + t) (2 * t)). lia.
  - apply Z.div_pos; lia.
  - intros E. rewrite E.
    replace (200 * t + t) with (100 * (2 * t) + t) by lia.
    rewrite Z.div_add_l by lia. rewrite Z.div_small; lia.
Qed.

(** ** What only the completion of a call may write *)

(** Splits [preserves I m] along [m] and closes the leaves whose effect [I]
    does not see. *)
Ltac frame :=
  repeat pres_step;
  try (intros ? ?; rewrite ?logger_after; assumption).

Lemma prologue_sameResults (preferences : IClientConfig) (env : Env) (w0 : World) :
  preserves (sameResults w0) (prologue preferences env).
Proof.
  unfold prologue, setInterval. frame.
  intros w (H1 & H2 & H3 & H4 & H5). rewrite logger_after.
  repeat split; try done. cbn. by rewrite filter_onException_log.
Qed.

Lemma request_sameResults (preferences : IClientConfig) (env : Env) (w0 : World) :
  preserves (sameResults w0) (request preferences env).
Proof.
  intros w Hw. pose proof (prologue_sameResults preferences env w0 w Hw) as H.
  unfold after in H.
  destruct (cacheValid env (now w)) eqn:E.
  - destruct (request_hit preferences env w E) as (w1 & Hp & ->).
    rewrite Hp in H. by rewrite outerFinally_run.
  - destruct (request_miss preferences env w E) as (w1 & Hp & ->).
    rewrite Hp in H. done.
Qed.

Lemma stopPolling_sameResults (env : Env) (w0 : World) :
  preserves (sameResults w0) (stopPolling env).
Proof. unfold stopPolling. frame. Qed.

Lemma startPolling_sameResults (env : Env) (w0 : World) :
  preserves (sameResults w0) (startPolling env).
Proof. unfold startPolling, stopPolling, setInterval. frame. Qed.

Lemma progress_sameResults (preferences : IClientConfig) (ev : ProgressEvent)
    (w0 : World) :
  preserves (sameResults w0) (onUpload preferences ev)
  /\ preserves (sameResults w0) (onDownload preferences ev).
Proof.
  unfold onUpload, onDownload, updateProgress.
  destruct (progressPrefs preferences) as [p|];
    [destruct (onUploadProgress p), (onDownloadProgress p)|]; split; frame.
Qed.

Lemma tick_sameResults (preferences : IClientConfig) (env : Env) (w0 : World) :
  preserves (sameResults w0) (triggerProgressChange preferences env).
Proof. unfold triggerProgressChange. frame. Qed.

(** X11. Only the completion of a transport call writes [response], the
    cache, [cacheTime] and [retryCount], and only it calls [onException]:
    a render, [fetch()], [cancel()], [polling.resume()],
    [polling.pause()], a progress event, a timer that fires and the
    passing of time leave all of them as they were. *)
Theorem only_completion_writes_results (preferences : IClientConfig)
    (a : Action) (w : World) :
  isSettle a = false ->
  sameResults w (exec preferences a w).
Proof.
  intros Ha.
  assert (Hw : sameResults w w) by by repeat split.
  destruct a as [cfg|r|r|r|r|src outcome|src ev|src ev|h|dt];
    try discriminate Ha; cbn [exec].
  - set (env := {| seen := store w; config := cfg |}).
    assert (Hp : preserves (sameResults w)
                   (effectCleanup (last (renders w));; effect env)).
    { apply preserves_bind.
      - unfold effectCleanup. destruct (last (renders w)); [|apply preserves_ret].
        apply stopPolling_sameResults.
      - intros _. unfold effect. apply preserves_when, startPolling_sameResults. }
    by apply Hp.
  - destruct (renders w !! r); [|done]. by apply request_sameResults.
  - destruct (renders w !! r) as [env|]; [|done].
    assert (Hp : preserves (sameResults w) (cancel env)).
    { unfold cancel, source_cancel. frame. }
    by apply Hp.
  - destruct (renders w !! r); [|done]. by apply startPolling_sameResults.
  - destruct (renders w !! r); [|done]. by apply stopPolling_sameResults.
  - destruct (pending w !! src); [|done]. by apply progress_sameResults.
  - destruct (pending w !! src); [|done]. by apply progress_sameResults.
  - destruct (timers w !! h) as [t|]; [|done].
    destruct (due t <=? now w); [|done].
    assert (Hre : sameResults w (rearm h t w)).
    { unfold rearm. by destruct (recurring t). }
    destruct (callback t); cbn.
    + by apply request_sameResults.
    + by apply tick_sameResults.
  - by destruct (0 <=? dt).
Qed.

Lemma stopPolling_sameCallState (env : Env) (w0 : World) :
  preserves (sameCallState w0) (stopPolling env).
Proof. unfold stopPolling. frame. Qed.

Lemma startPolling_sameCallState (env : Env) (w0 : World) :
  preserves (sameCallState w0) (startPolling env).
Proof. unfold startPolling, stopPolling, setInterval. frame. Qed.

Lemma progress_sameCallState (preferences : IClientConfig) (ev : ProgressEvent)
    (w0 : World) :
  preserves (sameCallState w0) (onUpload preferences ev)
  /\ preserves (sameCallState w0) (onDownload preferences ev).
Proof.
  unfold onUpload, onDownload, updateProgress.
  destruct (progressPrefs preferences) as [p|];
    [destruct (onUploadProgress p), (onDownloadProgress p)|]; split; frame.
Qed.

Lemma cancel_sameCallState (env : Env) (w0 : World) :
  preserves (sameCallState w0) (cancel env).
Proof.
  unfold cancel. destruct (source (seen env)) as [s|]; [|apply preserves_ret].
  intros w (H1 & H2 & H3 & H4 & H5). repeat split; try done.
  rewrite <- H4. unfold source_cancel. hook_cbn.
  destruct (pending w !! s) as [q|] eqn:E; [|done].
  rewrite dom_insert_L. apply elem_of_dom_2 in E.
  apply set_eq. intros x. rewrite elem_of_union, elem_of_singleton.
  split; [intros [->|]; done|by right].
Qed.

(** X12. Nothing but [fetch()], a timer that fires and the completion of a
    call touches the call in progress: a render (with its polling effect),
    [cancel()], [polling.resume()], [polling.pause()], a progress event and
    the passing of time leave [loading], [error] and [source] as they
    were, invoke the transport not at all and neither add nor remove a call
    in flight.  So [cancel()] does not clear [loading] by itself, and
    [polling.resume()] fetches nothing until its timer first fires. *)
Theorem passive_actions_keep_call_state (preferences : IClientConfig)
    (a : Action) (w : World) :
  runsRequest a = false ->
  sameCallState w (exec preferences a w).
Proof.
  intros Ha.
  assert (Hw : sameCallState w w) by by repeat split.
  destruct a as [cfg|r|r|r|r|src outcome|src ev|src ev|h|dt];
    try discriminate Ha; cbn [exec].
  - set (env := {| seen := store w; config := cfg |}).
    assert (Hp : preserves (sameCallState w)
                   (effectCleanup (last (renders w));; effect env)).
    { apply preserves_bind.
      - unfold effectCleanup. destruct (last (renders w)); [|apply preserves_ret].
        apply stopPolling_sameCallState.
      - intros _. unfold effect.
        apply preserves_when, startPolling_sameCallState. }
    by apply Hp.
  - destruct (renders w !! r); [|done]. by apply cancel_sameCallState.
  - destruct (renders w !! r); [|done]. by apply startPolling_sameCallState.
  - destruct (renders w !! r); [|done]. by apply stopPolling_sameCallState.
  - destruct (pending w !! src); [|done]. by apply progress_sameCallState.
  - destruct (pending w !! src); [|done]. by apply progress_sameCallState.
  - by destruct (0 <=? dt).
Qed.

(** ** Poll timers *)

Lemma pollAt_delete (w : World) (h h' : positive) :
  pollAt (withTimers (delete h) w) h' -> pollAt w h'.
Proof.
  intros (t & Ht & Hp). cbn in Ht. rewrite lookup_delete in Ht.
  case_decide; [done|]. by exists t.
Qed.

Lemma pollAt_insert_other (w : World) (h h' : positive) (tm : Timer) :
  isPoll tm = false ->
  pollAt (withTimers (insert h tm) w) h' -> pollAt w h'.
Proof.
  intros Hno (t & Ht & Hp). cbn in Ht. rewrite lookup_insert in Ht.
  case_decide; [simplify_eq; congruence|]. by exists t.
Qed.

Lemma clearInterval_pollingUntouched (h : positive) (w0 : World) :
  preserves (pollingUntouched w0) (clearInterval h).
Proof.
  intros w (H1 & H2 & H3). split; [|done].
  intros h' Hp. apply H1. by apply pollAt_delete in Hp.
Qed.

Lemma armTimer_pollingUntouched (cb : Callback) (d : Z) (rec : bool) (w0 : World) :
  match cb with CbRequest _ => rec = false | CbTick _ => True end ->
  preserves (pollingUntouched w0) (armTimer cb d rec).
Proof.
  intros Hcb w (H1 & H2 & H3). split; [|done].
  intros h' (t & Ht & Hp). apply H1. cbn in Ht. rewrite lookup_insert in Ht.
  case_decide; [|by exists t]. simplify_eq. unfold isPoll in Hp. cbn in Hp.
  destruct cb; [congruence|done].
Qed.

(** Like [frame], with the two timer operations. *)
Ltac frame_polling :=
  repeat pres_step;
  try apply clearInterval_pollingUntouched;
  try (apply armTimer_pollingUntouched; done);
  try (intros ? ?; rewrite ?logger_after; assumption).

Lemma prologue_pollingUntouched (preferences : IClientConfig) (env : Env)
    (w0 : World) :
  preserves (pollingUntouched w0) (prologue preferences env).
Proof. unfold prologue, setInterval. frame_polling. Qed.

Lemma outerFinally_pollingUntouched (env : Env) (w0 : World) :
  preserves (pollingUntouched w0) (outerFinally env).
Proof. unfold outerFinally. frame_polling. Qed.

Lemma request_pollingUntouched (preferences : IClientConfig) (env : Env)
    (w0 : World) :
  preserves (pollingUntouched w0) (request preferences env).
Proof.
  intros w Hw. pose proof (prologue_pollingUntouched preferences env w0 w Hw) as H.
  unfold after in H.
  destruct (cacheValid env (now w)) eqn:E.
  - destruct (request_hit preferences env w E) as (w1 & Hp & ->).
    rewrite Hp in H. by apply outerFinally_pollingUntouched.
  - destruct (request_miss preferences env w E) as (w1 & Hp & ->).
    rewrite Hp in H. done.
Qed.

Lemma resume_pollingUntouched (preferences : IClientConfig) (env : Env)
    (outcome : Outcome) (w0 : World) :
  preserves (pollingUntouched w0) (resume preferences env outcome).
Proof.
  unfold resume, settle, outerCatch, outerFinally, onFulfilled, onRejected,
    setTimeout.
  destruct outcome; frame_polling.
Qed.

Lemma progress_pollingUntouched (preferences : IClientConfig)
    (ev : ProgressEvent) (w0 : World) :
  preserves (pollingUntouched w0) (onUpload preferences ev)
  /\ preserves (pollingUntouched w0) (onDownload preferences ev).
Proof.
  unfold onUpload, onDownload, updateProgress.
  destruct (progressPrefs preferences) as [p|];
    [destruct (onUploadProgress p), (onDownloadProgress p)|];
    split; frame_polling.
Qed.

Lemma tick_pollingUntouched (preferences : IClientConfig) (env : Env)
    (w0 : World) :
  preserves (pollingUntouched w0) (triggerProgressChange preferences env).
Proof. unfold triggerProgressChange. frame_polling. Qed.

Lemma cancel_pollingUntouched (env : Env) (w0 : World) :
  preserves (pollingUntouched w0) (cancel env).
Proof. unfold cancel, source_cancel. frame_polling. Qed.

(** Outside renders and the consumer's [polling] calls nothing arms a poll
    timer or writes [intervalId]. *)
Lemma exec_pollingUntouched (preferences : IClientConfig) (a : Action)
    (w : World) :
  touchesPolling a = false ->
  pollingUntouched w (exec preferences a w).
Proof.
  intros Ha.
  assert (Hw : pollingUntouched w w) by (split; [by intros h Hh|done]).
  destruct a as [cfg|r|r|r|r|src outcome|src ev|src ev|h|dt];
    try discriminate Ha; cbn [exec].
  - destruct (renders w !! r); [|done]. by apply request_pollingUntouched.
  - destruct (renders w !! r); [|done]. by apply cancel_pollingUntouched.
  - destruct (pending w !! src); [|done]. by apply resume_pollingUntouched.
  - destruct (pending w !! src); [|done]. by apply progress_pollingUntouched.
  - destruct (pending w !! src); [|done]. by apply progress_pollingUntouched.
  - destruct (timers w !! h) as [t|] eqn:Et; [|done].
    destruct (due t <=? now w); [|done].
    assert (Hre : pollingUntouched w (rearm h t w)).
    { unfold rearm. destruct (recurring t) eqn:Er; (split; [|done]).
      - intros h' (t' & Ht' & Hp). cbn in Ht'. rewrite lookup_insert in Ht'.
        case_decide; [|by exists t']. simplify_eq. exists t. split; [done|].
        unfold isPoll in *. cbn in Hp. by rewrite Er.
      - intros h' Hp. by apply pollAt_delete in Hp. }
    destruct (callback t); cbn.
    + by apply request_pollingUntouched.
    + by apply tick_pollingUntouched.
  - by destruct (0 <=? dt).
Qed.

(** A render, with the effect that follows it, in terms of the timer
    table and [intervalId]. *)
Lemma render_components (preferences : IClientConfig) (cfg : IApiCall)
    (w : World) :
  let env := {| seen := store w; config := cfg |} in
  let w' := exec preferences (Render cfg) w in
  renders w' = (renders w ++ [env])%list
  /\ timers w'
     = match polls cfg with
       | Some period =>
           <[nextTimer w := {| callback := CbRequest env; delay := period;
                               recurring := true; due := now w + period |}]>
             (cleared (intervalId (store w))
                (cleared (previousId w) (timers w)))
       | None => cleared (previousId w) (timers w)
       end
  /\ intervalId (store w')
     = match polls cfg with
       | Some _ => Some (nextTimer w)
       | None => match previousId w with
                 | Some _ => None
                 | None => intervalId (store w)
                 end
       end.
Proof.
  intros env w'. subst w'. cbn [exec]. fold env.
  unfold effectCleanup, effect, startPolling, stopPolling, previousId, polls,
    cleared.
  cbn [config seen env].
  destruct (last (renders w)) as [prev|]; [destruct (intervalId (seen prev))|];
    (destruct (refresh cfg) as [period|]; [destruct (Z.eqb_spec period 0)|]);
    try (subst period); cbn [truthyNum Z.eqb negb when];
    try (destruct (period =? 0) eqn:E; [apply Z.eqb_eq in E; done|]);
    cbn [negb]; hook_cbn; destruct (intervalId (store w)); cbn;
    (split; [reflexivity|split; reflexivity]).
Qed.

Lemma pollAt_cleared (o : option positive) (w : World) (h : positive) :
  pollAt (withTimers (cleared o) w) h -> pollAt w h /\ o <> Some h.
Proof.
  unfold cleared. destruct o as [h0|]; [|by intros H].
  intros (t & Ht & Hp). cbn in Ht. rewrite lookup_delete in Ht.
  case_decide; [done|]. split; [by exists t|congruence].
Qed.

Lemma onePoll_untouched (w w' : World) :
  onePoll w -> pollingUntouched w w' -> onePoll w'.
Proof.
  intros [H1 H2] (Hp & Hi & Hr). split.
  - intros h Hh. rewrite Hi, Hr. by apply H1, Hp.
  - intros h h' Hh Hh'. apply H2; by apply Hp.
Qed.

Lemma onePoll_render (preferences : IClientConfig) (cfg : IApiCall) (w : World) :
  onePoll w ->
  let w' := exec preferences (Render cfg) w in
  onePoll w'
  /\ (forall period, polls cfg = Some period ->
      forall h, pollAt w' h <-> h = nextTimer w).
Proof.
  intros [H1 H2] w'.
  destruct (render_components preferences cfg w) as (Hr & Ht & Hi).
  fold w' in Hr, Ht, Hi.
  assert (Hold : forall h, pollAt (withTimers (cleared (previousId w)) w) h ->
            pollAt w h /\ intervalId (store w) = Some h).
  { intros h Hh. apply pollAt_cleared in Hh as [Hh Hne]. split; [done|].
    destruct (H1 h Hh) as [?|(env & Hl & He)]; [done|].
    exfalso. apply Hne. unfold previousId. by rewrite Hl. }
  assert (Hlast : last (renders w')
            = Some {| seen := store w; config := cfg |}).
  { rewrite Hr. apply last_snoc. }
  destruct (polls cfg) as [period|] eqn:Epoll.
  - assert (Honly : forall h, pollAt w' h <-> h = nextTimer w).
    { intros h. split.
      - intros (t & Hlook & Hp). rewrite Ht, lookup_insert in Hlook.
        case_decide; [done|]. exfalso.
        assert (Hc : pollAt (withTimers (cleared (intervalId (store w)))
                       (withTimers (cleared (previousId w)) w)) h)
          by by exists t.
        apply pollAt_cleared in Hc as [Hc Hne].
        apply Hold in Hc as [_ Hc]. by apply Hne.
      - intros ->. eexists. rewrite Ht, lookup_insert_eq. by split. }
    split; [|by intros ? _].
    split.
    + intros h Hh. left. apply Honly in Hh. by rewrite Hi, Hh.
    + intros h h' Hh Hh'. apply Honly in Hh, Hh'. congruence.
  - split; [|by intros ? ?].
    assert (Hsub : forall h, pollAt w' h ->
              pollAt w h /\ intervalId (store w) = Some h).
    { intros h (t & Hlook & Hp). rewrite Ht in Hlook. apply Hold. by exists t. }
    split.
    + intros h Hh. right. eexists. split; [exact Hlast|]. cbn. by apply Hsub.
    + intros h h' Hh Hh'. apply H2; by apply Hsub.
Qed.

Lemma NoDup_filter_fst {A B} (f : A * B -> bool) (l : list (A * B)) :
  NoDup (l.*1) -> NoDup ((List.filter f l).*1).
Proof.
  induction l as [|x l IH]; [done|]. cbn. intros Hnd.
  apply NoDup_cons in Hnd as [Hx Hl]. destruct (f x); [|by apply IH].
  cbn. apply NoDup_cons. split; [|by apply IH].
  intros Hin. apply Hx. apply list_elem_of_fmap in Hin as (y & Hy & Hin).
  apply list_elem_of_fmap. exists y. split; [done|].
  apply list_elem_of_In in Hin. apply List.filter_In in Hin as [Hin _].
  by apply list_elem_of_In.
Qed.

Lemma pollHandles_spec (w : World) (h : positive) :
  h ∈ pollHandles w <-> pollAt w h.
Proof.
  unfold pollHandles, pollAt. rewrite list_elem_of_fmap. split.
  - intros ([h' t] & -> & Hin). apply list_elem_of_In, List.filter_In in Hin.
    destruct Hin as [Hin Hp]. apply list_elem_of_In, elem_of_map_to_list in Hin.
    by exists t.
  - intros (t & Ht & Hp). exists (h, t). split; [done|].
    apply list_elem_of_In, List.filter_In. split; [|done].
    by apply list_elem_of_In, elem_of_map_to_list.
Qed.

Lemma pollHandles_NoDup (w : World) : NoDup (pollHandles w).
Proof. apply NoDup_filter_fst, NoDup_fst_map_to_list. Qed.

Lemma pollHandles_at_most_one (w : World) :
  (forall h h', pollAt w h -> pollAt w h' -> h = h') ->
  (length (pollHandles w) <= 1)%nat.
Proof.
  intros Huniq. pose proof (pollHandles_NoDup w) as Hnd.
  destruct (pollHandles w) as [|a [|b l]] eqn:E; cbn; [lia|lia|].
  exfalso. assert (a = b) as ->.
  { apply Huniq; apply pollHandles_spec; rewrite E, !elem_of_cons; auto. }
  apply NoDup_cons in Hnd as [Hnd _]. apply Hnd. rewrite elem_of_cons. auto.
Qed.

Lemma pollHandles_only (w : World) (h0 : positive) :
  (forall h, pollAt w h <-> h = h0) -> pollHandles w = [h0].
Proof.
  intros Honly. pose proof (pollHandles_NoDup w) as Hnd.
  assert (Hin : h0 ∈ pollHandles w) by by apply pollHandles_spec, Honly.
  assert (Hall : forall h, h ∈ pollHandles w -> h = h0).
  { intros h Hh. by apply Honly, pollHandles_spec. }
  destruct (pollHandles w) as [|a [|b l]]; [by apply elem_of_nil in Hin| |].
  - f_equal. apply Hall. rewrite elem_of_cons. auto.
  - exfalso. assert (a = h0) as -> by (apply Hall; rewrite elem_of_cons; auto).
    assert (b = h0) as -> by (apply Hall; rewrite !elem_of_cons; auto).
    apply NoDup_cons in Hnd as [Hnd _]. apply Hnd. rewrite elem_of_cons. auto.
Qed.

Lemma onePoll_exec (preferences : IClientConfig) (a : Action) (w : World) :
  consumerPolls a = false -> onePoll w -> onePoll (exec preferences a w).
Proof.
  intros Ha Hw. destruct (touchesPolling a) eqn:Et.
  - destruct a; try discriminate. by apply onePoll_render.
  - eapply onePoll_untouched; [done|]. by apply exec_pollingUntouched.
Qed.

Lemma onePoll_run (preferences : IClientConfig) (acts : list Action) (w : World) :
  Forall (fun a => consumerPolls a = false) acts ->
  onePoll w -> onePoll (run preferences acts w).
Proof.
  revert w. induction acts as [|a acts IH]; intros w Hacts Hw; [done|].
  inversion Hacts; subst. cbn. apply IH; [done|]. by apply onePoll_exec.
Qed.

Lemma onePoll_initial : onePoll initialWorld.
Proof.
  assert (H : forall h, ~ pollAt initialWorld h).
  { intros h (t & Ht & _). cbn in Ht. by rewrite lookup_empty in Ht. }
  split; intros h; intros; by destruct (H h).
Qed.

(** X13. As long as the consumer itself calls neither [polling.resume()]
    nor [polling.pause()], the effect that follows every render keeps at
    most one poll timer armed, through any sequence of renders (with or
    without [refresh]), fetches, completions, cancellations, progress
    events and timers firing; and right after a render that polls exactly
    one poll timer is armed, the one [intervalId] then names. *)
Theorem effect_alone_keeps_one_poll_timer (preferences : IClientConfig)
    (acts : list Action) :
  Forall (fun a => consumerPolls a = false) acts ->
  let w := run preferences acts initialWorld in
  (length (pollHandles w) <= 1)%nat
  /\ forall cfg period, polls cfg = Some period ->
       let w' := exec preferences (Render cfg) w in
       pollHandles w' = [nextTimer w]
       /\ intervalId (store w') = Some (nextTimer w).
Proof.
  intros Hacts w.
  assert (Hw : onePoll w) by by apply onePoll_run, onePoll_initial.
  split; [apply pollHandles_at_most_one, Hw|].
  intros cfg period Hpolls w'.
  destruct (onePoll_render preferences cfg w Hw) as [_ Honly].
  destruct (render_components preferences cfg w) as (_ & _ & Hi).
  split; [by apply pollHandles_only, (Honly period)|].
  fold w' in Hi. by rewrite Hi, Hpolls.
Qed.

Lemma polls_off (cfg : IApiCall) :
  truthyNum (refresh cfg) = false -> polls cfg = None.
Proof.
  unfold polls, truthyNum. destruct (refresh cfg) as [period|]; [|done].
  by destruct (period =? 0).
Qed.

Lemma startPolling_off (env : Env) (w : World) :
  truthyNum (refresh (config env)) = false ->
  startPolling env w = (Ok tt, w).
Proof.
  unfold startPolling, truthyNum.
  destruct (refresh (config env)) as [period|]; [|done].
  by destruct (period =? 0).
Qed.

Lemma pollingOff_exec (preferences : IClientConfig) (a : Action) (w : World) :
  rendersWithoutRefresh a -> pollingOff w -> pollingOff (exec preferences a w).
Proof.
  intros Ha ((Hnone & Hcfg) & Hid & Hids).
  destruct (touchesPolling a) eqn:Et.
  - destruct a as [cfg|r|r|r|r|src outcome|src ev|src ev|h|dt];
      try discriminate Et.
    + cbn in Ha.
      destruct (render_components preferences cfg w) as (Hr & Ht & Hi).
      rewrite (polls_off cfg Ha) in Ht, Hi.
      assert (Hprev : previousId w = None).
      { unfold previousId. destruct (last (renders w)) as [prev|] eqn:El; [|done].
        apply last_Some in El as (l & El). rewrite El in Hids.
        apply Forall_app in Hids as [_ Hids]. by inversion Hids. }
      rewrite Hprev in Ht, Hi. repeat split.
      * intros h (t & Hlook & Hp). rewrite Ht in Hlook. apply (Hnone h).
        by exists t.
      * rewrite Hr. apply Forall_app. split; [done|]. by apply Forall_singleton.
      * by rewrite Hi.
      * rewrite Hr. apply Forall_app. split; [done|]. by apply Forall_singleton.
    + cbn [exec]. destruct (renders w !! r) as [env|] eqn:Er; [|done].
      unfold after. rewrite startPolling_off; [done|].
      by apply (proj1 (Forall_lookup _ _) Hcfg r env).
    + cbn [exec]. destruct (renders w !! r) as [env|] eqn:Er; [|done].
      unfold after. rewrite stopPolling_without_timer; [done|].
      by apply (proj1 (Forall_lookup _ _) Hids r env).
  - destruct (exec_pollingUntouched preferences a w Et) as (Hp & Hi & Hr).
    repeat split.
    + intros h Hh. by apply (Hnone h), Hp.
    + by rewrite Hr.
    + by rewrite Hi.
    + by rewrite Hr.
Qed.

Lemma pollingOff_run (preferences : IClientConfig) (acts : list Action)
    (w : World) :
  Forall rendersWithoutRefresh acts ->
  pollingOff w -> pollingOff (run preferences acts w).
Proof.
  revert w. induction acts as [|a acts IH]; intros w Hacts Hw; [done|].
  inversion Hacts; subst. cbn. apply IH; [done|]. by apply pollingOff_exec.
Qed.

Lemma pollingOff_initial : pollingOff initialWorld.
Proof.
  repeat split; try constructor.
  intros h (t & Ht & _). cbn in Ht. by rewrite lookup_empty in Ht.
Qed.

(** X14. While no render asks for polling ([refresh] absent or 0), polling
    stays off whatever the consumer does: no poll timer is ever armed,
    [intervalId] stays null, and [polling.resume()] and [polling.pause()]
    change nothing at all. *)
Theorem no_refresh_no_poll_timer (preferences : IClientConfig)
    (acts : list Action) :
  Forall rendersWithoutRefresh acts ->
  let w := run preferences acts initialWorld in
  pollHandles w = []
  /\ intervalId (store w) = None
  /\ forall r, exec preferences (CallResume r) w = w
               /\ exec preferences (CallPause r) w = w.
Proof.
  intros Hacts w.
  assert (Hw : pollingOff w) by by apply pollingOff_run, pollingOff_initial.
  destruct Hw as ((Hnone & Hcfg) & Hid & Hids).
  split; [|split; [done|]].
  - destruct (pollHandles w) as [|h l] eqn:E; [done|]. exfalso.
    apply (Hnone h), pollHandles_spec. rewrite E, elem_of_cons. auto.
  - intros r. cbn [exec]. destruct (renders w !! r) as [env|] eqn:Er; [|done].
    unfold after. rewrite startPolling_off, stopPolling_without_timer; [done| |].
    + by apply (proj1 (Forall_lookup _ _) Hids r env).
    + by apply (proj1 (Forall_lookup _ _) Hcfg r env).
Qed.

(** X15. [polling.pause()] clears the timer its render saw and stores null
    in [intervalId], whatever handle is stored by then, and touches no
    other timer; pausing again through the same render changes nothing
    more.  Through a render that saw no timer it does nothing at all, even
    when a poll timer is armed: [pause()] through the render whose effect
    has just started polling leaves that poll timer armed and [intervalId]
    naming it. *)
Theorem pause_clears_seen_timer (preferences : IClientConfig) (env : Env)
    (w : World) :
  let w' := after (stopPolling env) w in
  (forall h, intervalId (seen env) = Some h ->
     timers w' = delete h (timers w)
     /\ intervalId (store w') = None
     /\ forall h', h' <> h -> timers w' !! h' = timers w !! h')
  /\ (intervalId (seen env) = None -> w' = w)
  /\ after (stopPolling env) w' = w'
  /\ (forall cfg period,
        polls cfg = Some period ->
        intervalId (store w) = None ->
        let w1 := exec preferences (Render cfg) w in
        let w2 := exec preferences (CallPause (length (renders w))) w1 in
        pollAt w1 (nextTimer w)
        /\ intervalId (store w1) = Some (nextTimer w)
        /\ w2 = w1).
Proof.
  intros w'. split; [|split; [|split]].
  - subst w'. unfold stopPolling.
    destruct (intervalId (seen env)) as [h0|]; hook_cbn; [|by intros h].
    intros h [= <-]. split; [done|]. split; [done|].
    intros h' Hne. by apply lookup_delete_ne.
  - intros Hnone. subst w'. unfold after.
    by rewrite (stopPolling_without_timer env w Hnone).
  - subst w'. unfold stopPolling.
    destruct (intervalId (seen env)) as [h0|]; hook_cbn; [|done].
    unfold withStore, withTimers. cbn. by rewrite delete_delete_eq.
  - intros cfg period Hpolls Hnone w1 w2.
    destruct (render_components preferences cfg w) as (Hr & Ht & Hi).
    fold w1 in Hr, Ht, Hi. rewrite Hpolls in Ht, Hi.
    split; [|split; [done|]].
    + eexists. split; [rewrite Ht; apply lookup_insert_eq|done].
    + subst w2. unfold exec at 1. rewrite Hr, list_lookup_middle by done.
      unfold after. by rewrite stopPolling_without_timer.
Qed.

(** X16. [cancel()] only marks the call that was started with the cancel
    source its render saw: when that call has already completed (or the
    source never had a call, as after a cache hit) nothing changes at all;
    and cancelling twice is the same as cancelling once. *)
Theorem cancel_late_is_noop_and_idempotent (env : Env) (w : World) :
  let w' := after (cancel env) w in
  (forall s, source (seen env) = Some s -> pending w !! s = None -> w' = w)
  /\ after (cancel env) w' = w'
  /\ store w' = store w /\ timers w' = timers w /\ trace w' = trace w
  /\ (forall s q, pending w' !! s = Some q ->
        exists q0, pending w !! s = Some q0 /\ awaiting q = awaiting q0
                   /\ (source (seen env) <> Some s -> q = q0)).
Proof.
  intros w'. subst w'. unfold cancel, source_cancel.
  destruct (source (seen env)) as [s0|]; hook_cbn.
  - destruct (pending w !! s0) as [q0|] eqn:E.
    + split; [intros s [= <-] Hn; congruence|].
      split.
      { unfold withPending. simpl. rewrite E, lookup_insert_eq. simpl.
        by rewrite insert_insert_eq. }
      repeat split. intros s q. cbn. rewrite lookup_insert. case_decide.
      * intros [= <-]. subst s. exists q0. repeat split; [done|congruence].
      * intros Hq. by exists q.
    + unfold withPending. simpl. rewrite E.
      split; [intros; by destruct w|].
      split; [by rewrite E|]. repeat split.
      intros s q Hq. by exists q.
  - split; [by intros s|]. split; [done|]. repeat split.
    intros s q Hq. by exists q.
Qed.

(** ** Timer handles *)

Section handles.

Lemma hk_frame {A} (m : Hook A) :
  (forall w, timers (after m w) = timers w
             /\ nextTimer (after m w) = nextTimer w
             /\ intervalId (store (after m w)) = intervalId (store w)
             /\ renders (after m w) = renders w) ->
  preserves handlesOk m.
Proof.
  intros H w Hw. destruct (H w) as (E1 & E2 & E3 & E4).
  unfold handlesOk, handleOk in *. by rewrite E1, E2, E3, E4.
Qed.

Ltac still :=
  apply hk_frame; intros ?;
  (split; [reflexivity|split; [reflexivity|split; reflexivity]]).

Lemma hk_logger (preferences : IClientConfig) (level message : string) :
  preserves handlesOk (logger preferences level message).
Proof. intros w Hw. by rewrite logger_after. Qed.

Lemma handleOk_delete (w : World) (h : positive) (o : option positive) :
  handleOk w o -> handleOk (withTimers (delete h) w) o.
Proof.
  intros H h' E. destruct (H h' E) as [Hlt Hno]. split; [done|].
  intros t Ht. cbn in Ht. apply lookup_delete_Some in Ht as [_ Ht]. by apply Hno.
Qed.

Lemma hk_clearInterval (h : positive) : preserves handlesOk (clearInterval h).
Proof.
  intros w (Ht & Hs & Hr). split; [|split].
  - cbn. by apply map_Forall_delete.
  - by apply handleOk_delete.
  - eapply Forall_impl; [exact Hr|]. intros env. apply handleOk_delete.
Qed.

Lemma handleOk_arm (w : World) (cb : Callback) (d : Z) (rec : bool)
    (o : option positive) :
  handleOk w o -> handleOk (after (armTimer cb d rec) w) o.
Proof.
  intros H h E. destruct (H h E) as [Hlt Hno]. cbn. split; [lia|].
  intros t Ht. rewrite lookup_insert_ne in Ht by lia. by apply Hno.
Qed.

Lemma hk_armTimer (cb : Callback) (d : Z) (rec : bool) :
  preserves handlesOk (armTimer cb d rec).
Proof.
  intros w (Ht & Hs & Hr). split; [|split].
  - cbn. apply map_Forall_insert_2; [lia|].
    eapply map_Forall_impl; [exact Ht|]. cbn. lia.
  - by apply handleOk_arm.
  - eapply Forall_impl; [exact Hr|]. intros env. apply handleOk_arm.
Qed.

Lemma hk_setIntervalId_None : preserves handlesOk (setIntervalId None).
Proof. intros w (Ht & Hs & Hr). split; [done|]. split; [by intros h|done]. Qed.

(** Arming the poll timer and storing its handle, lines 311-315. *)
Lemma hk_poll (env : Env) (period : Z) :
  preserves handlesOk
    (h ← setInterval (CbRequest env) period; setIntervalId (Some h)).
Proof.
  intros w Hw. destruct (hk_armTimer (CbRequest env) period true w Hw)
    as (Ht & Hs & Hr).
  hook_cbn. split; [exact Ht|]. split; [|exact Hr].
  intros h [= <-]. cbn. split; [lia|].
  intros t. rewrite lookup_insert_eq. by intros [= <-].
Qed.

#[local] Hint Extern 2 (preserves _ _) => still : hook.
#[local] Hint Resolve hk_logger hk_clearInterval hk_armTimer
  hk_setIntervalId_None : hook.

Lemma hk_stopPolling (env : Env) : preserves handlesOk (stopPolling env).
Proof. unfold stopPolling. pres. Qed.

Lemma hk_startPolling (env : Env) : preserves handlesOk (startPolling env).
Proof.
  unfold startPolling. destruct (refresh (config env)); [|apply preserves_ret].
  destruct (_ =? 0); [apply preserves_ret|].
  apply preserves_bind; [apply hk_stopPolling|]. intros _. apply hk_poll.
Qed.

Lemma hk_request (preferences : IClientConfig) (env : Env) :
  preserves handlesOk (request preferences env).
Proof.
  unfold request, prologue, settle, outerCatch, outerFinally, axios_request,
    setInterval.
  pres.
Qed.

Lemma hk_resume (preferences : IClientConfig) (env : Env) (outcome : Outcome) :
  preserves handlesOk (resume preferences env outcome).
Proof.
  unfold resume, settle, outerCatch, outerFinally, onRejected, setTimeout.
  pres. destruct outcome; [|apply preserves_throw].
  unfold onFulfilled. pres.
Qed.

Lemma hk_cancel (env : Env) : preserves handlesOk (cancel env).
Proof. unfold cancel, source_cancel. pres. Qed.

Lemma hk_progress (preferences : IClientConfig) (ev : ProgressEvent) :
  preserves handlesOk (onUpload preferences ev)
  /\ preserves handlesOk (onDownload preferences ev).
Proof.
  unfold onUpload, onDownload, updateProgress.
  destruct (progressPrefs preferences) as [p|];
    [destruct (onUploadProgress p), (onDownloadProgress p)|];
    split; pres.
Qed.

Lemma hk_tick (preferences : IClientConfig) (env : Env) :
  preserves handlesOk (triggerProgressChange preferences env).
Proof. unfold triggerProgressChange. pres. Qed.

Lemma hk_exec (preferences : IClientConfig) (a : Action) (w : World) :
  handlesOk w -> handlesOk (exec preferences a w).
Proof.
  intros Hw. pose proof Hw as (Ht & Hs & Hr).
  destruct a as [cfg|r|r|r|r|src outcome|src ev|src ev|h|dt]; cbn [exec].
  - set (env := {| seen := store w; config := cfg |}).
    apply preserves_bind.
    + unfold effectCleanup. destruct (last (renders w)); [|apply preserves_ret].
      apply hk_stopPolling.
    + intros _. unfold effect. apply preserves_when, hk_startPolling.
    + split; [done|]. split; [done|]. cbn. apply Forall_app. split; [done|].
      by apply Forall_singleton.
  - destruct (renders w !! r) as [env|]; [|done]. by apply hk_request.
  - destruct (renders w !! r) as [env|]; [|done]. by apply hk_cancel.
  - destruct (renders w !! r) as [env|]; [|done]. by apply hk_startPolling.
  - destruct (renders w !! r) as [env|]; [|done]. by apply hk_stopPolling.
  - destruct (pending w !! src) as [p|]; [|done]. by apply hk_resume.
  - destruct (pending w !! src); [|done]. by apply hk_progress.
  - destruct (pending w !! src); [|done]. by apply hk_progress.
  - destruct (timers w !! h) as [t|] eqn:E; [|done].
    destruct (due t <=? now w); [|done].
    assert (Hre : handlesOk (rearm h t w)).
    { unfold rearm. destruct (recurring t).
      - split; [|split].
        + cbn. apply map_Forall_insert_2; [apply (Ht h t E)|done].
        + intros h' E'. destruct (Hs h' E') as [Hlt Hno]. split; [done|].
          intros t'. cbn. destruct (decide (h' = h)) as [->|Hne].
          * rewrite lookup_insert_eq. intros [= <-]. apply (Hno t E).
          * rewrite lookup_insert_ne by done. apply Hno.
        + eapply Forall_impl; [exact Hr|]. intros env He h' E'.
          destruct (He h' E') as [Hlt Hno]. split; [done|].
          intros t'. cbn. destruct (decide (h' = h)) as [->|Hne].
          * rewrite lookup_insert_eq. intros [= <-]. apply (Hno t E).
          * rewrite lookup_insert_ne by done. apply Hno.
      - by apply (hk_clearInterval h w). }
    destruct (callback t) as [env|env]; cbn.
    + by apply hk_request.
    + by apply hk_tick.
  - by destruct (0 <=? dt).
Qed.

Lemma hk_run (preferences : IClientConfig) (acts : list Action) (w : World) :
  handlesOk w -> handlesOk (run preferences acts w).
Proof.
  revert w. induction acts as [|a acts IH]; intros w Hw; [done|].
  cbn. apply IH. by apply hk_exec.
Qed.

Lemma hk_initial : handlesOk initialWorld.
Proof.
  split; [apply map_Forall_empty|]. split; [by intros h|constructor].
Qed.
End handles.

(** ** The progress-sampling timer *)

Lemma resume_timers_other (preferences : IClientConfig) (env : Env)
    (outcome : Outcome) (w : World) (h : positive) :
  progressUpdateInterval (seen env) <> Some h ->
  h <> nextTimer w ->
  timers (after (resume preferences env outcome) w) !! h = timers w !! h.
Proof.
  intros Hseen Hnew.
  assert (Hcl : forall m : gmap positive Timer,
            cleared (progressUpdateInterval (seen env)) m !! h = m !! h).
  { intros m. unfold cleared.
    destruct (progressUpdateInterval (seen env)) as [h0|]; [|done].
    apply lookup_delete_ne. congruence. }
  resume_cases preferences env outcome w; hook_cbn;
    try (destruct (truthyNum (ttl (config env))); cbn);
    rewrite Hcl; try done.
  all: by rewrite lookup_insert_ne.
Qed.

Lemma resume_nextTimer (preferences : IClientConfig) (env : Env)
    (outcome : Outcome) (w : World) :
  let w' := after (resume preferences env outcome) w in
  nextTimer w' = nextTimer w \/ nextTimer w' = Pos.succ (nextTimer w).
Proof.
  intros w'. subst w'.
  resume_cases preferences env outcome w; hook_cbn;
    try (destruct (truthyNum (ttl (config env))); cbn);
    try (destruct (onException preferences); cbn); auto.
Qed.

Lemma request_timers_other (preferences : IClientConfig) (env : Env)
    (w : World) (h : positive) :
  progressUpdateInterval (seen env) <> Some h ->
  h <> nextTimer w ->
  timers (after (request preferences env) w) !! h = timers w !! h.
Proof.
  intros Hseen Hnew.
  assert (Hcl : forall m : gmap positive Timer,
            cleared (progressUpdateInterval (seen env)) m !! h = m !! h).
  { intros m. unfold cleared.
    destruct (progressUpdateInterval (seen env)) as [h0|]; [|done].
    apply lookup_delete_ne. congruence. }
  destruct (prologue_components preferences env w) as (w1 & Hp & _ & Ht & _).
  assert (H1 : timers w1 !! h = timers w !! h).
  { rewrite Ht. destruct (sampling preferences); [|done].
    by rewrite lookup_insert_ne, Hcl. }
  destruct (cacheValid env (now w)) eqn:E.
  - destruct (request_hit preferences env w E) as (w2 & Hp2 & ->).
    assert (w2 = w1) as -> by congruence.
    rewrite outerFinally_run. cbn. by rewrite Hcl.
  - destruct (request_miss preferences env w E) as (w2 & Hp2 & ->).
    assert (w2 = w1) as -> by congruence. done.
Qed.

Lemma cleared_lookup_ne (o : option positive) (m : gmap positive Timer)
    (h : positive) :
  o <> Some h -> cleared o m !! h = m !! h.
Proof.
  intros Hne. unfold cleared. destruct o as [h0|]; [|done].
  apply lookup_delete_ne. congruence.
Qed.

Lemma progress_timers (preferences : IClientConfig) (ev : ProgressEvent)
    (w : World) :
  timers (after (onUpload preferences ev) w) = timers w
  /\ timers (after (onDownload preferences ev) w) = timers w.
Proof.
  unfold onUpload, onDownload, updateProgress.
  destruct (total ev) as [t|]; [|done]. destruct (t =? 0); [done|].
  destruct (progressPrefs preferences) as [p|];
    [destruct (onUploadProgress p), (onDownloadProgress p)|]; done.
Qed.

Lemma tick_timers (preferences : IClientConfig) (env : Env) (w : World) :
  timers (after (triggerProgressChange preferences env) w) = timers w.
Proof.
  unfold triggerProgressChange.
  destruct (progressPrefs preferences) as [p|]; [|done].
  by repeat destruct (equals _ _).
Qed.

(** An armed progress-sampling timer survives every action but a
    [request] of a closure that has seen its handle. *)
Lemma tick_kept_unless_requested (preferences : IClientConfig) (a : Action)
    (v : World) (h : positive) (tenv : Env) (d : Z) :
  handlesOk v ->
  closuresRendered v ->
  tickAt v h tenv d ->
  tickAt (exec preferences a v) h tenv d
  \/ exists env, env ∈ renders v
       /\ progressUpdateInterval (seen env) = Some h
       /\ requestThrough v a env.
Proof.
  intros (Ht & Hs & Hr) (Hct & Hcp) (t & Elook & Ecb & Ed & Erec).
  assert (Hlt : (h < nextTimer v)%positive) by apply (Ht h t Elook).
  assert (Htick : isTick t = true) by (unfold isTick; by rewrite Ecb).
  assert (Hnot : forall o, handleOk v o -> o <> Some h).
  { intros o Ho E. destruct (Ho h E) as [_ Hno].
    specialize (Hno t Elook). congruence. }
  assert (Hrender : forall env, env ∈ renders v ->
            intervalId (seen env) <> Some h).
  { intros env Hin. apply Hnot. by apply (proj1 (Forall_forall _ _) Hr). }
  assert (Hsame : forall w', timers w' !! h = timers v !! h ->
            tickAt w' h tenv d).
  { intros w' E. exists t. by rewrite E. }
  destruct a as [cfg|r|r|r|r|src outcome|src ev|src ev|h'|dt].
  - left. apply Hsame.
    destruct (render_components preferences cfg v) as (_ & Etm & _).
    rewrite Etm.
    assert (Hprev : previousId v <> Some h).
    { unfold previousId. destruct (last (renders v)) as [prev|] eqn:El; [|done].
      apply Hrender. apply last_Some in El as [l' ->].
      apply elem_of_app. right. by left. }
    destruct (polls cfg).
    + rewrite lookup_insert_ne by lia.
      rewrite !cleared_lookup_ne; [done|done|by apply Hnot].
    + by rewrite cleared_lookup_ne.
  - cbn [exec]. destruct (renders v !! r) as [env|] eqn:E; [|by left; apply Hsame].
    destruct (decide (progressUpdateInterval (seen env) = Some h)) as [Ep|Ep].
    + right. exists env. split; [by eapply list_elem_of_lookup_2|done].
    + left. apply Hsame. apply request_timers_other; [done|lia].
  - left. apply Hsame. cbn [exec].
    destruct (renders v !! r) as [env|]; [|done].
    unfold cancel, source_cancel. by destruct (source (seen env)).
  - left. apply Hsame. cbn [exec].
    destruct (renders v !! r) as [env|] eqn:E; [|done].
    pose proof (Hrender env (list_elem_of_lookup_2 _ _ _ E)) as Hi.
    unfold startPolling, stopPolling.
    destruct (refresh (config env)) as [p|]; [|done].
    destruct (p =? 0); [done|]. hook_cbn.
    destruct (intervalId (seen env)) as [h0|]; cbn.
    + rewrite lookup_insert_ne by lia. apply lookup_delete_ne. congruence.
    + apply lookup_insert_ne. lia.
  - left. apply Hsame. cbn [exec].
    destruct (renders v !! r) as [env|] eqn:E; [|done].
    pose proof (Hrender env (list_elem_of_lookup_2 _ _ _ E)) as Hi.
    unfold stopPolling. destruct (intervalId (seen env)) as [h0|]; [|done].
    hook_cbn. apply lookup_delete_ne. congruence.
  - cbn [exec]. destruct (pending v !! src) as [p|] eqn:E; [|by left; apply Hsame].
    destruct (decide (progressUpdateInterval (seen (awaiting p)) = Some h))
      as [Ep|Ep].
    + right. exists (awaiting p). split; [apply (Hcp src p E)|].
      split; [done|]. by exists p.
    + left. apply Hsame. rewrite resume_timers_other; [done|done|].
      cbn. lia.
  - left. apply Hsame. cbn [exec]. destruct (pending v !! src); [|done].
    by rewrite (proj1 (progress_timers preferences ev v)).
  - left. apply Hsame. cbn [exec]. destruct (pending v !! src); [|done].
    by rewrite (proj2 (progress_timers preferences ev v)).
  - cbn [exec]. destruct (timers v !! h') as [t'|] eqn:E; [|by left; apply Hsame].
    destruct (Z.leb_spec (due t') (now v)) as [Hdue|]; [|by left; apply Hsame].
    destruct (decide (h' = h)) as [->|Hne].
    + left. assert (t' = t) as -> by congruence.
      unfold rearm. rewrite Erec, Ecb. cbn [runCallback].
      eexists. rewrite tick_timers. cbn. rewrite lookup_insert_eq.
      by split.
    + assert (Hre : timers (rearm h' t' v) !! h = timers v !! h).
      { unfold rearm. destruct (recurring t'); cbn.
        - by apply lookup_insert_ne.
        - by apply lookup_delete_ne. }
      assert (Hnt : nextTimer (rearm h' t' v) = nextTimer v).
      { unfold rearm. by destruct (recurring t'). }
      destruct (callback t') as [env|env] eqn:Ecb'; cbn [runCallback].
      * destruct (decide (progressUpdateInterval (seen env) = Some h))
          as [Ep|Ep].
        -- right. exists env. split.
           { pose proof (Hct h' t' E) as Hin. cbn in Hin. by rewrite Ecb' in Hin. }
           split; [done|]. by exists t'.
        -- left. apply Hsame. rewrite request_timers_other; [done|done|].
           rewrite Hnt. lia.
      * left. apply Hsame. by rewrite tick_timers.
  - left. apply Hsame. cbn [exec]. by destruct (0 <=? dt).
Qed.

(** X18. In the options [request] hands to the transport, the cancel token
    and the two progress handlers are always the hook's own, whatever the
    raw options [config.config] contain; every other setting of the raw
    options is passed on and replaces the computed one of the same name
    wholesale, so raw [headers] discard the merged headers instead of being
    merged into them; without raw options the url is [baseUrl] followed by
    [path] and [headers] and [params] are the defaults overridden
    key by key by the call's own. *)
Theorem request_options_precedence (preferences : IClientConfig)
    (env : Env) (src : nat) :
  let options := requestOptions preferences env src in
  let raw := spread (rawConfig (config env)) in
  options !! "cancelToken" = Some (CancelTokenOf src)
  /\ options !! "onUploadProgress" = Some UploadHandler
  /\ options !! "onDownloadProgress" = Some DownloadHandler
  /\ (forall k s, reserved k = false ->
        raw !! k = Some s -> options !! k = Some s)
  /\ (raw !! "url" = None ->
      options !! "url"
      = Some (Text (baseUrl preferences +:+ show (path (config env)))))
  /\ (raw !! "headers" = None ->
      exists merged, options !! "headers" = Some (Fields merged)
        /\ forall k, merged !! k
             = match spread (headers (config env)) !! k with
               | Some v => Some v
               | None => spread (defaultHeaders preferences) !! k
               end)
  /\ (raw !! "params" = None ->
      exists merged, options !! "params" = Some (Fields merged)
        /\ forall k, merged !! k
             = match spread (queryParams (config env)) !! k with
               | Some v => Some v
               | None => spread (defaultQueryParams preferences) !! k
               end).
Proof.
  intros options raw.
  destruct (requestOptions_lookup preferences env src)
    as (Hc & Hu & Hd & Hraw & Hurl).
  split; [done|]. split; [done|]. split; [done|]. split; [done|].
  split; [done|].
  subst options raw. unfold requestOptions.
  assert (Hmerge : forall (a b : option (gmap string value)) k,
            spreadBoth a b !! k
            = match spread b !! k with
              | Some v => Some v
              | None => spread a !! k
              end).
  { intros a b k. unfold spreadBoth. rewrite lookup_union.
    destruct (spread b !! k), (spread a !! k); done. }
  split.
  - intros Hno. eexists. split; [|apply Hmerge].
    rewrite !lookup_insert_ne by done. rewrite lookup_union_r by done.
    by rewrite !lookup_insert_ne, lookup_insert_eq by done.
  - intros Hno. eexists. split; [|apply Hmerge].
    rewrite !lookup_insert_ne by done. rewrite lookup_union_r by done.
    by rewrite lookup_insert_eq.
Qed.

(** ** A poll *)

Lemma render_frame (preferences : IClientConfig) (cfg : IApiCall) (w : World) :
  let w' := exec preferences (Render cfg) w in
  now w' = now w /\ nextSource w' = nextSource w /\ pending w' = pending w
  /\ trace w' = trace w
  /\ progressUpdateInterval (store w') = progressUpdateInterval (store w)
  /\ (nextTimer w' = nextTimer w \/ nextTimer w' = Pos.succ (nextTimer w)).
Proof.
  intros w'. subst w'. cbn [exec].
  unfold effectCleanup, effect, startPolling, stopPolling. cbn [config seen].
  destruct (last (renders w)) as [prev|]; [destruct (intervalId (seen prev))|];
    (destruct (refresh cfg) as [period|]; [destruct (Z.eqb_spec period 0)|]);
    try (subst period); cbn [truthyNum Z.eqb negb when];
    try (destruct (period =? 0) eqn:E; [apply Z.eqb_eq in E; done|]);
    cbn [negb]; hook_cbn; destruct (intervalId (store w)); cbn; auto 10.
Qed.

(** X19. A render that polls fetches nothing itself.  Its poll timer does
    nothing before the period has passed; when it fires it runs [request]
    of the render that armed it, so the transport is invoked unless that
    render's cache answers, and it stays armed for one more period. *)
Theorem poll_fetches_through_arming_render (preferences : IClientConfig)
    (cfg : IApiCall) (period : Z) (w : World) :
  polls cfg = Some period ->
  0 < period ->
  progressUpdateInterval (store w) <> Some (nextTimer w) ->
  let env := {| seen := store w; config := cfg |} in
  let poll := nextTimer w in
  let w1 := exec preferences (Render cfg) w in
  let w2 := run preferences [Advance period; Fire poll] w1 in
  transportCalls w1 = transportCalls w
  /\ exec preferences (Fire poll) w1 = w1
  /\ (cacheValid env (now w + period) = false ->
      transportCalls w2 = S (transportCalls w)
      /\ pending w2 !! nextSource w
         = Some {| awaiting := env; cancelled := false |})
  /\ (cacheValid env (now w + period) = true ->
      transportCalls w2 = transportCalls w)
  /\ timers w2 !! poll
     = Some {| callback := CbRequest env; delay := period; recurring := true;
               due := now w + period + period |}.
Proof.
  intros Hpolls Hpos Hfresh env poll w1 w2.
  destruct (render_components preferences cfg w) as (_ & Ht & _).
  destruct (render_frame preferences cfg w) as (Hnow & Hsrc & Hpend & Htr & _ & Hnt).
  fold w1 in Ht, Hnow, Hsrc, Hpend, Htr, Hnt. rewrite Hpolls in Ht. fold env in Ht.
  set (tm := {| callback := CbRequest env; delay := period; recurring := true;
                due := now w + period |}) in *.
  assert (Hlook : timers w1 !! poll = Some tm).
  { rewrite Ht. apply lookup_insert_eq. }
  assert (Hnt1 : nextTimer w1 = Pos.succ poll).
  { destruct Hnt as [Hnt|Hnt]; [|done]. exfalso.
    clear -Ht Hnt Hpolls. subst w1. cbn [exec] in Hnt.
    unfold effectCleanup, effect, startPolling, stopPolling, polls in *.
    cbn [config seen] in *.
    destruct (refresh cfg) as [p|]; [|done]. destruct (Z.eqb_spec p 0); [done|].
    revert Hnt. cbn [truthyNum]. destruct (p =? 0) eqn:E;
      [apply Z.eqb_eq in E; done|]. cbn [negb when].
    destruct (last (renders w)) as [prev|];
      [destruct (intervalId (seen prev))|]; hook_cbn;
      destruct (intervalId (store w)); cbn; lia. }
  assert (Htc1 : transportCalls w1 = transportCalls w).
  { unfold transportCalls. by rewrite Htr. }
  clearbody w1.
  split; [done|]. split.
  { unfold exec at 1. rewrite Hlook. cbn [due tm].
    destruct (Z.leb_spec (now w + period) (now w1)); [lia|done]. }
  assert (Hadv : exec preferences (Advance period) w1 = withNow (Z.add period) w1).
  { unfold exec. destruct (Z.leb_spec 0 period); [done|lia]. }
  subst w2. cbn [run fold_left]. rewrite Hadv. unfold exec.
  cbn [timers withNow]. rewrite Hlook. cbn [due tm now withNow].
  destruct (Z.leb_spec (now w + period) (period + now w1)); [|lia].
  unfold rearm. cbn [recurring tm callback runCallback delay].
  set (w3 := withTimers _ (withNow (Z.add period) w1)).
  assert (Hnow3 : now w3 = now w + period) by (subst w3; cbn; lia).
  assert (Hsrc3 : nextSource w3 = nextSource w) by (subst w3; cbn; done).
  assert (Htc3 : transportCalls w3 = transportCalls w) by (subst w3; done).
  assert (Hlook3 : timers w3 !! poll
            = Some {| callback := CbRequest env; delay := period;
                      recurring := true; due := now w + period + period |}).
  { subst w3. cbn. rewrite lookup_insert_eq. do 2 f_equal. lia. }
  assert (Hnt3 : poll <> nextTimer w3).
  { change (poll <> nextTimer w1). rewrite Hnt1. lia. }
  split; [|split].
  - intros Hmiss. rewrite <- Hnow3 in Hmiss.
    destruct (request_miss_calls_transport preferences env w3 Hmiss)
      as (Hc & Hp & _).
    rewrite Hc, Htc3. split; [done|]. by rewrite <- Hsrc3.
  - intros Hhit. rewrite <- Hnow3 in Hhit.
    destruct (request_hit preferences env w3 Hhit) as (wq & Hq & ->).
    destruct (prologue_run preferences env w3)
      as (wq' & Hq' & _ & _ & _ & _ & Htrq & _).
    assert (wq' = wq) as -> by congruence.
    unfold transportCalls. rewrite outerFinally_trace, Htrq.
    by rewrite List.filter_app, logged_no_transport.
  - rewrite request_timers_other; done.
Qed.

(** ** The calls the hook makes to the outside *)

Lemma hookMessage_mono (preferences : IClientConfig) (rs rs' : list Env)
    (level message : string) :
  rs ⊆ rs' ->
  hookMessage preferences rs level message ->
  hookMessage preferences rs' level message.
Proof.
  intros Hsub (env & Hin & H). exists env. split; [by apply Hsub|done].
Qed.

Lemma asConfigured_mono (preferences : IClientConfig) (rs rs' : list Env)
    (ev : Event) :
  rs ⊆ rs' ->
  asConfigured preferences rs ev -> asConfigured preferences rs' ev.
Proof.
  intros Hsub. destruct ev; cbn; try done.
  - intros (lg & H1 & H2 & H3 & H4 & H5). exists lg.
    repeat split; try done. by eapply hookMessage_mono.
  - intros (lg & l & m & H1 & H2 & H3 & H4 & H5 & H6). exists lg, l, m.
    repeat split; try done. by eapply hookMessage_mono.
  - intros (env & Hin & ->). exists env. split; [by apply Hsub|done].
Qed.

Section outgoing.
Variable preferences : IClientConfig.
Variable env : Env.

#[local] Abbreviation Out := (outgoingFor preferences env).

Lemma out_frame {A} (m : Hook A) :
  (forall w, renders (after m w) = renders w
             /\ timers (after m w) = timers w
             /\ pending (after m w) = pending w
             /\ trace (after m w) = trace w) ->
  preserves Out m.
Proof.
  intros H w (Hin & (Ht & Hp) & Htr). destruct (H w) as (E1 & E2 & E3 & E4).
  unfold outgoingFor, outgoingAsConfigured, closuresRendered.
  by rewrite E1, E2, E3, E4.
Qed.

Ltac quiet :=
  apply out_frame; intros ?;
  (split; [reflexivity|split; [reflexivity|split; reflexivity]]).

Lemma out_clearInterval (h : positive) : preserves Out (clearInterval h).
Proof.
  intros w (Hin & (Ht & Hp) & Htr). split; [done|]. split; [|done].
  split; [|done]. cbn. by apply map_Forall_delete.
Qed.

Lemma out_armTimer (cb : Callback) (d : Z) (rec : bool) :
  closureOf cb = env -> preserves Out (armTimer cb d rec).
Proof.
  intros Hcb w (Hin & (Ht & Hp) & Htr). split; [done|]. split; [|done].
  split; [|done]. cbn. apply map_Forall_insert_2; [|done]. cbn. by rewrite Hcb.
Qed.

Lemma out_emit (ev : Event) :
  (forall rs, env ∈ rs -> asConfigured preferences rs ev) ->
  preserves Out (emit ev).
Proof.
  intros H w (Hin & Hc & Htr). split; [done|]. split; [done|].
  cbn. constructor; [by apply H|done].
Qed.

Lemma out_logger (level message : string) :
  hookMessage preferences [env] level message ->
  preserves Out (logger preferences level message).
Proof.
  intros Hm w (Hin & Hc & Htr). rewrite logger_after.
  split; [done|]. split; [done|]. cbn.
  apply Forall_app. split; [|done].
  assert (Hm' : hookMessage preferences (renders w) level message).
  { eapply hookMessage_mono; [|done].
    intros x Hx. apply list_elem_of_singleton in Hx. by subst. }
  destruct (logged_cases preferences level message) as [->|(lg & Hlg & E)];
    [constructor|].
  destruct (logged_admits preferences lg level message Hlg) as [Hiff _].
  destruct (proj1 Hiff E) as [Hen Had]. rewrite E.
  constructor; [|constructor]. unfold sinkCall.
  destruct (logFunction lg) eqn:Hf; cbn.
  - by exists lg.
  - by exists lg, level, message.
Qed.

Lemma out_axios_request (src : nat) :
  preserves Out (axios_request src (requestOptions preferences env src) env).
Proof.
  intros w (Hin & (Ht & Hp) & Htr). unfold axios_request. hook_cbn.
  split; [done|]. split; [split; [done|]|]; cbn.
  - by apply map_Forall_insert_2.
  - constructor; [|done]. by exists env.
Qed.

Lemma out_source_cancel (src : nat) : preserves Out (source_cancel src).
Proof.
  intros w (Hin & (Ht & Hp) & Htr). unfold source_cancel. hook_cbn.
  split; [done|]. split; [|done]. split; [done|]. cbn.
  destruct (pending w !! src) as [p|] eqn:E; [|done].
  apply map_Forall_insert_2; [|done]. apply (Hp src p E).
Qed.

#[local] Hint Extern 2 (preserves _ _) => quiet : hook.
#[local] Hint Resolve out_clearInterval out_source_cancel : hook.

Lemma out_outerCatch (e : value) : preserves Out (outerCatch preferences e).
Proof.
  unfold outerCatch. apply preserves_bind; [quiet|]. intros _.
  destruct (onException preferences) eqn:E; [|apply preserves_ret].
  apply out_emit. by intros rs _.
Qed.

Lemma out_outerFinally (e : Env) : preserves Out (outerFinally e).
Proof. unfold outerFinally. pres. Qed.

#[local] Hint Resolve out_outerCatch out_outerFinally : hook.

Lemma out_settle (e : Env) (body : Hook unit) :
  preserves Out body -> preserves Out (settle preferences e body).
Proof. intros H. unfold settle. pres. Qed.

Lemma out_prologue : preserves Out (prologue preferences env).
Proof.
  unfold prologue. apply preserves_bind.
  { apply out_logger. exists env. split; [by left|by left]. }
  intros _. pres. unfold setInterval. by apply out_armTimer.
Qed.

Lemma out_onFulfilled (data : value) :
  preserves Out (onFulfilled preferences env data).
Proof.
  unfold onFulfilled. apply preserves_bind.
  { apply out_logger. exists env. split; [by left|]. right. by left. }
  intros _. pres.
Qed.

Lemma out_onRejected (e : value) :
  preserves Out (onRejected preferences env e).
Proof.
  unfold onRejected. destruct (negb (isCancel e)); [|apply preserves_ret].
  apply preserves_bind.
  { apply out_logger. exists env. split; [by left|]. right. by right. }
  intros _. pres. unfold setTimeout. by apply out_armTimer.
Qed.

Lemma out_resume (outcome : Outcome) :
  preserves Out (resume preferences env outcome).
Proof.
  unfold resume. apply out_settle. pres.
  - destruct outcome; [apply out_onFulfilled|apply preserves_throw].
  - apply out_onRejected.
Qed.

Lemma out_request : preserves Out (request preferences env).
Proof.
  unfold request. apply preserves_bind; [apply out_prologue|]. intros src.
  apply preserves_bind; [quiet|]. intros t.
  destruct (cacheValid env t).
  - apply out_settle, preserves_ret.
  - apply out_axios_request.
Qed.

Lemma out_updateProgress (ev : ProgressEvent) (setter : Q -> Hook unit)
    (cb : option (ProgressEvent -> Hook unit)) :
  (forall q, preserves Out (setter q)) ->
  (forall f, cb = Some f -> preserves Out (f ev)) ->
  preserves Out (updateProgress ev setter cb).
Proof.
  intros Hs Hcb. unfold updateProgress.
  destruct (total ev) as [t|]; [|apply preserves_ret].
  destruct (t =? 0); [apply preserves_ret|].
  apply preserves_bind; [apply Hs|]. intros _.
  destruct cb as [f|]; [by apply Hcb|apply preserves_ret].
Qed.

Lemma out_onUpload (ev : ProgressEvent) : preserves Out (onUpload preferences ev).
Proof.
  unfold onUpload. apply out_updateProgress; [intros q; quiet|].
  intros f Hf. destruct (progressPrefs preferences) as [p|] eqn:Ep; [|done].
  destruct (onUploadProgress p) eqn:Eu; [|done].
  injection Hf as <-. apply out_emit. intros rs _. by exists p.
Qed.

Lemma out_onDownload (ev : ProgressEvent) :
  preserves Out (onDownload preferences ev).
Proof.
  unfold onDownload. apply out_updateProgress; [intros q; quiet|].
  intros f Hf. destruct (progressPrefs preferences) as [p|] eqn:Ep; [|done].
  destruct (onDownloadProgress p) eqn:Eu; [|done].
  injection Hf as <-. apply out_emit. intros rs _. by exists p.
Qed.

Lemma out_triggerProgressChange (e : Env) :
  preserves Out (triggerProgressChange preferences e).
Proof. unfold triggerProgressChange. pres. Qed.

Lemma out_stopPolling (e : Env) : preserves Out (stopPolling e).
Proof. unfold stopPolling. pres. Qed.

Lemma out_startPolling : preserves Out (startPolling env).
Proof.
  unfold startPolling. pres; [apply out_stopPolling|].
  unfold setInterval. by apply out_armTimer.
Qed.

Lemma out_cancel (e : Env) : preserves Out (cancel e).
Proof. unfold cancel. pres. Qed.
End outgoing.

Lemma out_rendered (preferences : IClientConfig) (env : Env) (w : World) :
  outgoingAsConfigured preferences w ->
  outgoingFor preferences env (withRenders (fun l => (l ++ [env])%list) w).
Proof.
  intros ((Ht & Hp) & Htr).
  assert (Hsub : renders w ⊆ (renders w ++ [env])%list).
  { intros x Hx. apply elem_of_app. by left. }
  split; [cbn; apply elem_of_app; right; by left|].
  split; [split|]; cbn.
  - eapply map_Forall_impl; [exact Ht|]. intros h t. cbn. apply Hsub.
  - eapply map_Forall_impl; [exact Hp|]. intros src p. cbn. apply Hsub.
  - eapply Forall_impl; [exact Htr|]. intros ev. by apply asConfigured_mono.
Qed.

Lemma out_exec (preferences : IClientConfig) (a : Action) (w : World) :
  outgoingAsConfigured preferences w ->
  outgoingAsConfigured preferences (exec preferences a w).
Proof.
  intros Hw. pose proof Hw as ((Ht & Hp) & Htr).
  assert (Hr : forall r env, renders w !! r = Some env ->
                 outgoingFor preferences env w).
  { intros r env E. split; [by eapply list_elem_of_lookup_2|done]. }
  destruct a as [cfg|r|r|r|r|src outcome|src ev|src ev|h|dt]; cbn [exec].
  - set (env := {| seen := store w; config := cfg |}).
    enough (H : outgoingFor preferences env
                  (after (effectCleanup (last (renders w));; effect env)
                     (withRenders (fun l => (l ++ [env])%list) w)))
      by apply H.
    apply (preserves_bind (outgoingFor preferences env)); [| |by apply out_rendered].
    + unfold effectCleanup. destruct (last (renders w)); [|apply preserves_ret].
      apply out_stopPolling.
    + intros _. unfold effect. apply preserves_when, out_startPolling.
  - destruct (renders w !! r) as [env|] eqn:E; [|done].
    by apply (out_request preferences env w), (Hr r).
  - destruct (renders w !! r) as [env|] eqn:E; [|done].
    by apply (out_cancel preferences env env w), (Hr r).
  - destruct (renders w !! r) as [env|] eqn:E; [|done].
    by apply (out_startPolling preferences env w), (Hr r).
  - destruct (renders w !! r) as [env|] eqn:E; [|done].
    by apply (out_stopPolling preferences env env w), (Hr r).
  - destruct (pending w !! src) as [p|] eqn:E; [|done].
    apply (out_resume preferences (awaiting p)).
    split; [apply (Hp src p E)|]. split; [|done].
    split; [done|]. cbn. by apply map_Forall_delete.
  - destruct (pending w !! src) as [p|] eqn:E; [|done].
    apply (out_onUpload preferences (awaiting p)).
    split; [apply (Hp src p E)|done].
  - destruct (pending w !! src) as [p|] eqn:E; [|done].
    apply (out_onDownload preferences (awaiting p)).
    split; [apply (Hp src p E)|done].
  - destruct (timers w !! h) as [t|] eqn:E; [|done].
    destruct (due t <=? now w); [|done].
    pose proof (Ht h t E) as Hcb. cbn in Hcb.
    assert (Hre : outgoingFor preferences (closureOf (callback t)) (rearm h t w)).
    { split; [by unfold rearm; destruct (recurring t)|].
      split; [|by unfold rearm; destruct (recurring t)].
      unfold rearm. destruct (recurring t); split; try done; cbn.
      - by apply map_Forall_insert_2.
      - by apply map_Forall_delete. }
    destruct (callback t) as [env|env]; cbn in *.
    + by apply (out_request preferences env).
    + by apply (out_triggerProgressChange preferences env env).
  - by destruct (0 <=? dt).
Qed.

Lemma out_run (preferences : IClientConfig) (acts : list Action) (w : World) :
  outgoingAsConfigured preferences w ->
  outgoingAsConfigured preferences (run preferences acts w).
Proof.
  revert w. induction acts as [|a acts IH]; intros w Hw; [done|].
  cbn. apply IH. by apply out_exec.
Qed.

Lemma out_initial (preferences : IClientConfig) :
  outgoingAsConfigured preferences initialWorld.
Proof.
  split; [split; apply map_Forall_empty|constructor].
Qed.

(** X20. Whatever happens to a mounted hook, it calls out only as
    configured: every log line is one of the three lines of [request]
    (the two info lines, the error line of a failure) for the computed URL
    of a render made so far, written with logging enabled, at a level the
    configured level admits, to [logFunction] when one is given and to
    [console.log] only otherwise; [onException] and the two progress
    callbacks are called only when configured; the transport is called
    only with the options lines 204-233 build from the [config] of a render
    made so far and the cancel source of the call.  Every closure that can
    still run, on a timer or on a call in flight, is one of those
    renders'.  With logging not enabled nothing is ever logged, and
    without [onException] it is never called. *)
Theorem outgoing_calls_as_configured (preferences : IClientConfig)
    (acts : list Action) :
  let w := run preferences acts initialWorld in
  Forall (asConfigured preferences (renders w)) (trace w)
  /\ closuresRendered w
  /\ ((logging preferences ≫= enableLogging) <> Some true ->
      forall level message line,
        (EvLogFunction level message ∉ trace w)
        /\ (EvConsoleLog line ∉ trace w))
  /\ (onException preferences = false ->
      List.filter isOnException (trace w) = []).
Proof.
  intros w.
  destruct (out_run preferences acts initialWorld (out_initial preferences))
    as [Hc H].
  fold w in Hc, H.
  split; [done|]. split; [done|]. rewrite Forall_forall in H. split.
  - intros Hoff level message line. split; intros Hin; apply H in Hin; cbn in Hin.
    + destruct Hin as (lg & Hlg & Hen & _). rewrite Hlg in Hoff. cbn in Hoff.
      congruence.
    + destruct Hin as (lg & l & m & Hlg & Hen & _). rewrite Hlg in Hoff.
      cbn in Hoff. congruence.
  - intros Hoff. induction (trace w) as [|ev l IH]; [done|].
    cbn. destruct (isOnException ev) eqn:E.
    + destruct ev; try discriminate E.
      assert (Hcfg : asConfigured preferences (renders w) (EvOnException e))
        by (apply H; left).
      cbn in Hcfg. congruence.
    + apply IH. intros x Hx. apply H. by right.
Qed.

(** X17. The progress-sampling timer a request arms outlives the request:
    the final block clears the handle the render saw before the request,
    not the one the request has just stored, so however the call ends
    the timer is still armed and [progressUpdateInterval] still names it;
    a request through a later render, one that has seen its handle, clears
    it.  Nothing else does: in every world the hook can reach, an armed
    progress-sampling timer survives each action (a render with its
    effect, [fetch()], [cancel()], [polling.resume()], [polling.pause()],
    a completion, a progress event, a timer that fires, the passing of
    time) with its closure and period, unless the action starts or ends a
    [request] of a render that has seen its handle. *)
Theorem progress_timer_outlives_its_request (preferences : IClientConfig)
    (w : World) (r : nat) (env : Env) (d : Z) (outcome : Outcome) :
  sampling preferences = Some d ->
  renders w !! r = Some env ->
  cacheValid env (now w) = false ->
  progressUpdateInterval (seen env) <> Some (nextTimer w) ->
  let tick := {| callback := CbTick env; delay := d; recurring := true;
                 due := now w + d |} in
  let w1 := exec preferences (CallFetch r) w in
  let w2 := exec preferences (Settle (nextSource w) outcome) w1 in
  timers w1 !! nextTimer w = Some tick
  /\ timers w2 !! nextTimer w = Some tick
  /\ progressUpdateInterval (store w2) = Some (nextTimer w)
  /\ (forall later,
       progressUpdateInterval (seen later) = Some (nextTimer w) ->
       timers (after (request preferences later) w2) !! nextTimer w = None)
  /\ (forall acts a h tenv period,
       let v := run preferences acts initialWorld in
       tickAt v h tenv period ->
       tickAt (exec preferences a v) h tenv period
       \/ exists later, later ∈ renders v
            /\ progressUpdateInterval (seen later) = Some h
            /\ requestThrough v a later).
Proof.
  intros Hs Hr Hmiss Hfresh tick w1 w2.
  assert (Honly : forall acts a h tenv period,
            let v := run preferences acts initialWorld in
            tickAt v h tenv period ->
            tickAt (exec preferences a v) h tenv period
            \/ exists later, later ∈ renders v
                 /\ progressUpdateInterval (seen later) = Some h
                 /\ requestThrough v a later).
  { intros acts a h tenv period v. apply tick_kept_unless_requested.
    - apply hk_run, hk_initial.
    - apply (out_run preferences acts initialWorld (out_initial preferences)). }
  destruct (request_miss preferences env w Hmiss) as (wp & Hp & Hreq).
  destruct (prologue_components preferences env w) as (wp' & Hp' & Hst & Ht & Hn).
  assert (wp' = wp) as -> by congruence. rewrite Hs in Hst, Ht, Hn.
  assert (Hw1 : w1 = withPending
            (insert (nextSource w) {| awaiting := env; cancelled := false |})
            (withTrace (cons (EvTransport (nextSource w)
                                 (requestOptions preferences env (nextSource w))))
               wp)).
  { subst w1. unfold exec, fetch. by rewrite Hr. }
  clearbody w1. subst w1. set (w1 := withPending _ _) in *.
  assert (Ht1 : timers w1 !! nextTimer w = Some tick).
  { subst w1. cbn. rewrite Ht. apply lookup_insert_eq. }
  assert (Hn1 : nextTimer w1 = Pos.succ (nextTimer w)).
  { subst w1. cbn. by rewrite Hn. }
  assert (Hp1 : pending w1 !! nextSource w
                = Some {| awaiting := env; cancelled := false |}).
  { subst w1. cbn. apply lookup_insert_eq. }
  assert (Hw2 : w2 = after (resume preferences env
                             (delivered {| awaiting := env; cancelled := false |}
                                outcome))
                       (withPending (delete (nextSource w)) w1)).
  { subst w2. unfold exec. by rewrite Hp1. }
  assert (Ht2 : timers w2 !! nextTimer w = Some tick).
  { rewrite Hw2, resume_timers_other; [done|done|].
    change (nextTimer w <> nextTimer w1). rewrite Hn1. lia. }
  assert (Hpui : progressUpdateInterval (store w2) = Some (nextTimer w)).
  { rewrite Hw2. generalize (delivered {| awaiting := env; cancelled := false |}
                               outcome). intros o.
    assert (Hs1 : progressUpdateInterval (store w1) = Some (nextTimer w)).
    { subst w1. cbn. by rewrite Hst. }
    clearbody w1.
    resume_cases preferences env o (withPending (delete (nextSource w)) w1);
      hook_cbn; try (destruct (truthyNum (ttl (config env))); cbn);
      try (destruct (onException preferences); cbn); done. }
  split; [done|]. split; [done|]. split; [done|]. split; [|exact Honly].
  intros later Hl.
  assert (Hnext : nextTimer w2 <> nextTimer w).
  { pose proof (resume_nextTimer preferences env
                  (delivered {| awaiting := env; cancelled := false |} outcome)
                  (withPending (delete (nextSource w)) w1)) as Hnt.
    rewrite <- Hw2 in Hnt. change (nextTimer (withPending _ w1)) with (nextTimer w1) in Hnt.
    rewrite Hn1 in Hnt. destruct Hnt as [->| ->]; lia. }
  destruct (prologue_components preferences later w2) as (wq & Hq & _ & Htq & _).
  rewrite Hs, Hl in Htq.
  assert (Hq_none : timers wq !! nextTimer w = None).
  { rewrite Htq, lookup_insert_ne by done. cbn. apply lookup_delete_eq. }
  destruct (cacheValid later (now w2)) eqn:Ec.
  - destruct (request_hit preferences later w2 Ec) as (wq' & Hq' & ->).
    assert (wq' = wq) as -> by congruence.
    destruct (timers (after (outerFinally later) wq) !! nextTimer w)
      as [t|] eqn:E; [|done].
    apply outerFinally_timers in E. congruence.
  - destruct (request_miss preferences later w2 Ec) as (wq' & Hq' & ->).
    assert (wq' = wq) as -> by congruence. done.
Qed.

(** ** Instances of the further properties *)

Lemma fetch_miss_starts_call_witness :
  let w := firstRender plainPrefs rawUrlCall in
  let w' := exec plainPrefs (CallFetch 0%nat) w in
  let options := requestOptions plainPrefs (firstEnv rawUrlCall) 1%nat in
  renders w !! 0%nat = Some (firstEnv rawUrlCall)
  /\ cacheValid (firstEnv rawUrlCall) (now w) = false
  /\ loading (store w') = true
  /\ source (store w') = Some 1%nat
  /\ hd_error (trace w') = Some (EvTransport 1%nat options)
  /\ options !! "url" = Some (Text "/other")
  /\ transportCalls w' = 1%nat.
Proof.
  intros w w' options.
  assert (Hr : renders w !! 0%nat = Some (firstEnv rawUrlCall))
    by (vm_compute; reflexivity).
  assert (Hm : cacheValid (firstEnv rawUrlCall) (now w) = false)
    by (vm_compute; reflexivity).
  destruct (fetch_miss_starts_call plainPrefs w 0%nat (firstEnv rawUrlCall) Hr Hm)
    as (Hl & _ & _ & _ & _ & Hs & _ & Htr & _ & _ & Hown & Ht & _).
  split; [exact Hr|]. split; [exact Hm|]. split; [exact Hl|].
  split; [exact Hs|]. split; [unfold w'; rewrite Htr; reflexivity|].
  split; [apply Hown; vm_compute; reflexivity|exact Ht].
Defined.

Lemma fetch_hit_leaves_idle_source_witness :
  let w := run plainPrefs answeredCall initialWorld in
  let env := {| seen := store w; config := cachedCall |} in
  let w' := exec plainPrefs (CallFetch 1%nat) w in
  renders w !! 1%nat = Some env
  /\ cacheValid env (now w) = true
  /\ loading (store w') = false
  /\ source (store w') = Some 2%nat
  /\ pending w' = pending w
  /\ transportCalls w' = 1%nat.
Proof.
  intros w env w'.
  assert (Hr : renders w !! 1%nat = Some env) by (vm_compute; reflexivity).
  assert (Hh : cacheValid env (now w) = true) by (vm_compute; reflexivity).
  destruct (fetch_hit_leaves_idle_source plainPrefs w 1%nat env Hr Hh)
    as (Hl & _ & _ & _ & _ & Hs & Hp & Ht & _).
  split; [exact Hr|]. split; [exact Hh|]. split; [exact Hl|].
  split; [exact Hs|]. split; [exact Hp|exact Ht].
Defined.

Lemma fetch_reaches_transport_unless_cached_witness :
  let w := firstRender plainPrefs cachedCall in
  let w' := exec plainPrefs (CallFetch 0%nat) w in
  renders w !! 0%nat = Some (firstEnv cachedCall)
  /\ transportCalls w' = S (transportCalls w).
Proof.
  intros w w'.
  assert (Hr : renders w !! 0%nat = Some (firstEnv cachedCall))
    by (vm_compute; reflexivity).
  destruct (fetch_reaches_transport_unless_cached plainPrefs w 0%nat
              (firstEnv cachedCall) Hr) as (_ & _ & Hfalsy & _).
  split; [exact Hr|]. apply Hfalsy. reflexivity.
Defined.

Lemma settle_resolved_stores_payload_witness :
  let w := firstCall plainPrefs cachedCall 20 in
  let p := {| awaiting := firstEnv cachedCall; cancelled := false |} in
  let w' := exec plainPrefs (Settle 1%nat (Resolved (VStr "ok"))) w in
  pending w !! 1%nat = Some p
  /\ response (store w') = VStr "ok"
  /\ cache (store w') = VStr "ok"
  /\ cacheTime (store w') = 20
  /\ loading (store w') = false.
Proof.
  intros w p w'.
  assert (Hp : pending w !! 1%nat = Some p) by (vm_compute; reflexivity).
  destruct (settle_resolved_stores_payload plainPrefs w 1%nat p (VStr "ok")
              Hp eq_refl) as (Hr & Hc & Hct & Hl & _).
  split; [exact Hp|]. split; [exact Hr|]. split; [exact Hc|].
  split; [exact Hct|exact Hl].
Defined.

Lemma settle_always_clears_loading_witness :
  let w := firstCall plainPrefs plainCall 20 in
  let p := {| awaiting := firstEnv plainCall; cancelled := false |} in
  let w' := exec plainPrefs (Settle 1%nat (Rejected networkError)) w in
  pending w !! 1%nat = Some p
  /\ loading (store w) = true
  /\ loading (store w') = false
  /\ source (store w') = None
  /\ pending w' = delete 1%nat (pending w)
  /\ transportCalls w' = transportCalls w.
Proof.
  intros w p w'.
  assert (Hp : pending w !! 1%nat = Some p) by (vm_compute; reflexivity).
  destruct (settle_always_clears_loading plainPrefs w 1%nat p
              (Rejected networkError) Hp) as (Hl & Hs & Hd & Ht & _).
  split; [exact Hp|]. split; [vm_compute; reflexivity|]. split; [exact Hl|].
  split; [exact Hs|]. split; [exact Hd|exact Ht].
Defined.

Lemma settle_schedules_retry_witness :
  let preferences := retryPrefs (Some 3) (Some (always true)) in
  let w := firstCall preferences plainCall 50 in
  let p := {| awaiting := firstEnv plainCall; cancelled := false |} in
  let w' := exec preferences (Settle 1%nat (Rejected networkError)) w in
  pending w !! 1%nat = Some p
  /\ retryAllowed preferences (awaiting p) = true
  /\ retryCount (store w') = 1
  /\ error (store w') = error (store w)
  /\ loading (store w') = false
  /\ transportCalls (run preferences [Advance 1000; Fire (nextTimer w)] w')
     = S (transportCalls w').
Proof.
  intros preferences w p w'.
  assert (Hp : pending w !! 1%nat = Some p) by (vm_compute; reflexivity).
  assert (Ha : retryAllowed preferences (awaiting p) = true)
    by (vm_compute; reflexivity).
  assert (Hf : progressUpdateInterval (seen (awaiting p)) <> Some (nextTimer w))
    by (vm_compute; discriminate).
  destruct (settle_schedules_retry preferences w 1%nat p networkError
              (always true) Hp eq_refl eq_refl Ha eq_refl eq_refl Hf)
    as (_ & Hrc & He & _ & Hl & Hfire).
  split; [exact Hp|]. split; [exact Ha|]. split; [exact Hrc|].
  split; [exact He|]. split; [exact Hl|].
  apply Hfire; [vm_compute; discriminate|vm_compute; reflexivity].
Defined.

Lemma settle_arms_timer_iff_accepted_witness :
  let preferences := retryPrefs (Some 3) (Some (always true)) in
  let w := firstCall preferences plainCall 50 in
  let p := {| awaiting := firstEnv plainCall; cancelled := false |} in
  pending w !! 1%nat = Some p
  /\ nextTimer (exec preferences (Settle 1%nat (Rejected networkError)) w)
     = Pos.succ (nextTimer w)
  /\ nextTimer (exec preferences (Settle 1%nat (Resolved VNull)) w)
     = nextTimer w.
Proof.
  intros preferences w p.
  assert (Hp : pending w !! 1%nat = Some p) by (vm_compute; reflexivity).
  destruct (settle_arms_timer_iff_accepted preferences w 1%nat p
              (Rejected networkError) Hp) as (Hyes & _).
  split; [exact Hp|]. split.
  - apply Hyes. exists networkError, (always true).
    repeat split; vm_compute; reflexivity.
  - vm_compute; reflexivity.
Defined.

Lemma settle_surfaces_error_iff_witness :
  let preferences := retryPrefs (Some 3) (Some (always false)) in
  let w := firstCall preferences plainCall 50 in
  let p := {| awaiting := firstEnv plainCall; cancelled := false |} in
  let w' := exec preferences (Settle 1%nat (Rejected networkError)) w in
  pending w !! 1%nat = Some p
  /\ error (store w') = networkError
  /\ List.filter isOnException (trace w') = [EvOnException networkError]
  /\ retryCount (store w') = retryCount (store w).
Proof.
  intros preferences w p w'.
  assert (Hp : pending w !! 1%nat = Some p) by (vm_compute; reflexivity).
  destruct (settle_surfaces_error_iff preferences w 1%nat p
              (Rejected networkError) Hp) as (Hyes & _ & Hkeep & _).
  assert (Hd : exists cond,
             retryAllowed preferences (awaiting p) = true
             /\ retry preferences ≫= retryCondition = Some cond
             /\ cond networkError = false).
  { exists (always false). repeat split; vm_compute; reflexivity. }
  destruct (Hyes networkError) as [He Hex].
  { split; [reflexivity|]. split; [reflexivity|]. right. exact Hd. }
  split; [exact Hp|]. split; [exact He|]. split; [exact Hex|].
  apply (Hkeep networkError); [reflexivity|reflexivity|exact Hd].
Defined.

Lemma progress_event_without_total_is_ignored_witness :
  let ev := {| loaded := 10; total := Some 0 |} in
  let w := firstCall progressBothPrefs plainCall 20 in
  (total ev = None \/ total ev = Some 0)
  /\ onUpload progressBothPrefs ev w = (Ok tt, w)
  /\ onDownload progressBothPrefs ev w = (Ok tt, w).
Proof.
  intros ev w.
  assert (H : total ev = None \/ total ev = Some 0) by (right; reflexivity).
  split; [exact H|].
  exact (progress_event_without_total_is_ignored progressBothPrefs ev w H).
Defined.

Lemma progress_event_sets_nearest_percentage_witness :
  let ev := {| loaded := 1; total := Some 3 |} in
  let w := firstCall progressBothPrefs plainCall 20 in
  total ev = Some 3
  /\ 200 * loaded ev + 2 * 3 < 2 ^ 53
  /\ uploadProgress (store (after (onUpload progressBothPrefs ev) w))
     = inject_Z 33
  /\ downloadProgress (store (after (onUpload progressBothPrefs ev) w)) = 0%Q
  /\ 200 * 1 - 3 < 2 * 3 * 33 <= 200 * 1 + 3.
Proof.
  intros ev w.
  assert (Ht : total ev = Some 3) by reflexivity.
  assert (Hl : 0 <= loaded ev) by (cbn; lia).
  assert (Hp : 0 < 3) by lia.
  assert (Hr : 200 * loaded ev + 2 * 3 < 2 ^ 53) by (cbn; lia).
  destruct (progress_event_sets_nearest_percentage progressBothPrefs ev 3 w
              Ht Hl Hp Hr) as (Hu & _ & Hb & _).
  split; [exact Ht|]. split; [exact Hr|]. rewrite Hu.
  split; [vm_compute; reflexivity|]. split; [vm_compute; reflexivity|].
  exact Hb.
Defined.

Lemma only_completion_writes_results_witness :
  let w := run plainPrefs answeredCall initialWorld in
  isSettle (CallFetch 1%nat) = false
  /\ sameResults w (exec plainPrefs (CallFetch 1%nat) w).
Proof.
  intros w. split; [reflexivity|].
  apply only_completion_writes_results. reflexivity.
Defined.

Lemma passive_actions_keep_call_state_witness :
  let w := run plainPrefs callInFlight initialWorld in
  runsRequest (CallCancel 1%nat) = false
  /\ loading (store w) = true
  /\ sameCallState w (exec plainPrefs (CallCancel 1%nat) w).
Proof.
  intros w. split; [reflexivity|]. split; [vm_compute; reflexivity|].
  apply passive_actions_keep_call_state. reflexivity.
Defined.

Lemma effect_alone_keeps_one_poll_timer_witness :
  let w := run plainPrefs polledTwice initialWorld in
  let w' := exec plainPrefs (Render polledCall) w in
  Forall (fun a => consumerPolls a = false) polledTwice
  /\ (length (pollHandles w) <= 1)%nat
  /\ pollHandles w' = [nextTimer w]
  /\ intervalId (store w') = Some (nextTimer w).
Proof.
  intros w w'.
  assert (H : Forall (fun a => consumerPolls a = false) polledTwice)
    by (repeat constructor).
  destruct (effect_alone_keeps_one_poll_timer plainPrefs polledTwice H)
    as [Hle Hre].
  split; [exact H|]. split; [exact Hle|].
  apply (Hre polledCall 1000). reflexivity.
Defined.

Lemma no_refresh_no_poll_timer_witness :
  let w := run plainPrefs resumedWithoutRefresh initialWorld in
  Forall rendersWithoutRefresh resumedWithoutRefresh
  /\ pollHandles w = []
  /\ intervalId (store w) = None
  /\ exec plainPrefs (CallResume 0%nat) w = w.
Proof.
  intros w.
  assert (H : Forall rendersWithoutRefresh resumedWithoutRefresh)
    by (repeat constructor).
  destruct (no_refresh_no_poll_timer plainPrefs resumedWithoutRefresh H)
    as (Hp & Hi & Hn).
  split; [exact H|]. split; [exact Hp|]. split; [exact Hi|].
  exact (proj1 (Hn 0%nat)).
Defined.

Lemma progress_timer_outlives_its_request_witness :
  let w := firstRender progressBothPrefs plainCall in
  let env := firstEnv plainCall in
  let tick := {| callback := CbTick env; delay := 100; recurring := true;
                 due := now w + 100 |} in
  let w2 := run progressBothPrefs
              [CallFetch 0%nat; Settle (nextSource w) (Resolved (VStr "ok"))] w in
  let v := run progressBothPrefs sampledCall initialWorld in
  sampling progressBothPrefs = Some 100
  /\ renders w !! 0%nat = Some env
  /\ loading (store w2) = false
  /\ timers w2 !! nextTimer w = Some tick
  /\ progressUpdateInterval (store w2) = Some (nextTimer w)
  /\ tickAt v 1%positive env 100
  /\ tickAt (exec progressBothPrefs (CallPause 0%nat) v) 1%positive env 100
  /\ tickAt (exec progressBothPrefs (Render polledCall) v) 1%positive env 100.
Proof.
  intros w env tick w2 v.
  assert (Hs : sampling progressBothPrefs = Some 100) by reflexivity.
  assert (Hr : renders w !! 0%nat = Some env) by (vm_compute; reflexivity).
  assert (Hm : cacheValid env (now w) = false) by (vm_compute; reflexivity).
  assert (Hf : progressUpdateInterval (seen env) <> Some (nextTimer w))
    by (vm_compute; discriminate).
  destruct (progress_timer_outlives_its_request progressBothPrefs w 0%nat env
              100 (Resolved (VStr "ok")) Hs Hr Hm Hf)
    as (_ & Ht & Hp & _ & Honly).
  assert (Hv : tickAt v 1%positive env 100).
  { eexists. split; [vm_compute; reflexivity|]. by repeat split. }
  split; [exact Hs|]. split; [exact Hr|]. split; [vm_compute; reflexivity|].
  split; [exact Ht|]. split; [exact Hp|]. split; [exact Hv|]. split.
  - destruct (Honly sampledCall (CallPause 0%nat) 1%positive env 100 Hv)
      as [H|(later & _ & _ & [])]. exact H.
  - destruct (Honly sampledCall (Render polledCall) 1%positive env 100 Hv)
      as [H|(later & _ & _ & [])]. exact H.
Defined.

Lemma pause_clears_seen_timer_witness :
  let w1 := exec plainPrefs (Render polledCall) initialWorld in
  let w2 := exec plainPrefs (CallPause 0%nat) w1 in
  polls polledCall = Some 1000
  /\ pollAt w1 1%positive
  /\ intervalId (store w1) = Some 1%positive
  /\ w2 = w1.
Proof.
  intros w1 w2.
  assert (Hp : polls polledCall = Some 1000) by reflexivity.
  destruct (pause_clears_seen_timer plainPrefs (firstEnv polledCall)
              initialWorld) as (_ & _ & _ & Hstale).
  destruct (Hstale polledCall 1000 Hp eq_refl) as (H1 & H2 & H3).
  split; [exact Hp|]. split; [exact H1|]. split; [exact H2|exact H3].
Defined.

Lemma poll_fetches_through_arming_render_witness :
  let w1 := exec plainPrefs (Render polledCall) initialWorld in
  let w2 := run plainPrefs [Advance 1000; Fire 1%positive] w1 in
  polls polledCall = Some 1000
  /\ transportCalls w1 = 0%nat
  /\ exec plainPrefs (Fire 1%positive) w1 = w1
  /\ transportCalls w2 = 1%nat
  /\ (exists t, timers w2 !! 1%positive = Some t /\ due t = 2000).
Proof.
  intros w1 w2.
  assert (Hp : polls polledCall = Some 1000) by reflexivity.
  assert (Hpos : 0 < 1000) by lia.
  assert (Hf : progressUpdateInterval (store initialWorld)
               <> Some (nextTimer initialWorld)) by (vm_compute; discriminate).
  destruct (poll_fetches_through_arming_render plainPrefs polledCall 1000
              initialWorld Hp Hpos Hf) as (Hc & Hidle & Hmiss & _ & Htm).
  split; [exact Hp|]. split; [exact Hc|]. split; [exact Hidle|].
  split; [apply Hmiss; vm_compute; reflexivity|].
  eexists. split; [exact Htm|]. vm_compute; reflexivity.
Defined.
